(** * Scheduled upload dispatcher: a shallow embedding of [uploader-service/main.py]

    The development follows the source file top to bottom: the Python values
    and exceptions the script manipulates, the wall-clock slot key
    ([round_to_quarter] and [strftime('%H_%M')]), the document store and the
    external collaborators (downloader, OAuth refresher, resumable upload),
    and finally [process_queue] with its per-item [try/except/finally]. *)

From Stdlib Require Import ZArith Lia String Ascii DecimalString.
From stdpp Require Import gmap strings list sorting.

Local Open Scope Z_scope.
Local Open Scope string_scope.

(** ** Python values, dictionaries and exceptions *)

(** The field values that occur in the Firestore documents of this service. *)
Inductive value :=
| VNone                       (* Python [None] / Firestore null *)
| VStr (s : string)
| VTime (t : Z).              (* a timestamp, as microseconds since the epoch *)

#[global] Instance value_eq_dec : EqDecision value.
Proof. solve_decision. Defined.

(** [dict] is a document as [to_dict()] returns it. *)
Abbreviation dict := (gmap string value).

(** [d.get(k)] and [d.get(k, default)]. *)
Definition dict_get (d : dict) (k : string) : value := default VNone (d !! k).
Definition dict_get_default (d : dict) (k : string) (dflt : value) : value :=
  default dflt (d !! k).

(** Python truthiness of a field value ([if v:], [a and b]). *)
Definition truthy (v : value) : bool :=
  match v with
  | VNone => false
  | VStr s => negb (String.eqb s "")
  | VTime _ => true
  end.

(** [str(v)] as it appears inside an f-string. *)
Definition str_of_value (v : value) : string :=
  match v with
  | VNone => "None"
  | VStr s => s
  | VTime t => NilZero.string_of_int (Z.to_int t)
  end.

(** Exceptions.  Every class modelled here derives from [Exception], so the
    [except Exception] of [process_queue] catches all of them;
    [HttpError] carries [e.resp.status]. *)
Inductive exn :=
| PyExc (cls : string) (msg : string)
| HttpError (status : Z) (msg : string).

(** [str(e)]. *)
Definition str_of_exn (e : exn) : string :=
  match e with
  | PyExc _ msg => msg
  | HttpError _ msg => msg
  end.

(** [needle in hay] on strings. *)
Definition str_contains (needle hay : string) : bool :=
  match String.index 0 needle hay with
  | Some _ => true
  | None => false
  end.

(** ** Time-slot resolution *)

(** A [datetime] value; the fields are the attributes Python exposes. *)
Record datetime := {
  year : Z; month : Z; day : Z;
  hour : Z; minute : Z; second : Z; microsecond : Z
}.

(** The range checks the [datetime] constructor enforces on the time of day
    (the calendar part plays no role in the slot key). *)
Definition valid_time (dt : datetime) : Prop :=
  0 <= hour dt < 24 /\ 0 <= minute dt < 60 /\
  0 <= second dt < 60 /\ 0 <= microsecond dt < 1000000.

(** [dt.replace(minute=m, second=s, microsecond=us)]: Python re-validates the
    new fields and raises [ValueError] when one is out of range. *)
Definition replace_msu (dt : datetime) (m s us : Z) : option datetime :=
  if decide (0 <= m < 60 /\ 0 <= s < 60 /\ 0 <= us < 1000000)
  then Some {| year := year dt; month := month dt; day := day dt;
               hour := hour dt; minute := m; second := s; microsecond := us |}
  else None.

(** [round_to_quarter]: floor the minutes to the previous multiple of 15.
    Python's [//] on non-negative integers is [Z.div]. *)
Definition round_to_quarter (dt : datetime) : option datetime :=
  let minute := (minute dt / 15) * 15 in
  replace_msu dt minute 0 0.

(** One decimal digit as a character. *)
Definition digit_char (d : Z) : ascii :=
  ascii_of_nat (48 + Z.to_nat d).

(** [%H] and [%M]: a zero-padded two-digit decimal field. *)
Definition pad2 (n : Z) : string :=
  String (digit_char (n / 10)) (String (digit_char (n mod 10)) EmptyString).

(** [dt.strftime('%H_%M')]. *)
Definition strftime_H_M (dt : datetime) : string :=
  pad2 (hour dt) ++ "_" ++ pad2 (minute dt).

(** The slot key computed at the top of [process_queue]:
    [round_to_quarter(now_utc).strftime('%H_%M')]. *)
Definition current_quarter_id (now_utc : datetime) : option string :=
  strftime_H_M <$> round_to_quarter now_utc.

(** Seconds elapsed since midnight, used to name the 15-minute window that
    contains an instant (900 seconds per window). *)
Definition seconds_of_day (dt : datetime) : Z :=
  3600 * hour dt + 60 * minute dt + second dt.

Definition same_window (a b : datetime) : Prop :=
  year a = year b /\ month a = month b /\ day a = day b /\
  seconds_of_day a / 900 = seconds_of_day b / 900.

(** Reading a two-digit field back as a number. *)
Definition digit_val (c : ascii) : Z := Z.of_nat (nat_of_ascii c) - 48.

Definition read2 (s : string) (i : nat) : option Z :=
  match String.get i s, String.get (S i) s with
  | Some a, Some b => Some (10 * digit_val a + digit_val b)
  | _, _ => None
  end.

Definition t_13_07_00 : datetime :=
  {| year := 2024; month := 1; day := 1;
     hour := 13; minute := 7; second := 0; microsecond := 0 |}.

Definition t_13_59_59 : datetime :=
  {| year := 2024; month := 1; day := 1;
     hour := 13; minute := 59; second := 59; microsecond := 0 |}.

(** ** The document store and the external collaborators *)

(** What an [update] call writes into one field: a literal, or the
    [firestore.SERVER_TIMESTAMP] sentinel the store replaces by its own
    clock. *)
Inductive field_write :=
| Lit (v : value)
| SERVER_TIMESTAMP.

#[global] Instance field_write_eq_dec : EqDecision field_write.
Proof. solve_decision. Defined.

Abbreviation update_data := (gmap string field_write).

Definition resolve (now : Z) (w : field_write) : value :=
  match w with
  | Lit v => v
  | SERVER_TIMESTAMP => VTime now
  end.

(** The effect of [doc_ref.update(data)] on the stored fields: the listed
    fields are set in one step, every other field is kept. *)
Definition merge_fields (now : Z) (data : update_data) (doc : dict) : dict :=
  (resolve now <$> data) ∪ doc.

(** A [schedules/<slot>] document; [sched_users = None] when the document has
    no ['users'] field. *)
Record schedule_doc := { sched_users : option (list value) }.

(** The [body] argument of [youtube.videos().insert]. *)
Record video_body := {
  snippet_title : value;
  snippet_description : value;
  snippet_categoryId : string;
  status_privacyStatus : string
}.

(** The [ydl_opts] dictionary of [download_video]. *)
Record ydl_opts := {
  opt_format : string;
  opt_outtmpl : string;
  opt_merge_output_format : string;
  opt_quiet : bool;
  opt_socket_timeout : Z;
  opt_cookiefile : option string
}.

(** The object [Credentials.from_authorized_user_info] builds. *)
Record credentials := {
  refresh_token : value;
  token_uri : string;
  client_id : string;
  client_secret : string
}.

(** One call of [request.next_chunk()]: either the pair [(status, response)]
    it returns ([status] is the progress in percent when present) or the
    exception it raises. *)
Inductive chunk_result :=
| ChunkReturn (status : option Z) (response : option dict)
| ChunkRaise (e : exn).

(** The calls that leave the process, in the order they are made. *)
Inductive event :=
| EvUpdate (id : string) (data : update_data) (now : Z) (raised : option exn)
| EvTokenDelete (uid : value) (raised : option exn)
| EvRefresh (uid : value) (raised : option exn)
| EvDownload (video_url : value) (opts : ydl_opts) (raised : option exn)
| EvInsert (part : string) (body : video_body) (media : string)
| EvNextChunk (r : chunk_result)
| EvRemove (path : string).

(** The behaviour of everything the script does not control.  Each answer
    may depend on the whole history of calls made so far. *)
Record collaborators := {
  (* the store's clock, used for SERVER_TIMESTAMP *)
  server_time : list event -> Z;
  (* [Some e]: this [update] call raises [e] and writes nothing *)
  update_fault : list event -> string -> update_data -> option exn;
  (* the exception [ydl.download] raises, if any, and whether a file is
     left at [outtmpl] afterwards *)
  ydl_download : list event -> value -> ydl_opts -> option exn * bool;
  (* [creds.expired] on freshly built credentials *)
  creds_expired : list event -> value -> bool;
  (* [Some e]: [creds.refresh(Request())] raises [e] *)
  creds_refresh : list event -> value -> option exn;
  (* the successive outcomes of [request.next_chunk()] for the upload that
     starts now; when the list runs out the server never answers again *)
  upload_chunks : list event -> list chunk_result;
  (* the directory [tempfile.TemporaryDirectory()] creates *)
  mkdtemp : list event -> string;
  (* [Some e]: this [token_ref.delete()] raises [e] and deletes nothing *)
  delete_fault : list event -> value -> option exn
}.

(** Program state: the three Firestore collections, [os.environ], the local
    file system (the set of paths that exist), the history of external calls,
    the log, and the binding of [process_queue]'s local variable
    [video_path] ([None] while it is unbound), which lives across the
    iterations of the per-item loop. *)
Record state := {
  schedules : gmap string schedule_doc;
  video_submissions : gmap string dict;
  user_tokens : gmap string dict;
  environ : gmap string string;
  files : gset string;
  trace : list event;
  logs : list (string * string);
  video_path : option string
}.

Definition set_video_submissions (v : gmap string dict) (st : state) : state :=
  {| schedules := schedules st; video_submissions := v;
     user_tokens := user_tokens st; environ := environ st; files := files st;
     trace := trace st; logs := logs st; video_path := video_path st |}.

Definition set_user_tokens (t : gmap string dict) (st : state) : state :=
  {| schedules := schedules st; video_submissions := video_submissions st;
     user_tokens := t; environ := environ st; files := files st;
     trace := trace st; logs := logs st; video_path := video_path st |}.

Definition set_files (f : gset string) (st : state) : state :=
  {| schedules := schedules st; video_submissions := video_submissions st;
     user_tokens := user_tokens st; environ := environ st; files := f;
     trace := trace st; logs := logs st; video_path := video_path st |}.

Definition record_event (ev : event) (st : state) : state :=
  {| schedules := schedules st; video_submissions := video_submissions st;
     user_tokens := user_tokens st; environ := environ st; files := files st;
     trace := trace st ++ [ev]; logs := logs st; video_path := video_path st |}.

Definition add_log (level msg : string) (st : state) : state :=
  {| schedules := schedules st; video_submissions := video_submissions st;
     user_tokens := user_tokens st; environ := environ st; files := files st;
     trace := trace st; logs := logs st ++ [(level, msg)];
     video_path := video_path st |}.

Definition set_video_path (p : option string) (st : state) : state :=
  {| schedules := schedules st; video_submissions := video_submissions st;
     user_tokens := user_tokens st; environ := environ st; files := files st;
     trace := trace st; logs := logs st; video_path := p |}.

(** ** A monad for state, exceptions and calls that never return *)

Inductive outcome (A : Type) :=
| Ret (a : A)        (* normal completion *)
| Raise (e : exn)    (* an exception propagates *)
| Hang.              (* the call never returns *)
Arguments Ret {A} a.
Arguments Raise {A} e.
Arguments Hang {A}.

Definition M (A : Type) : Type := state -> outcome A * state.

Definition ret {A} (a : A) : M A := fun st => (Ret a, st).
Definition raise {A} (e : exn) : M A := fun st => (Raise e, st).
Definition hang {A} : M A := fun st => (Hang, st).

Definition bind {A B} (m : M A) (k : A -> M B) : M B :=
  fun st =>
    match m st with
    | (Ret a, st') => k a st'
    | (Raise e, st') => (Raise e, st')
    | (Hang, st') => (Hang, st')
    end.

Declare Scope py_scope.
Delimit Scope py_scope with py.
Notation "x ← y ; z" := (bind y (fun x => z))
  (at level 20, y at level 100, z at level 200, only parsing) : py_scope.
Notation "y ;; z" := (bind y (fun _ => z))
  (at level 100, z at level 200, only parsing, right associativity) : py_scope.

(** [try: body  except Exception as e: handler(e)]. *)
Definition try_except {A} (body : M A) (handler : exn -> M A) : M A :=
  fun st =>
    match body st with
    | (Raise e, st') => handler e st'
    | r => r
    end.

(** [try: body  finally: final].  The [finally] block runs on normal and on
    exceptional exit; an exception it raises replaces the pending outcome. *)
Definition try_finally {A} (body : M A) (final : M unit) : M A :=
  fun st =>
    match body st with
    | (Hang, st') => (Hang, st')
    | (r, st') =>
        match final st' with
        | (Ret _, st'') => (r, st'')
        | (Raise e, st'') => (Raise e, st'')
        | (Hang, st'') => (Hang, st'')
        end
    end.

(** [for x in xs: body(x)]. *)
Fixpoint for_each {A} (body : A -> M unit) (xs : list A) : M unit :=
  match xs with
  | [] => ret tt
  | x :: rest => bind (body x) (fun _ => for_each body rest)
  end.

Definition log (level msg : string) : M unit :=
  fun st => (Ret tt, add_log level msg st).

(** ** Queries on the [video_submissions] collection *)

(** Firestore's order between values of different types, then by value:
    null, then timestamps, then strings. *)
Definition value_rank (v : value) : Z :=
  match v with
  | VNone => 0
  | VTime _ => 1
  | VStr _ => 2
  end.

Definition value_leb (a b : value) : bool :=
  match a, b with
  | VTime s, VTime t => (s <=? t)%Z
  | VStr s, VStr t => String.leb s t
  | _, _ => (value_rank a <=? value_rank b)%Z
  end.

(** A document snapshot: the document id and its fields. *)
Abbreviation snapshot := (string * dict)%type.

(** [.where(field, '==', v)]. *)
Definition where_eq (field : string) (v : value) (docs : list snapshot)
  : list snapshot :=
  filter (fun d : snapshot => d.2 !! field = Some v) docs.

Definition doc_le (field : string) (a b : snapshot) : Prop :=
  value_leb (dict_get a.2 field) (dict_get b.2 field) = true /\
  (value_leb (dict_get b.2 field) (dict_get a.2 field) = true ->
   String.leb a.1 b.1 = true).

#[global] Instance doc_le_dec field a b : Decision (doc_le field a b).
Proof. unfold doc_le. apply _. Defined.

(** [.order_by(field)]: ascending by the field, documents with equal
    values by document id; documents without the field are not returned by
    an ordered query. *)
Definition order_by (field : string) (docs : list snapshot) : list snapshot :=
  merge_sort (doc_le field)
    (filter (fun d : snapshot => is_Some (d.2 !! field)) docs).

(** [.limit(n)]. *)
Definition limit (n : nat) (docs : list snapshot) : list snapshot :=
  take n docs.

(** The query built for one user in [process_queue], evaluated by [.get()]. *)
Definition user_video_query (videos : gmap string dict) (uid : value)
  : list snapshot :=
  limit 1
    (order_by "submittedAt"
       (where_eq "uid" uid
          (where_eq "status" (VStr "queued") (map_to_list videos)))).

(** The selection loop: [for uid in users: videos_to_process.extend(...)]. *)
Fixpoint select_videos (videos : gmap string dict) (users : list value)
    (videos_to_process : list snapshot) : list snapshot :=
  match users with
  | [] => videos_to_process
  | uid :: rest =>
      select_videos videos rest
        (videos_to_process ++ user_video_query videos uid)
  end.

(** The cap on the users considered in one run. *)
Definition cap_users (users : list value) : list value :=
  if decide (30 < length users)%nat then take 30 users else users.

(** ** The payloads [process_queue] writes *)

Definition processing_data : update_data :=
  list_to_map [("status", Lit (VStr "processing"));
               ("updatedAt", SERVER_TIMESTAMP)].

Definition published_data (new_video_id : value) : update_data :=
  list_to_map [("status", Lit (VStr "published"));
               ("publishedAt", SERVER_TIMESTAMP);
               ("updatedAt", SERVER_TIMESTAMP);
               ("newVideoId", Lit new_video_id)].

Definition error_data (msg : string) : update_data :=
  list_to_map [("status", Lit (VStr "error"));
               ("errorMessage", Lit (VStr msg));
               ("updatedAt", SERVER_TIMESTAMP)].

(** The request body built in [upload_to_youtube]. *)
Definition upload_body (title description : value) : video_body :=
  {| snippet_title := title;
     snippet_description := description;
     snippet_categoryId := "24";
     status_privacyStatus := "public" |}.

Definition str_of_nat (n : nat) : string := NilZero.string_of_uint (Nat.to_uint n).
Definition str_of_Z (z : Z) : string := NilZero.string_of_int (Z.to_int z).

(** [os.path.join(dir, name)] for a relative [name]. *)
Definition os_path_join (dir name : string) : string := dir ++ "/" ++ name.

(** Whether [path] lies inside directory [dir]. *)
Definition under_dir (dir path : string) : bool := String.prefix (dir ++ "/") path.

Definition token_key (uid : value) : option string :=
  match uid with
  | VStr u => Some u
  | _ => None
  end.

(** The stored credential document of a user, if there is one (a reference
    built from anything but a string names no stored document). *)
Definition stored_token (tokens : gmap string dict) (uid : value) : option dict :=
  match token_key uid with
  | Some u => tokens !! u
  | None => None
  end.

(** ** The script *)

Section Program.

Variable C : collaborators.

Local Open Scope py_scope.

(** [db.collection('video_submissions').document(id).update(data)].  The call
    raises when the store fails or when the document does not exist;
    otherwise all fields of [data] are written in one step. *)
Definition doc_update (id : string) (data : update_data) : M unit :=
  fun st =>
    let now := server_time C (trace st) in
    match update_fault C (trace st) id data with
    | Some e => (Raise e, record_event (EvUpdate id data now (Some e)) st)
    | None =>
        match video_submissions st !! id with
        | None =>
            let e := PyExc "NotFound" ("No document to update: " ++ id) in
            (Raise e, record_event (EvUpdate id data now (Some e)) st)
        | Some doc =>
            (Ret tt,
             record_event (EvUpdate id data now None)
               (set_video_submissions
                  (<[id := merge_fields now data doc]> (video_submissions st))
                  st))
        end
    end.

(** [db.collection('user_tokens').document(uid).get()]: [None] when the
    snapshot does not exist.  Reads of the store are taken to return what
    the store holds; they are not among the recorded calls. *)
Definition token_doc_get (uid : value) : M (option dict) :=
  fun st => (Ret (stored_token (user_tokens st) uid), st).

(** [token_ref.delete()]: a write to the store, which raises when the
    store fails; deleting a document that is not there is not an error. *)
Definition token_ref_delete (uid : value) : M unit :=
  fun st =>
    match delete_fault C (trace st) uid with
    | Some e => (Raise e, record_event (EvTokenDelete uid (Some e)) st)
    | None =>
        (Ret tt,
         record_event (EvTokenDelete uid None)
           match token_key uid with
           | Some u => set_user_tokens (delete u (user_tokens st)) st
           | None => st
           end)
    end.

(** [os.environ[key]]. *)
Definition os_environ (key : string) : M string :=
  fun st =>
    match environ st !! key with
    | Some v => (Ret v, st)
    | None => (Raise (PyExc "KeyError" ("'" ++ key ++ "'")), st)
    end.

(** [creds.expired]. *)
Definition expired (uid : value) : M bool :=
  fun st => (Ret (creds_expired C (trace st) uid), st).

(** [creds.refresh(Request())]. *)
Definition refresh (uid : value) : M unit :=
  fun st =>
    let r := creds_refresh C (trace st) uid in
    match r with
    | Some e => (Raise e, record_event (EvRefresh uid r) st)
    | None => (Ret tt, record_event (EvRefresh uid r) st)
    end.

Definition get_refreshed_credentials (uid : value) : M credentials :=
  token_doc ← token_doc_get uid;
  match token_doc with
  | None =>
      raise (PyExc "Exception"
               ("Refresh token missing for user " ++ str_of_value uid ++ "."))
  | Some token_data =>
      client_id ← os_environ "GOOGLE_CLIENT_ID";
      client_secret ← os_environ "GOOGLE_CLIENT_SECRET";
      let creds :=
        {| refresh_token := dict_get token_data "refreshToken";
           token_uri := "https://oauth2.googleapis.com/token";
           client_id := client_id;
           client_secret := client_secret |} in
      try_except
        (is_expired ← expired uid;
         (if is_expired && truthy (refresh_token creds)
          then refresh uid
          else ret tt);;
         ret creds)
        (fun e =>
           log "ERROR" ("Error refreshing access token for user "
                        ++ str_of_value uid ++ ": " ++ str_of_exn e);;
           if str_contains "invalid_grant" (str_of_exn e)
           then
             token_ref_delete uid;;
             raise (PyExc "Exception"
                      ("Authentication expired for user " ++ str_of_value uid
                       ++ ". Please re-authenticate."))
           else raise e)
  end.

(** The [FileNotFoundError] the operating system raises for [path]; its text
    is what [str(e)] gives. *)
Definition file_not_found (path : string) : exn :=
  PyExc "FileNotFoundError"
    ("[Errno 2] No such file or directory: '" ++ path ++ "'").

(** [os.path.exists(path)] and [os.remove(path)]. *)
Definition os_path_exists (path : string) : M bool :=
  fun st => (Ret (bool_decide (path ∈ files st)), st).

Definition os_remove (path : string) : M unit :=
  fun st =>
    if decide (path ∈ files st)
    then (Ret tt, record_event (EvRemove path) (set_files (files st ∖ {[path]}) st))
    else (Raise (file_not_found path), st).

(** [with yt_dlp.YoutubeDL(ydl_opts) as ydl: ydl.download([video_url])]. *)
Definition ydl_download_call (opts : ydl_opts) (video_url : value) : M unit :=
  fun st =>
    let '(raised, writes_file) := ydl_download C (trace st) video_url opts in
    let st1 := record_event (EvDownload video_url opts raised) st in
    let st2 := if writes_file : bool
               then set_files ({[opt_outtmpl opts]} ∪ files st1) st1
               else st1 in
    match raised with
    | Some e => (Raise e, st2)
    | None => (Ret tt, st2)
    end.

Definition download_video (video_url : value) (output_path cookies_file : string)
  : M unit :=
  let ydl_opts :=
    {| opt_format := "bestvideo+bestaudio/best";
       opt_outtmpl := output_path;
       opt_merge_output_format := "mp4";
       opt_quiet := true;
       opt_socket_timeout := 60;
       opt_cookiefile := None |} in
  has_cookies ← os_path_exists cookies_file;
  let ydl_opts :=
    if has_cookies : bool
    then {| opt_format := opt_format ydl_opts;
            opt_outtmpl := opt_outtmpl ydl_opts;
            opt_merge_output_format := opt_merge_output_format ydl_opts;
            opt_quiet := opt_quiet ydl_opts;
            opt_socket_timeout := opt_socket_timeout ydl_opts;
            opt_cookiefile := Some cookies_file |}
    else ydl_opts in
  (if has_cookies : bool
   then log "INFO" ("Using cookies file: " ++ cookies_file)
   else ret tt);;
  ydl_download_call ydl_opts video_url;;
  log "INFO" ("Video downloaded successfully to " ++ output_path).

(** [MediaFileUpload(video_path, chunksize=-1, resumable=True)] opens the
    file. *)
Definition media_file_upload (video_path : string) : M string :=
  fun st =>
    if decide (video_path ∈ files st)
    then (Ret video_path, st)
    else (Raise (file_not_found video_path), st).

(** [youtube.videos().insert(part=..., body=body, media_body=media)]; the
    request object is represented by the outcomes its [next_chunk] calls
    will have. *)
Definition videos_insert (part : string) (body : video_body) (media : string)
  : M (list chunk_result) :=
  fun st =>
    (Ret (upload_chunks C (trace st)), record_event (EvInsert part body media) st).

(** The loop [while response is None: try: ... except HttpError as e: ...]. *)
Fixpoint next_chunk_loop (request : list chunk_result) : M dict :=
  match request with
  | [] => hang
  | r :: request' =>
      (fun st => (Ret tt, record_event (EvNextChunk r) st));;
      match r with
      | ChunkReturn status response =>
          match status with
          | Some pct => log "INFO" ("Uploaded " ++ str_of_Z pct ++ "%.")
          | None => ret tt
          end;;
          match response with
          | Some resp => ret resp
          | None => next_chunk_loop request'
          end
      | ChunkRaise (HttpError status msg) =>
          if bool_decide (status ∈ [500; 502; 503; 504])
          then
            log "WARNING" ("A retriable HTTP error " ++ str_of_Z status
                           ++ " occurred: " ++ msg);;
            next_chunk_loop request'
          else raise (HttpError status msg)
      | ChunkRaise e => raise e
      end
  end.

Definition upload_to_youtube (uid : value) (video_path : string)
    (title description : value) : M value :=
  creds ← get_refreshed_credentials uid;
  let body := upload_body title description in
  media ← media_file_upload video_path;
  request ← videos_insert "snippet,status" body media;
  response ← next_chunk_loop request;
  log "INFO" ("Upload complete. New Video ID: "
              ++ str_of_value (dict_get response "id"));;
  ret (dict_get response "id").

(** Reading the local variable [video_path]; Python raises
    [UnboundLocalError] when no assignment has been executed yet. *)
Definition read_video_path : M string :=
  fun st =>
    match video_path st with
    | Some p => (Ret p, st)
    | None =>
        (Raise (PyExc "UnboundLocalError"
                  "cannot access local variable 'video_path' where it is not associated with a value"),
         st)
    end.

Definition assign_video_path (p : string) : M unit :=
  fun st => (Ret tt, set_video_path (Some p) st).

(** The three blocks of the [try/except/finally] statement inside the loop
    [for doc in videos_to_process] of [process_queue]. *)
Definition process_video_try (temp_dir : string) (doc : snapshot) : M unit :=
  let video_data := doc.2 in
  let video_id := doc.1 in
  let uid := dict_get video_data "uid" in
  let title := dict_get video_data "title" in
  let original_url := dict_get video_data "originalUrl" in
  doc_update video_id processing_data;;
  let video_path := os_path_join temp_dir (video_id ++ ".mp4") in
  assign_video_path video_path;;
  let cookies_path := "./cookies.txt" in
  download_video original_url video_path cookies_path;;
  new_video_id ←
    upload_to_youtube uid video_path title
      (dict_get_default video_data "description" (VStr ""));
  doc_update video_id (published_data new_video_id);;
  log "INFO" ("Successfully processed and published video: " ++ video_id).

Definition process_video_except (doc : snapshot) (e : exn) : M unit :=
  let video_id := doc.1 in
  log "ERROR" ("Error processing video " ++ video_id ++ ": " ++ str_of_exn e);;
  doc_update video_id (error_data (str_of_exn e)).

Definition process_video_finally : M unit :=
  video_path ← read_video_path;
  present ← os_path_exists video_path;
  if present : bool then os_remove video_path else ret tt.

(** The body of the loop. *)
Definition process_video (temp_dir : string) (doc : snapshot) : M unit :=
  let video_data := doc.2 in
  let video_id := doc.1 in
  let uid := dict_get video_data "uid" in
  let title := dict_get video_data "title" in
  log "INFO" ("Processing video: " ++ video_id ++ " for user "
              ++ str_of_value uid ++ " - '" ++ str_of_value title ++ "'");;
  try_finally
    (try_except (process_video_try temp_dir doc) (process_video_except doc))
    process_video_finally.

(** [with tempfile.TemporaryDirectory() as temp_dir: body]: the directory
    and everything below it is removed when the block is left. *)
Definition with_temporary_directory {A} (body : string -> M A) : M A :=
  temp_dir ← (fun st => (Ret (mkdtemp C (trace st)), st));
  try_finally (body temp_dir)
    (fun st =>
       (Ret tt,
        set_files (filter (fun p => under_dir temp_dir p = false) (files st)) st)).

(** [process_queue], with [now_utc = datetime.now(timezone.utc)] as input.
    Entering the function creates a frame in which [video_path] is unbound.
    The reads of the schedule and of the queue return what the store holds
    and are not among the recorded calls. *)
Definition process_queue (now_utc : datetime) : M unit :=
  (fun st => (Ret tt, set_video_path None st));;
  match current_quarter_id now_utc with
  | None => raise (PyExc "ValueError" "minute must be in 0..59")
  | Some current_quarter_id =>
      log "INFO" ("Starting queue processing for current UTC quarter: "
                  ++ current_quarter_id);;
      schedule_doc ← (fun st => (Ret (schedules st !! current_quarter_id), st));
      match schedule_doc with
      | None =>
          log "INFO" ("No schedules found for the current quarter: "
                      ++ current_quarter_id)
      | Some schedule =>
          let users := default [] (sched_users schedule) in
          match users with
          | [] => log "INFO" "No users scheduled in this time slot."
          | _ :: _ =>
              users ←
                (if decide (30 < length users)%nat
                 then
                   log "WARNING"
                     "More than 30 users scheduled. Processing only the first 30.";;
                   ret (take 30 users)
                 else ret users);
              log "INFO" ("Found " ++ str_of_nat (length users)
                          ++ " users scheduled in this quarter.");;
              videos_to_process ←
                (fun st => (Ret (select_videos (video_submissions st) users []), st));
              match videos_to_process with
              | [] => log "INFO" "No queued videos found for scheduled users."
              | _ :: _ =>
                  log "INFO" ("Processing "
                              ++ str_of_nat (length videos_to_process)
                              ++ " videos (one per user).");;
                  with_temporary_directory
                    (fun temp_dir =>
                       for_each (process_video temp_dir) videos_to_process)
              end
          end
      end
  end.

End Program.

(** ** Vocabulary for the properties *)

(** A relation between the state before and after a computation that holds
    whatever the outcome is. *)
Definition respects {A} (R : relation state) (m : M A) : Prop :=
  forall st, R st (m st).2.

(** The calls made in between all satisfy [P]. *)
Definition emits (P : event -> Prop) : relation state :=
  fun st st' => exists evs, trace st' = (trace st ++ evs)%list /\ Forall P evs.

(** A component of the state is left as it was. *)
Definition keeps {B} (f : state -> B) : relation state :=
  fun st st' => f st' = f st.

(** The log only grows. *)
Definition log_grows : relation state :=
  fun st st' => exists l, logs st' = (logs st ++ l)%list.

(** The effect one recorded call has on [video_submissions]: only an
    [update] that did not raise changes the collection. *)
Definition replay_event (vs : gmap string dict) (ev : event) : gmap string dict :=
  match ev with
  | EvUpdate id data now None =>
      match vs !! id with
      | Some doc => <[id := merge_fields now data doc]> vs
      | None => vs
      end
  | _ => vs
  end.

Definition replay (vs : gmap string dict) (evs : list event) : gmap string dict :=
  foldl replay_event vs evs.

(** The effect one recorded call has on [user_tokens]. *)
Definition replay_token_event (tokens : gmap string dict) (ev : event)
  : gmap string dict :=
  match ev with
  | EvTokenDelete uid None =>
      match token_key uid with
      | Some u => delete u tokens
      | None => tokens
      end
  | _ => tokens
  end.

Definition replay_tokens (tokens : gmap string dict) (evs : list event)
  : gmap string dict :=
  foldl replay_token_event tokens evs.

(** The two collections the script writes to are exactly what the recorded
    calls account for. *)
Definition tracks (P : event -> Prop) : relation state :=
  fun st st' =>
    exists evs, trace st' = (trace st ++ evs)%list /\ Forall P evs /\
                video_submissions st' = replay (video_submissions st) evs /\
                user_tokens st' = replay_tokens (user_tokens st) evs.

(** The three shapes of write [process_queue] issues. *)
Definition write_shape (ev : event) : Prop :=
  match ev with
  | EvUpdate _ data _ _ =>
      data = processing_data \/
      (exists new_video_id, data = published_data new_video_id) \/
      (exists msg, data = error_data msg)
  | _ => True
  end.

(** What an observer of the store may rely on: a document in status
    [published] carries a [newVideoId]. *)
Definition published_has_id (vs : gmap string dict) : Prop :=
  forall id doc,
    vs !! id = Some doc ->
    doc !! "status" = Some (VStr "published") ->
    is_Some (doc !! "newVideoId").

(** The calls an upload may make, for a given title and description. *)
Definition upload_event (title description : value) (ev : event) : Prop :=
  match ev with
  | EvRefresh _ _ | EvTokenDelete _ _ | EvNextChunk _ => True
  | EvInsert part body _ =>
      part = "snippet,status" /\ body = upload_body title description
  | _ => False
  end.

(** The calls processing the document [doc] in [temp_dir] may make. *)
Definition item_event (temp_dir : string) (doc : snapshot) (ev : event) : Prop :=
  match ev with
  | EvUpdate id data _ _ =>
      id = doc.1 /\
      (data = processing_data \/
       (exists new_video_id, data = published_data new_video_id) \/
       (exists msg, data = error_data msg))
  | EvDownload url opts _ =>
      url = dict_get doc.2 "originalUrl" /\
      opt_outtmpl opts = os_path_join temp_dir (doc.1 ++ ".mp4")
  | EvInsert part body _ =>
      part = "snippet,status" /\
      body = upload_body (dict_get doc.2 "title")
               (dict_get_default doc.2 "description" (VStr ""))
  | EvRefresh _ _ | EvTokenDelete _ _ | EvNextChunk _ | EvRemove _ => True
  end.

(** The documents a run may write to. *)
Definition writes_within (ids : list string) (ev : event) : Prop :=
  match ev with
  | EvUpdate id _ _ _ => id ∈ ids
  | _ => True
  end.

Definition is_update_of (id : string) (ev : event) : Prop :=
  match ev with
  | EvUpdate id' _ _ _ => id' = id
  | _ => False
  end.

(** ** The possible histories of one work item *)

Definition item_path (temp_dir : string) (doc : snapshot) : string :=
  os_path_join temp_dir (doc.1 ++ ".mp4").
Definition item_uid (doc : snapshot) : value := dict_get doc.2 "uid".
Definition item_url (doc : snapshot) : value := dict_get doc.2 "originalUrl".
Definition item_title (doc : snapshot) : value := dict_get doc.2 "title".
Definition item_description (doc : snapshot) : value :=
  dict_get_default doc.2 "description" (VStr "").

(** The outcome of a block that ends with a write. *)
Definition outcome_of_write (raised : option exn) : outcome unit :=
  match raised with
  | Some e => Raise e
  | None => Ret tt
  end.

(** The message raised when a stored credential is given up. *)
Definition reauth_message (uid : value) : string :=
  "Authentication expired for user " ++ str_of_value uid
  ++ ". Please re-authenticate.".

(** What [get_refreshed_credentials] raises after a refresh that was
    refused for good: the request to re-authenticate when the deletion of
    the stored credential went through, the exception of the deletion
    otherwise. *)
Definition reauth_outcome (uid : value) (raised : option exn) : exn :=
  match raised with
  | None => PyExc "Exception" (reauth_message uid)
  | Some e1 => e1
  end.

(** The calls of an upload that returned [v]. *)
Definition upload_returned (temp_dir : string) (doc : snapshot)
    (evs : list event) (v : value) : Prop :=
  exists pre mid status resp,
    evs = (pre ++ EvInsert "snippet,status"
                    (upload_body (item_title doc) (item_description doc))
                    (item_path temp_dir doc)
               :: mid ++ [EvNextChunk (ChunkReturn status (Some resp))])%list /\
    v = dict_get resp "id" /\
    Forall (fun ev => ev = EvRefresh (item_uid doc) None) pre /\
    Forall (fun ev => exists r, ev = EvNextChunk r) mid.

(** The calls of an upload that raised [e]. *)
Definition upload_raised (doc : snapshot) (evs : list event) (e : exn) : Prop :=
  Forall (upload_event (item_title doc) (item_description doc)) evs /\
  forall u e0,
    EvRefresh u (Some e0) ∈ evs ->
    u = item_uid doc /\
    if str_contains "invalid_grant" (str_of_exn e0)
    then is_Some (token_key u) /\
         exists raised,
           evs = [EvRefresh u (Some e0); EvTokenDelete u raised] /\
           e = reauth_outcome u raised
    else e = e0 /\ evs = [EvRefresh u (Some e0)].

(** The histories of the [try] and [except] blocks for one document,
    together with the outcome they leave for the [finally] block. *)
Inductive attempt_shape (temp_dir : string) (doc : snapshot)
  : list event -> outcome unit -> Prop :=
| shape_write_failed e n0 n1 r1 :
    attempt_shape temp_dir doc
      [EvUpdate doc.1 processing_data n0 (Some e);
       EvUpdate doc.1 (error_data (str_of_exn e)) n1 r1]
      (outcome_of_write r1)
| shape_fetch_failed n0 opts e n1 r1 :
    opt_outtmpl opts = item_path temp_dir doc ->
    attempt_shape temp_dir doc
      [EvUpdate doc.1 processing_data n0 None;
       EvDownload (item_url doc) opts (Some e);
       EvUpdate doc.1 (error_data (str_of_exn e)) n1 r1]
      (outcome_of_write r1)
| shape_upload_failed n0 opts evs_up e n1 r1 :
    opt_outtmpl opts = item_path temp_dir doc ->
    upload_raised doc evs_up e ->
    attempt_shape temp_dir doc
      ([EvUpdate doc.1 processing_data n0 None;
        EvDownload (item_url doc) opts None]
       ++ evs_up ++ [EvUpdate doc.1 (error_data (str_of_exn e)) n1 r1])%list
      (outcome_of_write r1)
| shape_upload_hangs n0 opts evs_up :
    opt_outtmpl opts = item_path temp_dir doc ->
    Forall (upload_event (item_title doc) (item_description doc)) evs_up ->
    (forall u e, EvRefresh u (Some e) ∉ evs_up) ->
    attempt_shape temp_dir doc
      ([EvUpdate doc.1 processing_data n0 None;
        EvDownload (item_url doc) opts None] ++ evs_up)%list
      Hang
| shape_publish_write_failed n0 opts evs_up v n2 e n1 r1 :
    opt_outtmpl opts = item_path temp_dir doc ->
    upload_returned temp_dir doc evs_up v ->
    attempt_shape temp_dir doc
      ([EvUpdate doc.1 processing_data n0 None;
        EvDownload (item_url doc) opts None]
       ++ evs_up
       ++ [EvUpdate doc.1 (published_data v) n2 (Some e);
           EvUpdate doc.1 (error_data (str_of_exn e)) n1 r1])%list
      (outcome_of_write r1)
| shape_published n0 opts evs_up v n2 :
    opt_outtmpl opts = item_path temp_dir doc ->
    upload_returned temp_dir doc evs_up v ->
    attempt_shape temp_dir doc
      ([EvUpdate doc.1 processing_data n0 None;
        EvDownload (item_url doc) opts None]
       ++ evs_up ++ [EvUpdate doc.1 (published_data v) n2 None])%list
      (Ret tt).

(** The calls the [finally] block may add. *)
Definition cleanup_tail (tail : list event) : Prop :=
  tail = [] \/ exists p, tail = [EvRemove p].

(** The value of [video_path] when the [finally] block starts. *)
Definition path_at_cleanup (temp_dir : string) (doc : snapshot)
    (evs : list event) (st : state) : option string :=
  match evs with
  | EvUpdate _ _ _ None :: _ => Some (item_path temp_dir doc)
  | _ => video_path st
  end.


(** Calls that are not successful writes leave the collection alone. *)
Definition no_write (ev : event) : Prop :=
  match ev with
  | EvUpdate _ _ _ None => False
  | _ => True
  end.


(** A write that did not raise was made to a document of the collection. *)
Definition written_exists (vs : gmap string dict) (ev : event) : Prop :=
  match ev with
  | EvUpdate id _ _ None => is_Some (vs !! id)
  | _ => True
  end.

(** Writes go to documents that were there from the start, and no document
    is created or deleted. *)
Definition writes_existing : relation state :=
  fun st st' =>
    exists evs, trace st' = (trace st ++ evs)%list /\
                Forall (written_exists (video_submissions st)) evs /\
                dom (video_submissions st') = dom (video_submissions st).

(** How the first write of an item relates to the store it is sent to:
    it raises when the store fails or the document is missing. *)
Definition first_write (C : collaborators) (st : state) (doc : snapshot)
    (evs : list event) : Prop :=
  match evs with
  | EvUpdate _ _ n0 raised :: _ =>
      n0 = server_time C (trace st) /\
      match raised with
      | Some e =>
          update_fault C (trace st) doc.1 processing_data = Some e \/
          (update_fault C (trace st) doc.1 processing_data = None /\
           video_submissions st !! doc.1 = None)
      | None =>
          update_fault C (trace st) doc.1 processing_data = None /\
          is_Some (video_submissions st !! doc.1)
      end
  | _ => True
  end.

(** A failed error write: the only way the [except] block raises. *)
Definition error_write_raised (ev : event) : Prop :=
  match ev with
  | EvUpdate _ data _ (Some _) => exists msg, data = error_data msg
  | _ => False
  end.

(** The cleanup of an item finds [video_path] bound when an earlier
    iteration has bound it, or when the history that starts here does not
    begin with a write that raised. *)
Definition cleanup_ready (st : state) (evs : list event) : Prop :=
  is_Some (video_path st) \/
  forall id data n e rest, evs <> EvUpdate id data n (Some e) :: rest.

(** ** Concrete runs *)

(** A queued submission. *)
Definition queued_video (uid title : string) (submitted : Z) : dict :=
  list_to_map [("uid", VStr uid); ("status", VStr "queued");
               ("title", VStr title);
               ("originalUrl", VStr ("https://video.example/" ++ title));
               ("submittedAt", VTime submitted)].

(** Two users in the 13:00 slot; alice has two queued videos, bob one. *)
Definition st_two_users : state :=
  {| schedules :=
       {[ "13_00" := {| sched_users := Some [VStr "alice"; VStr "bob"] |} ]};
     video_submissions :=
       list_to_map [("vidA", queued_video "alice" "late" 10);
                    ("vidA2", queued_video "alice" "early" 5);
                    ("vidB", queued_video "bob" "other" 20)];
     user_tokens :=
       list_to_map [("alice", {[ "refreshToken" := VStr "rt-alice" ]});
                    ("bob", {[ "refreshToken" := VStr "rt-bob" ]})];
     environ := list_to_map [("GOOGLE_CLIENT_ID", "client-id");
                             ("GOOGLE_CLIENT_SECRET", "client-secret")];
     files := ∅;
     trace := [];
     logs := [];
     video_path := None |}.

(** The same store seen from inside the loop, after an earlier iteration
    has bound [video_path]. *)
Definition st_in_loop : state := set_video_path (Some "/tmp/run/vid0.mp4") st_two_users.

Definition doc_A2 : snapshot := ("vidA2", queued_video "alice" "early" 5).
Definition doc_B : snapshot := ("vidB", queued_video "bob" "other" 20).

(** Collaborators whose store, downloader and refresher behave as given;
    an upload answers after one chunk. *)
Definition collaborators_with
    (fault : list event -> string -> update_data -> option exn)
    (download : option exn * bool) (refresh_raises : option exn)
  : collaborators :=
  {| server_time := fun tr => 1000 + Z.of_nat (length tr);
     update_fault := fault;
     ydl_download := fun _ _ _ => download;
     creds_expired := fun _ _ => true;
     creds_refresh := fun _ _ => refresh_raises;
     upload_chunks :=
       fun _ => [ChunkReturn (Some 50) None;
                 ChunkReturn None (Some {[ "id" := VStr "yt-1" ]})];
     mkdtemp := fun _ => "/tmp/run";
     delete_fault := fun _ _ => None |}.

Definition store_down : exn := PyExc "ServiceUnavailable" "503 The service is unavailable".
Definition fetch_error : exn := PyExc "DownloadError" "ERROR: Unsupported URL".
Definition invalid_grant_error : exn :=
  PyExc "RefreshError" "('invalid_grant: Token has been expired or revoked.', {})".
Definition timeout_error : exn := PyExc "TransportError" "connection timed out".

(** Everything works. *)
Definition all_fine : collaborators :=
  collaborators_with (fun _ _ _ => None) (None, true) None.

(** The very first call to the store fails. *)
Definition first_write_fails : collaborators :=
  collaborators_with
    (fun tr _ _ => if decide (tr = []) then Some store_down else None)
    (None, true) None.

(** The write marking [vidB] processing fails. *)
Definition write_for_B_fails : collaborators :=
  collaborators_with
    (fun _ id data =>
       if decide (id = "vidB" /\ data = processing_data)
       then Some store_down else None)
    (None, true) None.

(** Downloads fail, leaving a partial file. *)
Definition fetch_fails : collaborators :=
  collaborators_with (fun _ _ _ => None) (Some fetch_error, true) None.

(** Downloads fail, and so does every write that is not the first of an
    item. *)
Definition fetch_and_error_write_fail : collaborators :=
  collaborators_with
    (fun _ _ data =>
       if decide (data = processing_data) then None else Some store_down)
    (Some fetch_error, true) None.

(** The refresh is refused for good. *)
Definition refresh_refused : collaborators :=
  collaborators_with (fun _ _ _ => None) (None, true) (Some invalid_grant_error).

(** The refresh is refused for good, and the store then fails the deletion
    of the credential. *)
Definition refresh_refused_delete_fails : collaborators :=
  {| server_time := server_time refresh_refused;
     update_fault := update_fault refresh_refused;
     ydl_download := ydl_download refresh_refused;
     creds_expired := creds_expired refresh_refused;
     creds_refresh := creds_refresh refresh_refused;
     upload_chunks := upload_chunks refresh_refused;
     mkdtemp := mkdtemp refresh_refused;
     delete_fault := fun _ _ => Some store_down |}.

(** The refresh fails for a passing reason. *)
Definition refresh_times_out : collaborators :=
  collaborators_with (fun _ _ _ => None) (None, true) (Some timeout_error).

(** The status a document of the collection currently has. *)
Definition status_of (st : state) (id : string) : option value :=
  match video_submissions st !! id with
  | Some doc => doc !! "status"
  | None => None
  end.

(** The documents a history wrote to or tried to write to. *)
Definition touched (evs : list event) : list string :=
  omap (fun ev => match ev with
                  | EvUpdate id _ _ _ => Some id
                  | _ => None
                  end) evs.

(* Whether an event is a store write that raised. *)
Definition update_raised (ev : event) : bool :=
  match ev with
  | EvUpdate _ _ _ (Some _) => true
  | _ => false
  end.

(** ** Vocabulary for the single functions *)

(** The options [download_video] passes to the downloader. *)
Definition download_opts (output_path : string) (cookiefile : option string)
  : ydl_opts :=
  {| opt_format := "bestvideo+bestaudio/best";
     opt_outtmpl := output_path;
     opt_merge_output_format := "mp4";
     opt_quiet := true;
     opt_socket_timeout := 60;
     opt_cookiefile := cookiefile |}.

(** The outcomes of [next_chunk] after which the upload loop asks again:
    a chunk accepted without a final response, and the four retriable HTTP
    errors. *)
Definition asks_again (r : chunk_result) : bool :=
  match r with
  | ChunkReturn _ None => true
  | ChunkReturn _ (Some _) => false
  | ChunkRaise (HttpError status _) => bool_decide (status ∈ [500; 502; 503; 504])
  | ChunkRaise (PyExc _ _) => false
  end.

(** What the loop logs for one outcome of [next_chunk]. *)
Definition chunk_log (r : chunk_result) : list (string * string) :=
  match r with
  | ChunkReturn (Some pct) _ => [("INFO", "Uploaded " ++ str_of_Z pct ++ "%.")]
  | ChunkReturn None _ => []
  | ChunkRaise (HttpError status msg) =>
      if bool_decide (status ∈ [500; 502; 503; 504])
      then [("WARNING", "A retriable HTTP error " ++ str_of_Z status
                        ++ " occurred: " ++ msg)]
      else []
  | ChunkRaise (PyExc _ _) => []
  end.

(** The state after the calls [rs] of [next_chunk] have been made. *)
Definition after_chunks (rs : list chunk_result) (st : state) : state :=
  {| schedules := schedules st; video_submissions := video_submissions st;
     user_tokens := user_tokens st; environ := environ st; files := files st;
     trace := trace st ++ map EvNextChunk rs;
     logs := logs st ++ concat (map chunk_log rs);
     video_path := video_path st |}.

(** Whether [get_refreshed_credentials] reaches [creds.refresh]: the user
    has a stored credential, both client settings are in the environment,
    the credentials built are expired and carry a refresh token. *)
Definition refresh_due (C : collaborators) (st : state) (uid : value) : bool :=
  match stored_token (user_tokens st) uid,
        environ st !! "GOOGLE_CLIENT_ID", environ st !! "GOOGLE_CLIENT_SECRET" with
  | Some token_data, Some _, Some _ =>
      creds_expired C (trace st) uid
      && truthy (dict_get token_data "refreshToken")
  | _, _, _ => false
  end.

(** The credentials built for a user from the stored document and the
    environment, when both are there. *)
Definition built_credentials (st : state) (uid : value) : option credentials :=
  token_data ← stored_token (user_tokens st) uid;
  id ← environ st !! "GOOGLE_CLIENT_ID";
  secret ← environ st !! "GOOGLE_CLIENT_SECRET";
  Some {| refresh_token := dict_get token_data "refreshToken";
          token_uri := "https://oauth2.googleapis.com/token";
          client_id := id;
          client_secret := secret |}.

Definition is_refresh (ev : event) : Prop :=
  match ev with
  | EvRefresh _ _ => True
  | _ => False
  end.

Definition is_insert (ev : event) : Prop :=
  match ev with
  | EvInsert _ _ _ => True
  | _ => False
  end.

Definition is_next_chunk (ev : event) : Prop :=
  match ev with
  | EvNextChunk _ => True
  | _ => False
  end.

(** The store of [st_two_users] on a machine where the client settings are
    not in the environment. *)
Definition st_without_settings : state :=
  {| schedules := schedules st_two_users;
     video_submissions := video_submissions st_two_users;
     user_tokens := user_tokens st_two_users;
     environ := ∅;
     files := ∅;
     trace := [];
     logs := [];
     video_path := None |}.

(** The fields of a submission the script writes. *)
Definition lifecycle_fields : list string :=
  ["status"; "updatedAt"; "publishedAt"; "newVideoId"; "errorMessage"].

(** The statuses the script writes. *)
Definition written_statuses : list value :=
  [VStr "processing"; VStr "published"; VStr "error"].

(** The work items a run selects for the slot [slot]: none when the slot has
    no schedule document. *)
Definition selected (st : state) (slot : string) : list snapshot :=
  match schedules st !! slot with
  | None => []
  | Some schedule =>
      select_videos (video_submissions st)
        (cap_users (default [] (sched_users schedule))) []
  end.

(** The last line an idle run logs. *)
Definition idle_message (st : state) (slot : string) : string :=
  match schedules st !! slot with
  | None => "No schedules found for the current quarter: " ++ slot
  | Some schedule =>
      match default [] (sched_users schedule) with
      | [] => "No users scheduled in this time slot."
      | _ :: _ => "No queued videos found for scheduled users."
      end
  end.

(** The documents a history marks [processing], in the order of the
    writes. *)
Definition processing_ids (evs : list event) : list string :=
  omap (fun ev => match ev with
                  | EvUpdate id data _ _ =>
                      if decide (data = processing_data) then Some id else None
                  | _ => None
                  end) evs.

(** The text of the exception raised for a user without a stored
    credential. *)
Definition missing_token_message (uid : value) : string :=
  "Refresh token missing for user " ++ str_of_value uid ++ ".".

(** The store of [st_in_loop] when no user has a stored credential. *)
Definition st_no_tokens : state := set_user_tokens ∅ st_in_loop.

(** ** Start-up and the entry point *)

(** How the process ends. *)
Inductive termination :=
| Completed              (* the script ran to its last line *)
| Exited (code : Z)      (* [sys.exit(code)] *)
| Crashed (e : exn)      (* an exception reached the top level *)
| Stuck.                 (* the process never ends *)

Section Main.

Variable C : collaborators.

(** What [json.loads], [credentials.Certificate] and
    [firebase_admin.initialize_app] do with the value of
    [FIREBASE_SERVICE_ACCOUNT_KEY]: the exception one of them raises, if
    any. *)
Variable admin_setup : string -> option exn.

Local Open Scope py_scope.

(** [initialize_firebase].  The result [Some code] stands for the
    [SystemExit] that [sys.exit(code)] raises; it is not an [Exception], so
    no handler of the script catches it. *)
Definition initialize_firebase : M (option Z) :=
  try_except
    (key ← os_environ "FIREBASE_SERVICE_ACCOUNT_KEY";
     match admin_setup key with
     | Some e => raise e
     | None => log "INFO" "Firebase Admin initialized successfully."
     end;;
     ret None)
    (fun e =>
       log "ERROR" ("Failed to initialize Firebase: " ++ str_of_exn e);;
       ret (Some 1)).

(** The [if __name__ == "__main__":] block. *)
Definition main (now_utc : datetime) : state -> termination * state :=
  fun st =>
    match initialize_firebase st with
    | (Ret (Some code), st1) => (Exited code, st1)
    | (Ret None, st1) =>
        match (process_queue C now_utc;;
               log "INFO" "Finished video queue processing script.") st1 with
        | (Ret _, st2) => (Completed, st2)
        | (Raise e, st2) => (Crashed e, st2)
        | (Hang, st2) => (Stuck, st2)
        end
    | (Raise e, st1) => (Crashed e, st1)
    | (Hang, st1) => (Stuck, st1)
    end.

(** The exception the body of [initialize_firebase] raises, if any. *)
Definition setup_failure (st : state) : option exn :=
  match environ st !! "FIREBASE_SERVICE_ACCOUNT_KEY" with
  | None => Some (PyExc "KeyError" "'FIREBASE_SERVICE_ACCOUNT_KEY'")
  | Some key => admin_setup key
  end.

End Main.

(** A queued submission of alice that carries a description, and the store
    of [st_in_loop] with it. *)
Definition described_video : dict :=
  <["description" := VStr "A note from alice"]> (queued_video "alice" "early" 5).

Definition doc_described : snapshot := ("vidA2", described_video).

Definition st_described : state :=
  set_video_submissions
    (<["vidA2" := described_video]> (video_submissions st_in_loop)) st_in_loop.

(** * Properties *)

(** ** Time-slot resolution *)

Lemma digit_val_digit_char (d : Z) :
  0 <= d < 10 -> digit_val (digit_char d) = d.
Proof.
  intros Hd.
  assert (d = 0 \/ d = 1 \/ d = 2 \/ d = 3 \/ d = 4 \/
          d = 5 \/ d = 6 \/ d = 7 \/ d = 8 \/ d = 9) as Hcases by lia.
  repeat (destruct Hcases as [-> | Hcases]; [reflexivity |]).
  subst d; reflexivity.
Qed.

Lemma pad2_read2 (n : Z) (s : string) :
  0 <= n < 100 -> read2 (pad2 n ++ s) 0 = Some n.
Proof.
  intros Hn. unfold read2, pad2. simpl.
  rewrite !digit_val_digit_char.
  - f_equal. pose proof (Z.div_mod n 10). lia.
  - apply Z.mod_pos_bound; lia.
  - split; [apply Z.div_pos; lia | apply Z.div_lt_upper_bound; lia].
Qed.

Lemma floored_minute_range (m : Z) :
  0 <= m < 60 -> 0 <= m / 15 * 15 < 60 /\ m / 15 * 15 <= m < m / 15 * 15 + 15.
Proof.
  intros Hm. pose proof (Z.div_mod m 15). pose proof (Z.mod_pos_bound m 15).
  assert (0 <= m / 15) by (apply Z.div_pos; lia). lia.
Qed.

Lemma round_to_quarter_total (t : datetime) :
  valid_time t ->
  round_to_quarter t =
    Some {| year := year t; month := month t; day := day t; hour := hour t;
            minute := minute t / 15 * 15; second := 0; microsecond := 0 |}.
Proof.
  intros (_ & Hm & _). unfold round_to_quarter, replace_msu.
  pose proof (floored_minute_range _ Hm).
  case_decide; [reflexivity | lia].
Qed.

(** Two instants of the same 15-minute window have the same hour and the
    same floored minute. *)
Lemma same_window_fields (a b : datetime) :
  valid_time a -> valid_time b -> same_window a b ->
  hour a = hour b /\ minute a / 15 = minute b / 15.
Proof.
  intros (Hha & Hma & Hsa & _) (Hhb & Hmb & Hsb & _) (_ & _ & _ & Hw).
  unfold seconds_of_day in Hw.
  pose proof (floored_minute_range _ Hma) as [_ Ha].
  pose proof (floored_minute_range _ Hmb) as [_ Hb].
  assert (Hqa : 0 <= minute a / 15 < 4)
    by (split; [apply Z.div_pos | apply Z.div_lt_upper_bound]; lia).
  assert (Hqb : 0 <= minute b / 15 < 4)
    by (split; [apply Z.div_pos | apply Z.div_lt_upper_bound]; lia).
  assert (Hwa : (3600 * hour a + 60 * minute a + second a) / 900
                = 4 * hour a + minute a / 15).
  { symmetry. apply (Z.div_unique _ _ _
      (60 * (minute a - minute a / 15 * 15) + second a)); lia. }
  assert (Hwb : (3600 * hour b + 60 * minute b + second b) / 900
                = 4 * hour b + minute b / 15).
  { symmetry. apply (Z.div_unique _ _ _
      (60 * (minute b - minute b / 15 * 15) + second b)); lia. }
  rewrite Hwa, Hwb in Hw. lia.
Qed.

(** C6: for every valid UTC timestamp the slot resolver returns (it never
    raises) the key made of the hour and of the minute floored to a multiple
    of 15, as two zero-padded two-digit fields joined by an underscore; the
    rounded timestamp has its seconds and microseconds zeroed; the two
    documented instants give 13_00 and 13_45; and the key is the same for
    every instant of the 15-minute window that contains the timestamp. *)
Theorem current_quarter_id_spec (t : datetime) :
  valid_time t ->
  (exists r, round_to_quarter t = Some r /\
             hour r = hour t /\ minute r = minute t / 15 * 15 /\
             second r = 0 /\ microsecond r = 0 /\
             year r = year t /\ month r = month t /\ day r = day t) /\
  current_quarter_id t
    = Some (pad2 (hour t) ++ "_" ++ pad2 (minute t / 15 * 15)) /\
  (forall id, current_quarter_id t = Some id ->
     String.length id = 5%nat /\ String.get 2 id = Some "_"%char /\
     read2 id 0 = Some (hour t) /\ read2 id 3 = Some (minute t / 15 * 15)) /\
  current_quarter_id t_13_07_00 = Some "13_00" /\
  current_quarter_id t_13_59_59 = Some "13_45" /\
  (forall t', valid_time t' -> same_window t t' ->
     current_quarter_id t' = current_quarter_id t).
Proof.
  intros Ht.
  pose proof (round_to_quarter_total t Ht) as Hr.
  assert (Hid : current_quarter_id t
                = Some (pad2 (hour t) ++ "_" ++ pad2 (minute t / 15 * 15))).
  { unfold current_quarter_id. rewrite Hr. reflexivity. }
  assert (Hfields : forall id, current_quarter_id t = Some id ->
            String.length id = 5%nat /\ String.get 2 id = Some "_"%char /\
            read2 id 0 = Some (hour t) /\
            read2 id 3 = Some (minute t / 15 * 15)).
  { intros id Hsome. rewrite Hid in Hsome. injection Hsome as <-.
    destruct Ht as (Hh & Hm & _).
    pose proof (floored_minute_range _ Hm) as [Hfm _].
    split; [reflexivity |]. split; [reflexivity |]. split.
    - apply pad2_read2. lia.
    - change (read2 (pad2 (minute t / 15 * 15) ++ "") 0
              = Some (minute t / 15 * 15)).
      apply pad2_read2. lia. }
  split.
  { eexists. split; [exact Hr |]. repeat split; reflexivity. }
  split; [exact Hid |]. split; [exact Hfields |].
  split; [reflexivity |]. split; [reflexivity |].
  intros t' Ht' Hw.
  destruct (same_window_fields t t' Ht Ht' Hw) as [Hhh Hmm].
  rewrite Hid. unfold current_quarter_id.
  rewrite (round_to_quarter_total t' Ht'). cbn. unfold strftime_H_M. cbn.
  rewrite <- Hhh, <- Hmm. reflexivity.
Qed.

Lemma current_quarter_id_spec_witness :
  valid_time t_13_59_59 /\
  current_quarter_id t_13_59_59
    = Some (pad2 (hour t_13_59_59) ++ "_" ++ pad2 (minute t_13_59_59 / 15 * 15)).
Proof.
  assert (Hv : valid_time t_13_59_59) by (unfold valid_time; cbn; lia).
  split; [exact Hv |].
  exact (proj1 (proj2 (current_quarter_id_spec t_13_59_59 Hv))).
Defined.

(** ** The selection of work items *)

Lemma string_leb_trans (s1 s2 s3 : string) :
  String.leb s1 s2 = true -> String.leb s2 s3 = true -> String.leb s1 s3 = true.
Proof.
  unfold String.leb. revert s2 s3.
  induction s1 as [|a s1 IH]; intros [|b s2] [|c s3]; simpl; try done.
  unfold Ascii.compare.
  destruct (N.compare_spec (N_of_ascii a) (N_of_ascii b)) as [Hab|Hab|Hab],
           (N.compare_spec (N_of_ascii b) (N_of_ascii c)) as [Hbc|Hbc|Hbc],
           (N.compare_spec (N_of_ascii a) (N_of_ascii c)) as [Hac|Hac|Hac];
    try done; try lia.
  apply IH.
Qed.

Lemma value_leb_total (a b : value) :
  value_leb a b = true \/ value_leb b a = true.
Proof.
  destruct a as [|s|t], b as [|s'|t']; simpl; auto.
  - apply String.leb_total.
  - destruct (Z.leb_spec t t'); [auto | right; apply Z.leb_le; lia].
Qed.

Lemma value_leb_trans (a b c : value) :
  value_leb a b = true -> value_leb b c = true -> value_leb a c = true.
Proof.
  destruct a as [|s|t], b as [|s'|t'], c as [|s''|t'']; simpl; try done.
  - apply string_leb_trans.
  - rewrite !Z.leb_le. lia.
Qed.

Lemma value_leb_time (s t : Z) : value_leb (VTime s) (VTime t) = true <-> s <= t.
Proof. simpl. apply Z.leb_le. Qed.

#[global] Instance doc_le_total field : Total (doc_le field).
Proof.
  intros a b. unfold doc_le.
  destruct (value_leb (dict_get a.2 field) (dict_get b.2 field)) eqn:Hab,
           (value_leb (dict_get b.2 field) (dict_get a.2 field)) eqn:Hba.
  - destruct (String.leb_total a.1 b.1); [left | right]; by split.
  - left. by split.
  - right. by split.
  - destruct (value_leb_total (dict_get a.2 field) (dict_get b.2 field));
      congruence.
Qed.

#[global] Instance doc_le_trans field : Transitive (doc_le field).
Proof.
  intros a b c [Hab Hab'] [Hbc Hbc']. split.
  - by eapply value_leb_trans.
  - intros Hca. eapply string_leb_trans.
    + apply Hab'. by eapply value_leb_trans.
    + apply Hbc'. by eapply value_leb_trans.
Qed.

(** The documents a user's query ranges over: the user's own, in status
    [queued]. *)
Lemma elem_of_candidates (videos : gmap string dict) (uid : value) (d : snapshot) :
  d ∈ where_eq "uid" uid (where_eq "status" (VStr "queued") (map_to_list videos))
  <-> videos !! d.1 = Some d.2 /\ d.2 !! "uid" = Some uid /\
      d.2 !! "status" = Some (VStr "queued").
Proof.
  unfold where_eq. rewrite !list_elem_of_filter.
  destruct d as [id doc]. rewrite elem_of_map_to_list. simpl. tauto.
Qed.

Lemma elem_of_order_by (field : string) (docs : list snapshot) (d : snapshot) :
  d ∈ order_by field docs <-> d ∈ docs /\ is_Some (d.2 !! field).
Proof.
  unfold order_by. rewrite merge_sort_Permutation, list_elem_of_filter. tauto.
Qed.

(** The head of an ordered query is below every document it returns. *)
Lemma order_by_head (field : string) (docs : list snapshot) (d : snapshot)
    (rest : list snapshot) :
  order_by field docs = d :: rest ->
  forall d', d' ∈ order_by field docs -> doc_le field d d'.
Proof.
  intros Heq d' Hin.
  pose proof (StronglySorted_merge_sort (doc_le field)
                (filter (fun d : snapshot => is_Some (d.2 !! field)) docs)) as Hs.
  fold (order_by field docs) in Hs. rewrite Heq in Hs, Hin.
  apply StronglySorted_inv in Hs as [_ Hall].
  apply elem_of_cons in Hin as [-> | Hin].
  - destruct (doc_le_total field d d) as [H | H]; exact H.
  - rewrite Forall_forall in Hall. apply Hall. exact Hin.
Qed.

Lemma user_video_query_length (videos : gmap string dict) (uid : value) :
  (length (user_video_query videos uid) <= 1)%nat.
Proof. unfold user_video_query, limit. rewrite length_take. lia. Qed.

Lemma user_video_query_elem (videos : gmap string dict) (uid : value) (d : snapshot) :
  d ∈ user_video_query videos uid ->
  videos !! d.1 = Some d.2 /\ d.2 !! "uid" = Some uid /\
  d.2 !! "status" = Some (VStr "queued") /\
  exists v, d.2 !! "submittedAt" = Some v /\
    forall id' doc' v',
      videos !! id' = Some doc' -> doc' !! "uid" = Some uid ->
      doc' !! "status" = Some (VStr "queued") ->
      doc' !! "submittedAt" = Some v' ->
      value_leb v v' = true.
Proof.
  unfold user_video_query, limit. intros Hin.
  set (cands := where_eq "uid" uid
                  (where_eq "status" (VStr "queued") (map_to_list videos))) in *.
  destruct (order_by "submittedAt" cands) as [|h rest] eqn:Hord;
    [by apply elem_of_nil in Hin |].
  simpl in Hin. rewrite take_0 in Hin. apply list_elem_of_singleton in Hin as ->.
  assert (Hh : h ∈ order_by "submittedAt" cands) by (rewrite Hord; left).
  apply elem_of_order_by in Hh as [Hc [v Hv]].
  apply elem_of_candidates in Hc as (Hst & Hu & Hq).
  repeat (split; [assumption |]).
  exists v. split; [exact Hv |].
  intros id' doc' v' Hst' Hu' Hq' Hv'.
  assert (Hin' : (id', doc') ∈ order_by "submittedAt" cands).
  { apply elem_of_order_by. split; [| simpl; rewrite Hv'; eauto].
    apply elem_of_candidates. auto. }
  pose proof (order_by_head _ _ _ _ Hord _ Hin') as Hle.
  destruct Hle as [Hle _].
  unfold dict_get in Hle. simpl in Hle. by rewrite Hv, Hv' in Hle.
Qed.

(** A user with a queued, dated document gets one selected. *)
Lemma user_video_query_nonempty (videos : gmap string dict) (uid : value)
    (id : string) (doc : dict) :
  videos !! id = Some doc -> doc !! "uid" = Some uid ->
  doc !! "status" = Some (VStr "queued") -> is_Some (doc !! "submittedAt") ->
  exists d, user_video_query videos uid = [d].
Proof.
  intros Hst Hu Hq Hv. unfold user_video_query, limit.
  assert (Hin : (id, doc) ∈ order_by "submittedAt"
            (where_eq "uid" uid
               (where_eq "status" (VStr "queued") (map_to_list videos)))).
  { apply elem_of_order_by. split; [| exact Hv]. apply elem_of_candidates. auto. }
  destruct (order_by _ _) as [|h rest]; [by apply elem_of_nil in Hin |].
  exists h. simpl. by rewrite take_0.
Qed.

(** The loop accumulates the per-user results in the order of the users. *)
Lemma select_videos_concat (videos : gmap string dict) (users : list value)
    (acc : list snapshot) :
  select_videos videos users acc
  = (acc ++ concat (map (user_video_query videos) users))%list.
Proof.
  revert acc. induction users as [|u users IH]; intros acc; simpl.
  - by rewrite app_nil_r.
  - rewrite IH. by rewrite <- app_assoc.
Qed.

Lemma elem_of_select_videos (videos : gmap string dict) (users : list value)
    (d : snapshot) :
  d ∈ select_videos videos users []
  <-> exists u, u ∈ users /\ d ∈ user_video_query videos u.
Proof.
  rewrite select_videos_concat. simpl.
  induction users as [|u users IH]; simpl.
  - split; [by intros ?%elem_of_nil | by intros (u & ?%elem_of_nil & _)].
  - rewrite elem_of_app, IH. split.
    + intros [Hd | (u' & Hu' & Hd)]; [exists u | exists u'];
        (split; [| done]); [left | by right].
    + intros (u' & Hu' & Hd). apply elem_of_cons in Hu' as [-> | Hu']; eauto.
Qed.

Lemma select_videos_length (videos : gmap string dict) (users : list value) :
  (length (select_videos videos users []) <= length users)%nat.
Proof.
  rewrite select_videos_concat. simpl.
  induction users as [|u users IH]; simpl; [lia |].
  rewrite length_app. pose proof (user_video_query_length videos u). lia.
Qed.

Lemma cap_users_take (users : list value) : cap_users users = take 30 users.
Proof.
  unfold cap_users. case_decide; [done |]. by rewrite take_ge by lia.
Qed.

Lemma filter_none {A} (P : A -> Prop) `{forall x, Decision (P x)} (l : list A) :
  (forall x, x ∈ l -> ~ P x) -> filter P l = [].
Proof.
  induction l as [|x l IH]; intros Hall; [done |].
  rewrite filter_cons_False by (apply Hall; left).
  apply IH. intros y Hy. apply Hall. by right.
Qed.

Lemma select_videos_owner_count (videos : gmap string dict) (users : list value)
    (u : value) :
  NoDup users ->
  (length (filter (fun d : snapshot => d.2 !! "uid" = Some u)
             (select_videos videos users [])) <= 1)%nat.
Proof.
  rewrite select_videos_concat. simpl.
  induction 1 as [|u' users Hnotin Hnd IH]; simpl; [lia |].
  rewrite filter_app, length_app.
  destruct (decide (u' = u)) as [-> | Hne].
  - rewrite (filter_none _ (concat _)).
    + pose proof (length_filter (fun d : snapshot => d.2 !! "uid" = Some u)
                    (user_video_query videos u)).
      pose proof (user_video_query_length videos u). simpl. lia.
    + intros d Hd Hu.
      assert (Hsel : d ∈ select_videos videos users [])
        by (rewrite select_videos_concat; exact Hd).
      apply elem_of_select_videos in Hsel as (u'' & Hu'' & Hq).
      apply user_video_query_elem in Hq as (_ & Hu2 & _).
      rewrite Hu in Hu2. injection Hu2 as ->. contradiction.
  - rewrite (filter_none _ (user_video_query videos u')).
    + simpl. exact IH.
    + intros d Hq Hu. apply user_video_query_elem in Hq as (_ & Hu2 & _).
      rewrite Hu in Hu2. injection Hu2 as ->. contradiction.
Qed.

(** C4: for every user, the query issued for that user returns at most one
    work item; a returned item is stored, owned by the user, in status
    queued, and its submittedAt is smallest among the user's queued items;
    a user without queued items contributes nothing to the selection; and
    all items of the selection owned by one user are the same item (a single
    entry when the users are pairwise distinct). *)
Theorem select_videos_one_per_user (videos : gmap string dict)
    (users : list value) (u : value) :
  (length (user_video_query videos u) <= 1)%nat /\
  (forall d, d ∈ user_video_query videos u ->
     videos !! d.1 = Some d.2 /\ d.2 !! "uid" = Some u /\
     d.2 !! "status" = Some (VStr "queued") /\
     exists v, d.2 !! "submittedAt" = Some v /\
       forall id' doc' v',
         videos !! id' = Some doc' -> doc' !! "uid" = Some u ->
         doc' !! "status" = Some (VStr "queued") ->
         doc' !! "submittedAt" = Some v' ->
         value_leb v v' = true) /\
  (forall id doc,
     videos !! id = Some doc -> doc !! "uid" = Some u ->
     doc !! "status" = Some (VStr "queued") -> is_Some (doc !! "submittedAt") ->
     exists d, user_video_query videos u = [d]) /\
  ((forall id doc, videos !! id = Some doc -> doc !! "uid" = Some u ->
                   doc !! "status" <> Some (VStr "queued")) ->
   user_video_query videos u = [] /\
   forall d, d ∈ select_videos videos (cap_users users) [] ->
             d.2 !! "uid" <> Some u) /\
  (forall x, x ∈ select_videos videos (cap_users users) [] ->
             x.2 !! "uid" = Some u ->
             u ∈ cap_users users /\ x ∈ user_video_query videos u) /\
  (forall x y, x ∈ select_videos videos (cap_users users) [] ->
               y ∈ select_videos videos (cap_users users) [] ->
               x.2 !! "uid" = Some u -> y.2 !! "uid" = Some u -> x = y) /\
  (NoDup (cap_users users) ->
   (length (filter (fun d : snapshot => d.2 !! "uid" = Some u)
              (select_videos videos (cap_users users) [])) <= 1)%nat).
Proof.
  assert (Hown : forall x, x ∈ select_videos videos (cap_users users) [] ->
             x.2 !! "uid" = Some u ->
             u ∈ cap_users users /\ x ∈ user_video_query videos u).
  { intros x Hx Hu. apply elem_of_select_videos in Hx as (u' & Hu' & Hq).
    pose proof (user_video_query_elem _ _ _ Hq) as (_ & Hu2 & _).
    rewrite Hu in Hu2. injection Hu2 as <-. auto. }
  split; [apply user_video_query_length |].
  split; [apply user_video_query_elem |].
  split; [apply user_video_query_nonempty |].
  split.
  { intros Hnone.
    assert (Hq : user_video_query videos u = []).
    { destruct (user_video_query videos u) as [|d l] eqn:Hq; [done |].
      assert (Hd : d ∈ user_video_query videos u) by (rewrite Hq; left).
      apply user_video_query_elem in Hd as (Hst & Hu & Hqd & _).
      by destruct (Hnone _ _ Hst Hu). }
    split; [exact Hq |]. intros d Hd Hu.
    destruct (Hown d Hd Hu) as [_ Hin]. rewrite Hq in Hin.
    by apply elem_of_nil in Hin. }
  split; [exact Hown |].
  split.
  { intros x y Hx Hy Hxu Hyu.
    destruct (Hown x Hx Hxu) as [_ Hxq]. destruct (Hown y Hy Hyu) as [_ Hyq].
    pose proof (user_video_query_length videos u) as Hlen.
    destruct (user_video_query videos u) as [|d [|d' l]]; simpl in Hlen.
    - by apply elem_of_nil in Hxq.
    - apply list_elem_of_singleton in Hxq, Hyq. congruence.
    - lia. }
  apply select_videos_owner_count.
Qed.

(** ** Relations every step of a computation respects *)

Section Respects.

Context (R : relation state).

Lemma respects_ret `{!PreOrder R} {A} (a : A) : respects R (ret a).
Proof. intros st. reflexivity. Qed.

Lemma respects_raise `{!PreOrder R} {A} (e : exn) : respects R (@raise A e).
Proof. intros st. reflexivity. Qed.

Lemma respects_hang `{!PreOrder R} {A} : respects R (@hang A).
Proof. intros st. reflexivity. Qed.

Lemma respects_bind `{!PreOrder R} {A B} (m : M A) (k : A -> M B) :
  respects R m -> (forall a, respects R (k a)) -> respects R (bind m k).
Proof.
  intros Hm Hk st. unfold bind. specialize (Hm st).
  destruct (m st) as [[a | e |] st1]; simpl in *; try exact Hm.
  etransitivity; [exact Hm | apply Hk].
Qed.

Lemma respects_try_except `{!PreOrder R} {A} (body : M A) (handler : exn -> M A) :
  respects R body -> (forall e, respects R (handler e)) ->
  respects R (try_except body handler).
Proof.
  intros Hb Hh st. unfold try_except. specialize (Hb st).
  destruct (body st) as [[a | e |] st1]; simpl in *; try exact Hb.
  etransitivity; [exact Hb | apply Hh].
Qed.

Lemma respects_try_finally `{!PreOrder R} {A} (body : M A) (final : M unit) :
  respects R body -> respects R final -> respects R (try_finally body final).
Proof.
  intros Hb Hf st. unfold try_finally. specialize (Hb st).
  destruct (body st) as [[a | e |] st1]; simpl in *; try exact Hb;
    specialize (Hf st1); destruct (final st1) as [[[] | e' |] st2];
    simpl in *; etransitivity; eauto.
Qed.

Lemma respects_for_each `{!PreOrder R} {A} (body : A -> M unit) (xs : list A) :
  (forall x, x ∈ xs -> respects R (body x)) -> respects R (for_each body xs).
Proof.
  induction xs as [|x xs IH]; intros Hall; simpl.
  - apply respects_ret.
  - apply respects_bind; [apply Hall; left |].
    intros _. apply IH. intros y Hy. apply Hall. by right.
Qed.

End Respects.

#[global] Instance emits_preorder P : PreOrder (emits P).
Proof.
  split.
  - intros st. exists []. split; [by rewrite app_nil_r | constructor].
  - intros st1 st2 st3 (e1 & H1 & F1) (e2 & H2 & F2). exists (e1 ++ e2)%list.
    split; [by rewrite H2, H1, app_assoc | by apply Forall_app].
Qed.

#[global] Instance keeps_preorder {B} (f : state -> B) : PreOrder (keeps f).
Proof.
  split; [by intros st | intros st1 st2 st3 H1 H2].
  unfold keeps in *. congruence.
Qed.

#[global] Instance log_grows_preorder : PreOrder log_grows.
Proof.
  split.
  - intros st. exists []. by rewrite app_nil_r.
  - intros st1 st2 st3 [l1 H1] [l2 H2]. exists (l1 ++ l2)%list.
    by rewrite H2, H1, app_assoc.
Qed.

Lemma replay_app (vs : gmap string dict) (e1 e2 : list event) :
  replay vs (e1 ++ e2) = replay (replay vs e1) e2.
Proof. apply foldl_app. Qed.

Lemma replay_tokens_app (tokens : gmap string dict) (e1 e2 : list event) :
  replay_tokens tokens (e1 ++ e2) = replay_tokens (replay_tokens tokens e1) e2.
Proof. apply foldl_app. Qed.

#[global] Instance tracks_preorder P : PreOrder (tracks P).
Proof.
  split.
  - intros st. exists []. split; [by rewrite app_nil_r |]. by repeat split.
  - intros st1 st2 st3 (e1 & H1 & F1 & V1 & T1) (e2 & H2 & F2 & V2 & T2).
    exists (e1 ++ e2)%list. split; [by rewrite H2, H1, app_assoc |].
    split; [by apply Forall_app |].
    split; [by rewrite V2, V1, replay_app |].
    by rewrite T2, T1, replay_tokens_app.
Qed.

Lemma emits_mono (P Q : event -> Prop) (st st' : state) :
  (forall ev, P ev -> Q ev) -> emits P st st' -> emits Q st st'.
Proof.
  intros HPQ (evs & Htr & Hall). exists evs. split; [done |].
  eapply Forall_impl; eauto.
Qed.

Lemma respects_mono {A} (P Q : event -> Prop) (m : M A) :
  (forall ev, P ev -> Q ev) -> respects (emits P) m -> respects (emits Q) m.
Proof. intros HPQ Hm st. eapply emits_mono; eauto. Qed.

(** A step that touches neither the trace nor the collection. *)
Lemma emits_silent P (st st' : state) : trace st' = trace st -> emits P st st'.
Proof. intros H. exists []. split; [by rewrite app_nil_r | constructor]. Qed.

Lemma emits_one P (ev : event) (st st' : state) :
  trace st' = (trace st ++ [ev])%list -> P ev -> emits P st st'.
Proof. intros H HP. exists [ev]. split; [done | by repeat constructor]. Qed.

Lemma tracks_silent P (st st' : state) :
  trace st' = trace st -> video_submissions st' = video_submissions st ->
  user_tokens st' = user_tokens st ->
  tracks P st st'.
Proof.
  intros H1 H2 H3. exists []. split; [by rewrite app_nil_r | by repeat split].
Qed.

Lemma tracks_one P (ev : event) (st st' : state) :
  trace st' = (trace st ++ [ev])%list -> P ev ->
  video_submissions st' = replay_event (video_submissions st) ev ->
  user_tokens st' = replay_token_event (user_tokens st) ev ->
  tracks P st st'.
Proof.
  intros H HP Hv Ht. exists [ev]. split; [done |].
  split; [by repeat constructor | done].
Qed.

Lemma log_grows_silent (st st' : state) : logs st' = logs st -> log_grows st st'.
Proof. intros H. exists []. by rewrite app_nil_r. Qed.

Lemma log_grows_one (entry : string * string) (st st' : state) :
  logs st' = (logs st ++ [entry])%list -> log_grows st st'.
Proof. intros H. by exists [entry]. Qed.

Lemma written_exists_dom vs vs' ev :
  dom vs' = dom vs -> written_exists vs' ev -> written_exists vs ev.
Proof.
  intros Hdom. destruct ev as [id ? ? [?|]| | | | | |]; simpl; try done.
  by rewrite <- !elem_of_dom, Hdom.
Qed.

#[global] Instance writes_existing_preorder : PreOrder writes_existing.
Proof.
  split.
  - intros st. exists []. split; [by rewrite app_nil_r | by split].
  - intros st1 st2 st3 (e1 & H1 & F1 & D1) (e2 & H2 & F2 & D2).
    exists (e1 ++ e2)%list. split; [by rewrite H2, H1, app_assoc |].
    split; [| congruence]. apply Forall_app. split; [done |].
    eapply Forall_impl; [exact F2 |]. intros ev. by apply written_exists_dom.
Qed.

Lemma writes_existing_silent (st st' : state) :
  trace st' = trace st -> video_submissions st' = video_submissions st ->
  writes_existing st st'.
Proof.
  intros H1 H2. exists []. split; [by rewrite app_nil_r |].
  split; [done | by rewrite H2].
Qed.

Lemma writes_existing_one (ev : event) (st st' : state) :
  trace st' = (trace st ++ [ev])%list ->
  written_exists (video_submissions st) ev ->
  dom (video_submissions st') = dom (video_submissions st) ->
  writes_existing st st'.
Proof. intros H1 H2 H3. exists [ev]. split; [done |]. by repeat constructor. Qed.

Lemma dom_insert_existing (vs : gmap string dict) id doc doc' :
  vs !! id = Some doc -> dom (<[id := doc']> vs) = dom vs.
Proof.
  intros H. rewrite dom_insert_L. apply subseteq_union_1_L.
  apply singleton_subseteq_l. by apply elem_of_dom_2 in H.
Qed.

(** Unfold one primitive step and split on what it inspects. *)
Ltac prim_step :=
  let st := fresh "st" in
  intros st;
  unfold log, doc_update, token_doc_get, token_ref_delete, os_environ, expired,
    refresh, os_path_exists, os_remove, ydl_download_call, media_file_upload,
    videos_insert, read_video_path, assign_video_path;
  repeat case_match; simplify_eq/=.

Ltac prim_goal :=
  match goal with
  | |- respects _ (log _ _) => idtac
  | |- respects _ (doc_update _ _ _) => idtac
  | |- respects _ (token_doc_get _) => idtac
  | |- respects _ (token_ref_delete _ _) => idtac
  | |- respects _ (os_environ _) => idtac
  | |- respects _ (expired _ _) => idtac
  | |- respects _ (refresh _ _) => idtac
  | |- respects _ (os_path_exists _) => idtac
  | |- respects _ (os_remove _) => idtac
  | |- respects _ (ydl_download_call _ _ _) => idtac
  | |- respects _ (media_file_upload _) => idtac
  | |- respects _ (videos_insert _ _ _ _) => idtac
  | |- respects _ read_video_path => idtac
  | |- respects _ (assign_video_path _) => idtac
  | |- respects _ (fun _ => _) => idtac
  end.

Ltac close_step tac :=
  first
    [ reflexivity
    | apply emits_silent; reflexivity
    | eapply emits_one; [reflexivity | tac]
    | apply tracks_silent; reflexivity
    | eapply tracks_one;
      [reflexivity | tac | simpl; by simplify_option_eq
      | simpl; by simplify_option_eq ]
    | apply log_grows_silent; reflexivity
    | eapply log_grows_one; reflexivity
    | apply writes_existing_silent; reflexivity
    | eapply writes_existing_one;
      [ reflexivity
      | simpl; eauto
      | simpl; first [reflexivity | eapply dom_insert_existing; eassumption] ] ].

(** Walk through a computation written with the combinators above; [tac]
    discharges the condition a recorded call has to meet. *)
Ltac respects_walk tac :=
  repeat first
    [ match goal with
      | |- respects ?R (ret _) => apply (respects_ret R)
      | |- respects ?R (raise _) => apply (respects_raise R)
      | |- respects ?R hang => apply (respects_hang R)
      | |- respects ?R (bind _ _) => apply (respects_bind R); [| intros ?]
      | |- respects ?R (try_except _ _) =>
          apply (respects_try_except R); [| intros ?]
      | |- respects ?R (try_finally _ _) => apply (respects_try_finally R)
      end
    | progress (cbv zeta)
    | match goal with
      | |- respects _ (match ?x with _ => _ end) => destruct x
      end
    | prim_goal; solve [prim_step; close_step tac] ].

(** ** What each function of the script may touch *)

(** The side condition on a recorded call, decided by the shape of the
    payload. *)
Ltac shape_tac :=
  simpl; repeat case_match; simpl; repeat split;
  try match goal with
      | |- processing_data = _ \/ _ => left; reflexivity
      | |- published_data _ = _ \/ _ => right; left; eexists; reflexivity
      | |- error_data _ = _ \/ _ => right; right; eexists; reflexivity
      end;
  auto.

Ltac script_walk tac :=
  repeat first
    [ progress (unfold download_video, upload_to_youtube,
                get_refreshed_credentials, process_video, process_video_try,
                process_video_except, process_video_finally,
                with_temporary_directory)
    | match goal with
      | |- respects ?R (for_each _ _) => apply (respects_for_each R); intros ? ?
      end
    | progress (respects_walk tac)
    | solve [eauto with respects] ].

Lemma next_chunk_loop_respects (R : relation state) `{!PreOrder R}
    (request : list chunk_result) :
  (forall level msg, respects R (log level msg)) ->
  (forall r, respects R (fun st => (Ret tt, record_event (EvNextChunk r) st))) ->
  respects R (next_chunk_loop request).
Proof.
  intros Hlog Hrec. induction request as [|r request IH]; simpl.
  - apply (respects_hang R).
  - apply (respects_bind R); [apply Hrec | intros _].
    destruct r as [status response | e].
    + apply (respects_bind R).
      * destruct status; [apply Hlog | apply (respects_ret R)].
      * intros _. destruct response; [apply (respects_ret R) | exact IH].
    + destruct e as [cls msg | status msg]; [apply (respects_raise R) |].
      case_match; [| apply (respects_raise R)].
      apply (respects_bind R); [apply Hlog | intros _; exact IH].
Qed.

Lemma next_chunk_loop_keeps {B} (f : state -> B) (request : list chunk_result) :
  (forall ev st, f (record_event ev st) = f st) ->
  (forall level msg st, f (add_log level msg st) = f st) ->
  respects (keeps f) (next_chunk_loop request).
Proof.
  intros Hrec Hlog. apply (next_chunk_loop_respects (keeps f)).
  - intros level msg st. unfold keeps. simpl. apply Hlog.
  - intros r st. unfold keeps. simpl. apply Hrec.
Qed.

Lemma next_chunk_loop_emits P (request : list chunk_result) :
  (forall r, P (EvNextChunk r)) -> respects (emits P) (next_chunk_loop request).
Proof.
  intros HP. apply (next_chunk_loop_respects (emits P)).
  - intros level msg st. by apply emits_silent.
  - intros r st. eapply emits_one; [reflexivity | apply HP].
Qed.

Lemma next_chunk_loop_log_grows (request : list chunk_result) :
  respects log_grows (next_chunk_loop request).
Proof.
  apply (next_chunk_loop_respects log_grows).
  - intros level msg st. by eapply log_grows_one.
  - intros r st. by apply log_grows_silent.
Qed.

Lemma next_chunk_loop_tracks P (request : list chunk_result) :
  (forall r, P (EvNextChunk r)) -> respects (tracks P) (next_chunk_loop request).
Proof.
  intros HP. apply (next_chunk_loop_respects (tracks P)).
  - intros level msg st. by apply tracks_silent.
  - intros r st.
    eapply tracks_one; [reflexivity | apply HP | reflexivity | reflexivity].
Qed.

Lemma next_chunk_loop_writes_existing (request : list chunk_result) :
  respects writes_existing (next_chunk_loop request).
Proof.
  apply (next_chunk_loop_respects writes_existing).
  - intros level msg st. by apply writes_existing_silent.
  - intros r st. by eapply writes_existing_one.
Qed.

Create HintDb respects.

#[global] Hint Resolve next_chunk_loop_log_grows : respects.
#[global] Hint Extern 1 (respects (keeps _) (next_chunk_loop _)) =>
  (apply next_chunk_loop_keeps; reflexivity) : respects.
#[global] Hint Extern 1 (respects (emits _) (next_chunk_loop _)) =>
  (apply next_chunk_loop_emits; intros; exact I) : respects.
#[global] Hint Extern 1 (respects (tracks _) (next_chunk_loop _)) =>
  (apply next_chunk_loop_tracks; intros; exact I) : respects.
#[global] Hint Resolve next_chunk_loop_writes_existing : respects.

Section Summaries.

Variable C : collaborators.

(** An upload leaves the collection, the files and [video_path] alone. *)
Lemma upload_keeps_videos uid path title description :
  respects (keeps video_submissions) (upload_to_youtube C uid path title description).
Proof. script_walk idtac. Qed.

Lemma upload_keeps_files uid path title description :
  respects (keeps files) (upload_to_youtube C uid path title description).
Proof. script_walk idtac. Qed.

Lemma upload_keeps_video_path uid path title description :
  respects (keeps video_path) (upload_to_youtube C uid path title description).
Proof. script_walk idtac. Qed.

Lemma upload_emits uid path title description :
  respects (emits (upload_event title description))
    (upload_to_youtube C uid path title description).
Proof. script_walk shape_tac. Qed.

Lemma download_keeps_videos url path cookies :
  respects (keeps video_submissions) (download_video C url path cookies).
Proof. script_walk idtac. Qed.

Lemma download_keeps_video_path url path cookies :
  respects (keeps video_path) (download_video C url path cookies).
Proof. script_walk idtac. Qed.

Lemma except_keeps_files doc e :
  respects (keeps files) (process_video_except C doc e).
Proof. script_walk idtac. Qed.

Lemma except_keeps_video_path doc e :
  respects (keeps video_path) (process_video_except C doc e).
Proof. script_walk idtac. Qed.

(** Everything done for one document concerns that document only. *)
Lemma process_video_emits temp_dir doc :
  respects (emits (item_event temp_dir doc)) (process_video C temp_dir doc).
Proof. script_walk shape_tac. Qed.

Lemma process_video_tracks temp_dir doc :
  respects (tracks write_shape) (process_video C temp_dir doc).
Proof. script_walk shape_tac. Qed.

Lemma process_video_writes_existing temp_dir doc :
  respects writes_existing (process_video C temp_dir doc).
Proof. script_walk idtac. Qed.

Lemma process_video_log_grows temp_dir doc :
  respects log_grows (process_video C temp_dir doc).
Proof. script_walk idtac. Qed.

Lemma process_queue_tracks now_utc :
  respects (tracks write_shape) (process_queue C now_utc).
Proof. unfold process_queue. script_walk shape_tac. Qed.

Lemma process_queue_writes_existing now_utc :
  respects writes_existing (process_queue C now_utc).
Proof. unfold process_queue. script_walk idtac. Qed.

Lemma process_queue_log_grows now_utc :
  respects log_grows (process_queue C now_utc).
Proof. unfold process_queue. script_walk idtac. Qed.

(** *** Case analyses of the single calls *)

Lemma doc_update_cases id data st r st' :
  doc_update C id data st = (r, st') ->
  (exists e, r = Raise e /\
     st' = record_event (EvUpdate id data (server_time C (trace st)) (Some e)) st /\
     (update_fault C (trace st) id data = Some e \/
      (update_fault C (trace st) id data = None /\
       video_submissions st !! id = None))) \/
  (exists doc, r = Ret tt /\ video_submissions st !! id = Some doc /\
     update_fault C (trace st) id data = None /\
     st' = record_event (EvUpdate id data (server_time C (trace st)) None)
             (set_video_submissions
                (<[id := merge_fields (server_time C (trace st)) data doc]>
                   (video_submissions st)) st)).
Proof.
  unfold doc_update. intros H. repeat case_match; simplify_eq; eauto 10.
Qed.

Lemma download_video_cases url path cookies st r st' :
  download_video C url path cookies st = (r, st') ->
  exists opts raised,
    opt_outtmpl opts = path /\
    trace st' = (trace st ++ [EvDownload url opts raised])%list /\
    r = match raised with Some e => Raise e | None => Ret tt end /\
    video_submissions st' = video_submissions st /\
    user_tokens st' = user_tokens st /\
    video_path st' = video_path st.
Proof.
  unfold download_video, bind, os_path_exists, ydl_download_call, log, ret.
  intros H.
  repeat (case_match; simplify_eq/=); eexists _, _; repeat split; eauto.
Qed.

Lemma finally_cases st r st' :
  process_video_finally st = (r, st') ->
  (video_path st = None /\ st' = st /\
   exists msg, r = Raise (PyExc "UnboundLocalError" msg)) \/
  (exists p, video_path st = Some p /\ r = Ret tt /\ (p ∉ files st') /\
     video_submissions st' = video_submissions st /\
     user_tokens st' = user_tokens st /\
     video_path st' = video_path st /\
     (forall q, q ∈ files st' -> q ∈ files st) /\
     (trace st' = trace st \/ trace st' = (trace st ++ [EvRemove p])%list)).
Proof.
  unfold process_video_finally, bind, read_video_path, os_path_exists,
    os_remove, ret.
  intros Hrun. destruct (video_path st) as [p|] eqn:Hp; simplify_eq/=.
  - right. exists p. destruct (decide (p ∈ files st)) as [Hin | Hnotin].
    + rewrite bool_decide_eq_true_2 in Hrun by done.
      destruct (decide (p ∈ files st)); [| contradiction].
      injection Hrun as <- <-. simpl.
      split; [done |]. split; [done |].
      split; [rewrite elem_of_difference, elem_of_singleton; tauto |].
      split; [done |]. split; [done |]. split; [done |].
      split; [by intros q [Hq _]%elem_of_difference | by right].
    + rewrite bool_decide_eq_false_2 in Hrun by done.
      injection Hrun as <- <-.
      split; [done |]. split; [done |]. split; [done |].
      split; [done |]. split; [done |]. split; [done |].
      split; [done | by left].
  - left. eauto.
Qed.

(** The four ways [get_refreshed_credentials] ends: without a refresh, after
    a refresh that worked, after one that raised for a passing reason, and
    after one that was refused for good; in the last case the deletion of
    the stored credential is requested, and may itself raise. *)
Lemma get_refreshed_credentials_cases uid st r st' :
  get_refreshed_credentials C uid st = (r, st') ->
  (trace st' = trace st /\ user_tokens st' = user_tokens st /\
   ((exists creds, r = Ret creds) \/
    (r = Raise (PyExc "Exception"
                 ("Refresh token missing for user " ++ str_of_value uid ++ "."))
     /\ stored_token (user_tokens st) uid = None) \/
    (exists key, r = Raise (PyExc "KeyError" ("'" ++ key ++ "'"))))) \/
  (trace st' = (trace st ++ [EvRefresh uid None])%list /\
   user_tokens st' = user_tokens st /\ exists creds, r = Ret creds) \/
  (exists e, trace st' = (trace st ++ [EvRefresh uid (Some e)])%list /\
     creds_refresh C (trace st) uid = Some e /\
     str_contains "invalid_grant" (str_of_exn e) = false /\
     user_tokens st' = user_tokens st /\ r = Raise e) \/
  (exists e u raised,
     trace st' = (trace st ++ [EvRefresh uid (Some e);
                               EvTokenDelete uid raised])%list /\
     creds_refresh C (trace st) uid = Some e /\
     str_contains "invalid_grant" (str_of_exn e) = true /\
     token_key uid = Some u /\ is_Some (user_tokens st !! u) /\
     delete_fault C (trace st ++ [EvRefresh uid (Some e)]) uid = raised /\
     match raised with
     | None =>
         user_tokens st' = delete u (user_tokens st) /\
         r = Raise (PyExc "Exception"
                      ("Authentication expired for user " ++ str_of_value uid
                       ++ ". Please re-authenticate."))
     | Some e1 => user_tokens st' = user_tokens st /\ r = Raise e1
     end).
Proof.
  unfold get_refreshed_credentials, bind, try_except, token_doc_get,
    stored_token, os_environ, expired, refresh, log, token_ref_delete,
    raise, ret.
  intros H. repeat (case_match; simplify_eq/=).
  all: first
    [ left; split; [reflexivity |]; split; [reflexivity |];
      first [ left; eexists; reflexivity
            | right; left; split; [reflexivity | done]
            | right; right; eexists; reflexivity ]
    | right; left; split; [reflexivity |]; split; [reflexivity |];
      eexists; reflexivity
    | right; right; left; eexists; repeat split; eauto; fail
    | right; right; right; eexists _, _, None;
      (split; [simpl; by rewrite <- app_assoc |]);
      repeat split; eauto; fail
    | right; right; right; eexists _, _, (Some _);
      (split; [simpl; by rewrite <- app_assoc |]);
      repeat split; eauto ].
Qed.

Lemma next_chunk_loop_ret request st resp st' :
  next_chunk_loop request st = (Ret resp, st') ->
  exists evs status,
    trace st' = (trace st ++ evs
                 ++ [EvNextChunk (ChunkReturn status (Some resp))])%list /\
    Forall (fun ev => exists r, ev = EvNextChunk r) evs.
Proof.
  revert st. induction request as [|r request IH]; intros st Hrun; [done |].
  simpl in Hrun. unfold bind, log, ret, raise in Hrun.
  destruct r as [status [resp' |] | e].
  - exists [], status. destruct status; simplify_eq/=; by split.
  - assert (Hrec : exists st1, next_chunk_loop request st1 = (Ret resp, st')
                     /\ trace st1 = (trace st
                          ++ [EvNextChunk (ChunkReturn status None)])%list).
    { destruct status; simpl in Hrun; eauto. }
    destruct Hrec as (st1 & Hloop & Htr).
    destruct (IH _ Hloop) as (evs & status' & Htr' & Hall).
    exists (EvNextChunk (ChunkReturn status None) :: evs), status'.
    split; [by rewrite Htr', Htr, <- app_assoc | constructor; eauto].
  - destruct e as [cls msg | code msg]; [done |].
    case_match; [| done]. simpl in Hrun.
    destruct (IH _ Hrun) as (evs & status' & Htr' & Hall).
    exists (EvNextChunk (ChunkRaise (HttpError code msg)) :: evs), status'.
    split; [by rewrite Htr'; simpl; rewrite <- app_assoc | constructor; eauto].
Qed.

(** What the rest of the state looks like after an upload. *)
Lemma upload_frame uid path title description st r st' :
  upload_to_youtube C uid path title description st = (r, st') ->
  video_submissions st' = video_submissions st /\ files st' = files st /\
  video_path st' = video_path st /\
  exists evs, trace st' = (trace st ++ evs)%list /\
              Forall (upload_event title description) evs.
Proof.
  intros Hrun.
  pose proof (upload_keeps_videos uid path title description st) as H1.
  pose proof (upload_keeps_files uid path title description st) as H2.
  pose proof (upload_keeps_video_path uid path title description st) as H3.
  pose proof (upload_emits uid path title description st) as H4.
  rewrite Hrun in H1, H2, H3, H4. auto.
Qed.

(** An upload that returns has sent the insert request and returns the
    [id] of the response to the last chunk. *)
Lemma upload_ret uid path title description st v st' :
  upload_to_youtube C uid path title description st = (Ret v, st') ->
  user_tokens st' = user_tokens st /\
  exists pre mid status resp,
    trace st' = (trace st ++ pre
                 ++ EvInsert "snippet,status" (upload_body title description) path
                 :: mid ++ [EvNextChunk (ChunkReturn status (Some resp))])%list /\
    v = dict_get resp "id" /\
    Forall (fun ev => ev = EvRefresh uid None) pre /\
    Forall (fun ev => exists r, ev = EvNextChunk r) mid.
Proof.
  unfold upload_to_youtube, bind. intros Hrun.
  destruct (get_refreshed_credentials C uid st) as [[creds | e |] st1] eqn:Hg;
    [| done | done].
  unfold media_file_upload, videos_insert, log, ret in Hrun.
  destruct (decide (path ∈ files st1)); [| done].
  destruct (next_chunk_loop _ _) as [[resp | e0 |] st2] eqn:Hloop;
    [| done | done].
  injection Hrun as <- <-.
  destruct (next_chunk_loop_ret _ _ _ _ Hloop) as (mid & status & Htr & Hmid).
  simpl in Htr.
  assert (Htok2 : user_tokens st2 = user_tokens st1).
  { pose proof (next_chunk_loop_keeps user_tokens
                  (upload_chunks C (trace st1)) (fun _ _ => eq_refl)
                  (fun _ _ _ => eq_refl)
                  (record_event (EvInsert "snippet,status"
                                   (upload_body title description) path) st1))
      as Hk.
    by rewrite Hloop in Hk. }
  apply get_refreshed_credentials_cases in Hg
    as [(Ht & Htok & _) | [(Ht & Htok & _) | [(e1 & _ & _ & _ & _ & ?)
                                             | (e2 & u & [e3|] & _ & _ & _ & _ & _ & _ & _ & ?)]]];
    [| | done | done | done].
  - split; [simpl; congruence |].
    exists [], mid, status, resp. simpl. rewrite Htr, Ht, <- app_assoc. auto.
  - split; [simpl; congruence |].
    exists [EvRefresh uid None], mid, status, resp. simpl.
    rewrite Htr, Ht, <- !app_assoc. repeat split; eauto.
Qed.

End Summaries.

(** ** Uploads *)

Section Upload.

Variable C : collaborators.

(** A refresh that raised decides the outcome of the upload. *)
Lemma upload_refresh_raised uid path title description st r st' evs u e :
  upload_to_youtube C uid path title description st = (r, st') ->
  trace st' = (trace st ++ evs)%list ->
  EvRefresh u (Some e) ∈ evs ->
  u = uid /\
  if str_contains "invalid_grant" (str_of_exn e)
  then
    exists k raised,
      token_key uid = Some k /\ is_Some (user_tokens st !! k) /\
      evs = [EvRefresh uid (Some e); EvTokenDelete uid raised] /\
      delete_fault C (trace st ++ [EvRefresh uid (Some e)]) uid = raised /\
      match raised with
      | None =>
          r = Raise (PyExc "Exception"
                       ("Authentication expired for user " ++ str_of_value uid
                        ++ ". Please re-authenticate.")) /\
          user_tokens st' = delete k (user_tokens st)
      | Some e1 => r = Raise e1 /\ user_tokens st' = user_tokens st
      end
  else
    r = Raise e /\ evs = [EvRefresh uid (Some e)] /\
    user_tokens st' = user_tokens st.
Proof.
  unfold upload_to_youtube, bind. intros Hrun Htr Hin.
  destruct (get_refreshed_credentials C uid st) as [[creds | e' |] st1] eqn:Hg.
  - (* the credentials were obtained: no refresh raised *)
    exfalso.
    assert (Hrest : exists rest, trace st' = (trace st1 ++ rest)%list /\
              Forall (fun ev => match ev with
                                | EvInsert _ _ _ | EvNextChunk _ => True
                                | _ => False
                                end) rest).
    { unfold media_file_upload, videos_insert, log, ret in Hrun.
      destruct (decide (path ∈ files st1)).
      - pose proof (next_chunk_loop_emits
                      (fun ev => match ev with
                                 | EvInsert _ _ _ | EvNextChunk _ => True
                                 | _ => False
                                 end)
                      (upload_chunks C (trace st1)) (fun _ => I)
                      (record_event (EvInsert "snippet,status"
                                       (upload_body title description) path) st1))
          as (evs' & Htr' & Hall).
        destruct (next_chunk_loop _ _) as [[resp | e' |] st2] eqn:Hloop;
          injection Hrun as <- <-; simpl in *;
          exists (EvInsert "snippet,status"
                    (upload_body title description) path :: evs');
          (split; [by rewrite Htr', <- app_assoc | by constructor]).
      - injection Hrun as <- <-. exists []. by rewrite app_nil_r. }
    destruct Hrest as (rest & Htr' & Hrest).
    apply (get_refreshed_credentials_cases C) in Hg
      as [(Ht & _) | [(Ht & _) | [(e1 & _ & _ & _ & _ & ?)
                                 | (e2 & k & [e3|] & _ & _ & _ & _ & _ & _ & _ & ?)]]];
      [| | done | done | done]; rewrite Ht, Htr in Htr'.
    + apply app_inv_head in Htr'. subst evs.
      rewrite Forall_forall in Hrest. by apply Hrest in Hin.
    + rewrite <- app_assoc in Htr'. apply app_inv_head in Htr'. subst evs.
      apply elem_of_cons in Hin as [? | Hin]; [done |].
      rewrite Forall_forall in Hrest. by apply Hrest in Hin.
  - injection Hrun as <- <-.
    apply (get_refreshed_credentials_cases C) in Hg
      as [(Ht & _) | [(_ & _ & ? & ?)
                     | [(e1 & Ht & _ & Hc & Htok & Hr)
                       | (e2 & k & raised & Ht & _ & Hc & Hk & Hsome & Hdel
                          & Hres)]]];
      [| done | |]; rewrite Ht in Htr.
    + rewrite <- (app_nil_r (trace st)) in Htr at 1.
      apply app_inv_head in Htr. subst evs. by apply elem_of_nil in Hin.
    + apply app_inv_head in Htr. subst evs.
      apply list_elem_of_singleton in Hin. injection Hin as -> ->.
      injection Hr as ->. rewrite Hc. auto.
    + apply app_inv_head in Htr. subst evs.
      apply elem_of_cons in Hin as [Hin | Hin];
        [| by apply list_elem_of_singleton in Hin].
      injection Hin as -> ->. rewrite Hc. split; [done |].
      exists k, raised. split; [done |]. split; [done |]. split; [done |].
      split; [done |].
      destruct raised as [e1|]; destruct Hres as [Htok Hr];
        injection Hr as ->; auto.
  - injection Hrun as <- <-.
    apply (get_refreshed_credentials_cases C) in Hg
      as [(_ & _ & [[? ?] | [[? _] | [? ?]]]) | [(_ & _ & ? & ?)
           | [(? & _ & _ & _ & _ & ?)
             | (? & ? & [?|] & _ & _ & _ & _ & _ & _ & _ & ?)]]];
      done.
Qed.

End Upload.

(** ** The loop body for one document *)

Section Item.

Variable C : collaborators.

Lemma download_video_files url path cookies st r st' :
  download_video C url path cookies st = (r, st') ->
  forall q, q ∈ files st' -> q ∈ files st \/ q = path.
Proof.
  unfold download_video, bind, os_path_exists, ydl_download_call, log, ret.
  intros Hrun q.
  repeat (case_match; simplify_eq/=); auto;
    rewrite elem_of_union, elem_of_singleton; tauto.
Qed.

Lemma except_cases doc e st r st' :
  process_video_except C doc e st = (r, st') ->
  exists n1 r1,
    trace st' = (trace st ++ [EvUpdate doc.1 (error_data (str_of_exn e)) n1 r1])%list /\
    r = outcome_of_write r1 /\
    files st' = files st /\ video_path st' = video_path st.
Proof.
  unfold process_video_except, bind, log. intros Hrun.
  destruct (doc_update C _ _ _) as [[[] | e' |] st1] eqn:Hw;
    apply doc_update_cases in Hw
      as [(e1 & ? & -> & _) | (d & ? & _ & _ & ->)]; simplify_eq/=;
    eexists _, _; repeat split; reflexivity.
Qed.

Lemma attempt_spec temp_dir doc st rh sth :
  try_except (process_video_try C temp_dir doc) (process_video_except C doc) st
    = (rh, sth) ->
  exists evs,
    trace sth = (trace st ++ evs)%list /\
    attempt_shape temp_dir doc evs rh /\
    (forall q, q ∈ files sth -> q ∈ files st \/ q = item_path temp_dir doc) /\
    video_path sth = match evs with
                     | EvUpdate _ _ _ None :: _ => Some (item_path temp_dir doc)
                     | _ => video_path st
                     end /\
    first_write C st doc evs.
Proof.
  unfold try_except. intros Hrun.
  destruct (process_video_try C temp_dir doc st) as [rb stb] eqn:Htry.
  unfold process_video_try, bind in Htry.
  destruct (doc_update C doc.1 processing_data st) as [r0 st_w] eqn:Hw.
  apply doc_update_cases in Hw
    as [(e0 & -> & -> & Hfault) | (d0 & -> & Hd0 & Hfault & ->)].
  - (* the first write raised *)
    injection Htry as <- <-.
    apply except_cases in Hrun as (n1 & r1 & Htr & -> & Hf & Hp).
    eexists. split; [rewrite Htr; simpl; by rewrite <- app_assoc |].
    split; [constructor |]. split; [rewrite Hf; auto |]. split; [exact Hp |].
    simpl. auto.
  - unfold assign_video_path in Htry. simpl in Htry.
    set (st_a := set_video_path _ _) in Htry.
    assert (Htr_a : trace st_a = (trace st ++ [EvUpdate doc.1 processing_data
                       (server_time C (trace st)) None])%list) by done.
    destruct (download_video C _ _ _ st_a) as [rd st_d] eqn:Hdl.
    pose proof (download_video_files _ _ _ _ _ _ Hdl) as Hf_d.
    apply download_video_cases in Hdl
      as (opts & raised & Hout & Htr_d & -> & _ & _ & Hvp_d).
    destruct raised as [e |].
    + (* the download raised *)
      injection Htry as <- <-.
      apply except_cases in Hrun as (n1 & r1 & Htr & -> & Hf & Hp).
      eexists. split; [rewrite Htr, Htr_d, Htr_a, <- !app_assoc; reflexivity |].
      split; [by constructor |].
      split; [rewrite Hf; exact Hf_d |].
      split; [by rewrite Hp, Hvp_d | simpl; eauto].
    + destruct (upload_to_youtube C _ _ _ _ st_d) as [ru st_u] eqn:Hup.
      pose proof (upload_frame C _ _ _ _ _ _ _ Hup)
        as (_ & Hf_u & Hvp_u & evs_up & Htr_u & Hall_u).
      destruct ru as [v | e |].
      * (* the upload returned *)
        pose proof (upload_ret C _ _ _ _ _ _ _ Hup)
          as (_ & pre & mid & status & resp & Htr_u' & Hv & Hpre & Hmid).
        assert (Hret : upload_returned temp_dir doc evs_up v).
        { rewrite Htr_u in Htr_u'. apply app_inv_head in Htr_u'.
          exists pre, mid, status, resp. auto. }
        destruct (doc_update C doc.1 (published_data v) st_u) as [rp st_p] eqn:Hpw.
        apply doc_update_cases in Hpw
          as [(e & -> & -> & _) | (d1 & -> & _ & _ & ->)].
        -- injection Htry as <- <-.
           apply except_cases in Hrun as (n1 & r1 & Htr & -> & Hf & Hp).
           eexists. split.
           { rewrite Htr. simpl. rewrite Htr_u, Htr_d, Htr_a, <- !app_assoc.
             reflexivity. }
           split; [by apply shape_publish_write_failed |].
           split; [rewrite Hf; simpl; rewrite Hf_u; exact Hf_d |].
           split; [| simpl; eauto]. rewrite Hp. simpl. by rewrite Hvp_u, Hvp_d.
        -- unfold log in Htry. injection Htry as <- <-. injection Hrun as <- <-.
           eexists. split.
           { simpl. rewrite Htr_u, Htr_d, Htr_a, <- !app_assoc. reflexivity. }
           split; [by apply shape_published |].
           split; [simpl; rewrite Hf_u; exact Hf_d |].
           split; [| simpl; eauto]. simpl. by rewrite Hvp_u, Hvp_d.
      * (* the upload raised *)
        injection Htry as <- <-.
        apply except_cases in Hrun as (n1 & r1 & Htr & -> & Hf & Hp).
        eexists. split.
        { rewrite Htr, Htr_u, Htr_d, Htr_a, <- !app_assoc. reflexivity. }
        split.
        { apply shape_upload_failed; [done |]. split; [done |].
          intros u e0 Hin.
          destruct (upload_refresh_raised C _ _ _ _ _ _ _ _ _ _ Hup Htr_u Hin)
            as [-> Hres].
          split; [done |].
          destruct (str_contains "invalid_grant" (str_of_exn e0)).
          - destruct Hres as (k & raised & Hk & _ & -> & _ & Hres).
            rewrite Hk. split; [eauto |]. exists raised. split; [done |].
            destruct raised as [e1|]; destruct Hres as [Hr _];
              by injection Hr as ->.
          - destruct Hres as (Hr & -> & _). by injection Hr as ->. }
        split; [rewrite Hf, Hf_u; exact Hf_d |].
        split; [by rewrite Hp, Hvp_u, Hvp_d | simpl; eauto].
      * (* the upload never returns *)
        injection Htry as <- <-. injection Hrun as <- <-.
        eexists. split; [rewrite Htr_u, Htr_d, Htr_a, <- !app_assoc; reflexivity |].
        split.
        { apply shape_upload_hangs; [done | done |]. intros u e0 Hin.
          destruct (upload_refresh_raised C _ _ _ _ _ _ _ _ _ _ Hup Htr_u Hin)
            as [_ Hres].
          destruct (str_contains "invalid_grant" (str_of_exn e0));
            [| by destruct Hres as (? & _)].
          by destruct Hres as (k & [e1|] & _ & _ & _ & _ & ? & _). }
        split; [rewrite Hf_u; exact Hf_d |].
        split; [by rewrite Hvp_u, Hvp_d | simpl; eauto].
Qed.

End Item.

Lemma try_finally_cases {A} (body : M A) (final : M unit) st r st' :
  try_finally body final st = (r, st') ->
  exists rh sth,
    body st = (rh, sth) /\
    ((rh = Hang /\ r = Hang /\ st' = sth) \/
     (rh <> Hang /\
      exists rf, final sth = (rf, st') /\
                 r = match rf with
                     | Ret _ => rh
                     | Raise e => Raise e
                     | Hang => Hang
                     end)).
Proof.
  unfold try_finally. intros Hrun.
  destruct (body st) as [rh sth]. exists rh, sth. split; [done |].
  destruct rh as [a | e |].
  - right. split; [done |]. destruct (final sth) as [[[] | e |] stf];
      injection Hrun as <- <-; eauto.
  - right. split; [done |]. destruct (final sth) as [[[] | e' |] stf];
      injection Hrun as <- <-; eauto.
  - left. by injection Hrun as <- <-.
Qed.

Section ItemRun.

Variable C : collaborators.

(** The complete history of the loop body for one document. *)
Lemma process_video_spec temp_dir doc st r st' :
  process_video C temp_dir doc st = (r, st') ->
  exists evs rh tail,
    trace st' = (trace st ++ evs ++ tail)%list /\
    attempt_shape temp_dir doc evs rh /\
    cleanup_tail tail /\
    video_submissions st' = replay (video_submissions st) (evs ++ tail) /\
    user_tokens st' = replay_tokens (user_tokens st) (evs ++ tail) /\
    video_path st' = path_at_cleanup temp_dir doc evs st /\
    first_write C st doc evs /\
    (rh = Hang -> r = Hang /\ tail = []) /\
    (rh <> Hang ->
     match path_at_cleanup temp_dir doc evs st with
     | None => tail = [] /\ exists msg, r = Raise (PyExc "UnboundLocalError" msg)
     | Some p => r = rh /\ (p ∉ files st') /\ (tail = [] \/ tail = [EvRemove p])
     end).
Proof.
  intros Hrun.
  pose proof (process_video_tracks C temp_dir doc st) as Htracks.
  rewrite Hrun in Htracks. destruct Htracks as (evs' & Htr' & _ & Hvs & Htok).
  simpl in Htr', Hvs, Htok.
  unfold process_video, bind, log in Hrun. simpl in Hrun.
  apply try_finally_cases in Hrun as (rh & sth & Hatt & Hfin).
  apply attempt_spec in Hatt as (evs & Htr & Hshape & Hfiles & Hvp & Hex).
  simpl in Htr, Hvp. fold (path_at_cleanup temp_dir doc evs st) in Hvp.
  exists evs, rh.
  assert (Hgoal : forall tail,
            trace st' = (trace st ++ evs ++ tail)%list ->
            trace st' = (trace st ++ evs ++ tail)%list /\
            attempt_shape temp_dir doc evs rh /\
            video_submissions st' = replay (video_submissions st) (evs ++ tail) /\
            user_tokens st' = replay_tokens (user_tokens st) (evs ++ tail)).
  { intros tail Heq. split; [done |]. split; [done |].
    rewrite Htr' in Heq. apply app_inv_head in Heq. by subst evs'. }
  destruct Hfin as [(-> & -> & ->) | (Hnh & rf & Hfin & ->)].
  - exists []. destruct (Hgoal []) as (? & ? & ? & ?);
      [by rewrite app_nil_r |].
    split; [done |]. split; [done |]. split; [by left |].
    split; [done |]. split; [done |].
    split; [exact Hvp |]. split; [exact Hex |].
    split; [done | intros Hne; by destruct Hne].
  - apply finally_cases in Hfin
      as [(Hnone & -> & msg & ->)
         | (p & Hsome & -> & Hnotin & _ & _ & Hkeep & _ & Htail)].
    + exists []. destruct (Hgoal []) as (? & ? & ? & ?);
        [by rewrite app_nil_r |].
      split; [done |]. split; [done |]. split; [by left |].
      split; [done |]. split; [done |].
      split; [exact Hvp |]. split; [exact Hex |]. split; [done |].
      intros _. rewrite <- Hvp, Hnone. eauto.
    + assert (Hpath : video_path st' = path_at_cleanup temp_dir doc evs st)
        by congruence.
      destruct Htail as [Htail | Htail].
      * exists []. destruct (Hgoal []) as (? & ? & ? & ?);
          [rewrite app_nil_r; congruence |].
        split; [done |]. split; [done |]. split; [by left |].
        split; [done |]. split; [done |].
        split; [exact Hpath |]. split; [exact Hex |]. split; [done |].
        intros _. rewrite <- Hvp, Hsome. auto.
      * exists [EvRemove p]. destruct (Hgoal [EvRemove p]) as (? & ? & ? & ?);
          [by rewrite Htail, Htr, <- app_assoc |].
        split; [done |]. split; [done |]. split; [right; eauto |].
        split; [done |]. split; [done |].
        split; [exact Hpath |]. split; [exact Hex |]. split; [done |].
        intros _. rewrite <- Hvp, Hsome. auto.
Qed.

End ItemRun.

(** ** Replaying a history *)

Lemma merge_fields_lookup now data doc k :
  merge_fields now data doc !! k =
    match data !! k with
    | Some w => Some (resolve now w)
    | None => doc !! k
    end.
Proof.
  unfold merge_fields. rewrite lookup_union, lookup_fmap.
  destruct (data !! k); simpl; [by destruct (doc !! k) |].
  by destruct (doc !! k).
Qed.

Lemma replay_cons vs ev evs : replay vs (ev :: evs) = replay (replay_event vs ev) evs.
Proof. reflexivity. Qed.

Lemma replay_update_ok vs id data now doc :
  vs !! id = Some doc ->
  replay_event vs (EvUpdate id data now None) = <[id := merge_fields now data doc]> vs.
Proof. intros H. simpl. by rewrite H. Qed.

Lemma replay_no_write vs evs : Forall no_write evs -> replay vs evs = vs.
Proof.
  intros Hall. revert vs. induction Hall as [|ev evs Hev _ IH]; intros vs; [done |].
  rewrite replay_cons, IH. by destruct ev as [? ? ? [?|]| | | | | |].
Qed.

Lemma upload_event_no_write title description evs :
  Forall (upload_event title description) evs -> Forall no_write evs.
Proof.
  intros Hall. eapply Forall_impl; [exact Hall |].
  by intros [? ? ? [?|]| | | | | |].
Qed.

Lemma upload_returned_events temp_dir doc evs v :
  upload_returned temp_dir doc evs v ->
  Forall (upload_event (item_title doc) (item_description doc)) evs.
Proof.
  intros (pre & mid & status & resp & -> & _ & Hpre & Hmid).
  apply Forall_app. split.
  - eapply Forall_impl; [exact Hpre |]. by intros ev ->.
  - constructor; [done |]. apply Forall_app. split.
    + eapply Forall_impl; [exact Hmid |]. by intros ev [r ->].
    + by repeat constructor.
Qed.

Lemma cleanup_tail_no_write tail : cleanup_tail tail -> Forall no_write tail.
Proof. intros [-> | [p ->]]; by repeat constructor. Qed.

(** The three payloads are pairwise distinct. *)
Lemma processing_ne_error msg : processing_data <> error_data msg.
Proof. intros H. by apply (f_equal (fun d => d !! "status")) in H. Qed.

Lemma processing_ne_published v : processing_data <> published_data v.
Proof. intros H. by apply (f_equal (fun d => d !! "status")) in H. Qed.

Lemma published_ne_error v msg : published_data v <> error_data msg.
Proof. intros H. by apply (f_equal (fun d => d !! "status")) in H. Qed.

Lemma error_data_inj m1 m2 : error_data m1 = error_data m2 -> m1 = m2.
Proof.
  intros H. apply (f_equal (fun d => d !! "errorMessage")) in H.
  by injection H.
Qed.

Lemma published_data_inj v1 v2 : published_data v1 = published_data v2 -> v1 = v2.
Proof.
  intros H. apply (f_equal (fun d => d !! "newVideoId")) in H.
  by injection H.
Qed.
(** ** Reading a history *)

Lemma cleanup_tail_elem tail ev :
  cleanup_tail tail -> ev ∈ tail -> exists p, ev = EvRemove p.
Proof.
  intros [-> | [p ->]] Hin; [by apply elem_of_nil in Hin |].
  apply list_elem_of_singleton in Hin. eauto.
Qed.

Lemma upload_returned_elem temp_dir doc evs v ev :
  upload_returned temp_dir doc evs v -> ev ∈ evs ->
  upload_event (item_title doc) (item_description doc) ev.
Proof.
  intros Hret Hin. apply upload_returned_events in Hret.
  rewrite Forall_forall in Hret. auto.
Qed.

Lemma EvUpdate_inj id data n raised id' data' n' raised' :
  EvUpdate id data n raised = EvUpdate id' data' n' raised' ->
  id = id' /\ data = data' /\ n = n' /\ raised = raised'.
Proof. intros H. by injection H. Qed.

Ltac mem_split H :=
  repeat first
    [ apply elem_of_app in H as [H | H]
    | apply elem_of_cons in H as [H | H]
    | apply elem_of_nil in H; destruct H ].

(** Membership facts that cannot hold in a history of one item. *)
Ltac mem_absurd :=
  solve
    [ discriminate
    | match goal with
      | H : EvUpdate _ ?d1 _ _ = EvUpdate _ ?d2 _ _ |- _ =>
          apply EvUpdate_inj in H as (? & ? & ? & ?);
          first [ discriminate
                | by eapply processing_ne_error
                | by eapply processing_ne_published
                | by eapply published_ne_error
                | exfalso; eapply processing_ne_error; eauto; fail
                | exfalso; eapply processing_ne_published; eauto; fail
                | exfalso; eapply published_ne_error; eauto; fail ]
      | H : ?ev ∈ ?tail, Ht : cleanup_tail ?tail |- _ =>
          destruct (cleanup_tail_elem _ _ Ht H) as [? ?]; discriminate
      | H : ?ev ∈ ?evs, Hall : Forall (upload_event _ _) ?evs |- _ =>
          rewrite Forall_forall in Hall; apply Hall in H; by simpl in H
      | H : ?ev ∈ ?evs, Hall : upload_raised _ ?evs _ |- _ =>
          destruct Hall as [Hall _];
          rewrite Forall_forall in Hall; apply Hall in H; by simpl in H
      | H : ?ev ∈ ?evs, Hret : upload_returned _ _ ?evs _ |- _ =>
          apply (upload_returned_elem _ _ _ _ _ Hret) in H; by simpl in H
      end ].

Lemma outcome_hang_dec {A} (o : outcome A) : o = Hang \/ o <> Hang.
Proof. destruct o; auto. Qed.

Lemma outcome_of_write_not_hang r1 : outcome_of_write r1 <> Hang.
Proof. by destruct r1. Qed.

Lemma replay_tail vs evs tail :
  cleanup_tail tail -> replay vs (evs ++ tail) = replay vs evs.
Proof.
  intros Htail. rewrite replay_app.
  by apply replay_no_write, cleanup_tail_no_write.
Qed.

(** ** A failed download *)

Section Fetch.

Variable C : collaborators.

(** C2 (amended): when the transition to processing succeeded, the temporary
    payload path of the item does not exist once its processing is over,
    whatever the exit path; and when moreover the Fetch step raised, a write
    marking the item error with the text of the exception is issued, the
    outcome of the processing is the outcome of that write, and the item
    ends in status error with that errorMessage when the write succeeds (in
    status processing when the write itself raises). *)
Theorem fetch_failure_marks_error temp_dir doc st r st' evs n0 :
  process_video C temp_dir doc st = (r, st') ->
  trace st' = (trace st ++ evs)%list ->
  EvUpdate doc.1 processing_data n0 None ∈ evs ->
  (r <> Hang -> item_path temp_dir doc ∉ files st') /\
  forall opts e,
    EvDownload (item_url doc) opts (Some e) ∈ evs ->
    (item_path temp_dir doc ∉ files st') /\
    exists n1 r1,
      EvUpdate doc.1 (error_data (str_of_exn e)) n1 r1 ∈ evs /\
      r = outcome_of_write r1 /\
      exists d,
        video_submissions st' !! doc.1 = Some d /\
        match r1 with
        | None =>
            d !! "status" = Some (VStr "error") /\
            d !! "errorMessage" = Some (VStr (str_of_exn e)) /\
            d !! "updatedAt" = Some (VTime n1)
        | Some _ => d !! "status" = Some (VStr "processing")
        end.
Proof.
  intros Hrun Htr Hfirst.
  apply process_video_spec in Hrun
    as (evs0 & rh & tail & Htr0 & Hshape & Htail & Hvs & _ & _ & Hex & Hhang & Hfin).
  rewrite Htr in Htr0. apply app_inv_head in Htr0. subst evs.
  assert (Hclean : forall n rest, evs0 = EvUpdate doc.1 processing_data n None :: rest ->
            r <> Hang -> r = rh /\ item_path temp_dir doc ∉ files st').
  { intros n rest -> Hr. destruct (outcome_hang_dec rh) as [Hh | Hnh].
    - by destruct (Hhang Hh).
    - apply Hfin in Hnh. simpl in Hnh. tauto. }
  inversion Hshape; subst evs0 rh.
  1: exfalso; mem_split Hfirst; mem_absurd.
  all: split; [intros Hr; by eapply Hclean |].
  all: intros opts0 e0 Hd; mem_split Hd; try mem_absurd.
  injection Hd as -> ->.
  assert (Hr : r <> Hang).
  { intros ->. destruct (Hfin (outcome_of_write_not_hang _)) as [Hr _].
    by destruct r1. }
  destruct (Hclean _ _ eq_refl Hr) as [-> Hfiles].
  split; [exact Hfiles |]. exists n2, r1.
  split; [apply elem_of_app; left; do 2 right; left |]. split; [done |].
  destruct Hex as (_ & _ & d0 & Hd0).
  rewrite replay_tail in Hvs by done.
  rewrite !replay_cons, (replay_update_ok _ _ _ _ _ Hd0) in Hvs.
  simpl replay_event at 2 in Hvs.
  destruct r1 as [e1 |].
  - simpl in Hvs. eexists. split; [rewrite Hvs; apply lookup_insert_eq |].
    by rewrite merge_fields_lookup.
  - rewrite (replay_update_ok _ _ _ _ (merge_fields n1 processing_data d0)) in Hvs
      by apply lookup_insert_eq.
    simpl in Hvs. eexists. split; [rewrite Hvs; apply lookup_insert_eq |].
    by rewrite !merge_fields_lookup.
Qed.

End Fetch.

(** ** A failed first write *)

Section FirstWrite.

Variable C : collaborators.

(** A write that did not raise found its document in the collection. *)
Lemma successful_write_exists temp_dir doc st r st' evs id data n :
  process_video C temp_dir doc st = (r, st') ->
  trace st' = (trace st ++ evs)%list ->
  EvUpdate id data n None ∈ evs ->
  is_Some (video_submissions st !! id).
Proof.
  intros Hrun Htr Hin.
  pose proof (process_video_writes_existing C temp_dir doc st) as (evs' & Htr' & Hall & _).
  rewrite Hrun in Htr'. simpl in Htr'. rewrite Htr in Htr'.
  apply app_inv_head in Htr'. subst evs'.
  rewrite Forall_forall in Hall. by apply Hall in Hin.
Qed.

(** C3 (amended): when the store fails the initial write that marks an item
    processing, the Fetch and Publish steps are skipped for that item and
    the failure is routed to the error path: exactly one further write is
    issued for the item, marking it error with the text of the failure as
    errorMessage; when that write succeeds the item is in status error, and
    when it raises the collection is as it was. *)
Theorem processing_write_failure_routes_to_error temp_dir doc st r st' e0 :
  update_fault C (trace st) doc.1 processing_data = Some e0 ->
  process_video C temp_dir doc st = (r, st') ->
  exists n0 n1 r1 tail,
    trace st' =
      (trace st
       ++ [EvUpdate doc.1 processing_data n0 (Some e0);
           EvUpdate doc.1 (error_data (str_of_exn e0)) n1 r1]
       ++ tail)%list /\
    cleanup_tail tail /\
    match r1 with
    | None =>
        exists d, video_submissions st' !! doc.1 = Some d /\
                  d !! "status" = Some (VStr "error") /\
                  d !! "errorMessage" = Some (VStr (str_of_exn e0))
    | Some _ => video_submissions st' = video_submissions st
    end.
Proof.
  intros Hfault Hrun.
  pose proof Hrun as Hspec.
  apply process_video_spec in Hspec
    as (evs0 & rh & tail & Htr & Hshape & Htail & Hvs & _ & _ & Hfirst & _).
  inversion Hshape; subst evs0 rh; simpl in Hfirst;
    try (destruct Hfirst as (_ & Hnone & _); congruence).
  destruct Hfirst as (_ & [Hsome | [Hnone _]]); [| congruence].
  assert (e = e0) as -> by congruence.
  exists n0, n1, r1, tail. split; [exact Htr |]. split; [exact Htail |].
  rewrite replay_tail in Hvs by done. simpl in Hvs.
  destruct r1 as [e1 |]; [exact Hvs |].
  assert (Hex : is_Some (video_submissions st !! doc.1)).
  { eapply successful_write_exists; [exact Hrun | exact Htr |].
    apply elem_of_app. left. right. left. }
  destruct Hex as [d0 Hd0]. rewrite Hd0 in Hvs.
  eexists. split; [rewrite Hvs; apply lookup_insert_eq |].
  by rewrite !merge_fields_lookup.
Qed.

End FirstWrite.

Lemma replay_tokens_no_delete tokens evs :
  Forall (fun ev => forall u, ev <> EvTokenDelete u None) evs ->
  replay_tokens tokens evs = tokens.
Proof.
  intros Hall. revert tokens.
  induction Hall as [|ev evs Hev _ IH]; intros tokens; [done |].
  change (replay_tokens tokens (ev :: evs))
    with (replay_tokens (replay_token_event tokens ev) evs).
  rewrite IH. destruct ev as [| uid [e|] | | | | |]; try done.
  by destruct (Hev uid).
Qed.

(** ** Credentials *)

Section Credentials.

Variable C : collaborators.

(** C9: the credential-refresh operation changes the credential store only
    by deleting the user's document, and only after a refresh that raised an
    error whose text contains invalid_grant; when the stored token document
    is absent, or when the refresh raises another (transient) error, it
    raises and leaves the store as it was. *)
Theorem credential_deleted_only_on_invalid_grant uid st r st' :
  get_refreshed_credentials C uid st = (r, st') ->
  (user_tokens st' = user_tokens st \/
   exists e u,
     creds_refresh C (trace st) uid = Some e /\
     str_contains "invalid_grant" (str_of_exn e) = true /\
     token_key uid = Some u /\
     user_tokens st' = delete u (user_tokens st)) /\
  (stored_token (user_tokens st) uid = None ->
   r = Raise (PyExc "Exception"
                ("Refresh token missing for user " ++ str_of_value uid ++ "."))
   /\ user_tokens st' = user_tokens st /\ trace st' = trace st) /\
  (forall evs e,
     trace st' = (trace st ++ evs)%list ->
     EvRefresh uid (Some e) ∈ evs ->
     str_contains "invalid_grant" (str_of_exn e) = false ->
     r = Raise e /\ user_tokens st' = user_tokens st) /\
  (forall creds, r = Ret creds -> user_tokens st' = user_tokens st) /\
  r <> Hang.
Proof.
  intros Hrun. pose proof Hrun as Hcases.
  apply get_refreshed_credentials_cases in Hcases
    as [(Ht & Htok & Hr) | [(Ht & Htok & creds & ->)
       | [(e1 & Ht & Hc & Hs & Htok & ->)
         | (e2 & u & raised & Ht & Hc & Hs & Hk & Hsome & _ & Hres)]]].
  - split; [by left |]. split.
    { intros Hnone. split; [| done].
      unfold get_refreshed_credentials, bind, token_doc_get in Hrun.
      rewrite Hnone in Hrun. by injection Hrun as <- _. }
    split.
    { intros evs e Htr Hin. rewrite Ht in Htr.
      rewrite <- (app_nil_r (trace st)) in Htr at 1.
      apply app_inv_head in Htr. subst evs. by apply elem_of_nil in Hin. }
    split; [done |]. by destruct Hr as [[? ->] | [[-> _] | [? ->]]].
  - split; [by left |]. split.
    { intros Hnone.
      unfold get_refreshed_credentials, bind, token_doc_get in Hrun.
      rewrite Hnone in Hrun. by injection Hrun as ? _. }
    split; [| done].
    intros evs e Htr Hin. rewrite Ht in Htr. apply app_inv_head in Htr.
    subst evs. by apply list_elem_of_singleton in Hin.
  - split; [by left |]. split.
    { intros Hnone.
      unfold get_refreshed_credentials, bind, token_doc_get in Hrun.
      rewrite Hnone in Hrun. injection Hrun as _ Hst. subst st'.
      rewrite <- (app_nil_r (trace st)) in Ht at 1.
      by apply app_inv_head in Ht. }
    split; [| done].
    intros evs e Htr Hin _. rewrite Ht in Htr. apply app_inv_head in Htr.
    subst evs. apply list_elem_of_singleton in Hin. by injection Hin as ->.
  - split.
    { destruct raised as [e3|]; destruct Hres as [Htok _];
        [by left | right; eauto 10]. }
    split.
    { intros Hnone. unfold stored_token in Hnone. rewrite Hk in Hnone.
      rewrite Hnone in Hsome. by destruct Hsome. }
    split.
    { intros evs e Htr Hin Hfalse. rewrite Ht in Htr. apply app_inv_head in Htr.
      subst evs. apply elem_of_cons in Hin as [Hin | Hin].
      + injection Hin as ->. congruence.
      + by apply list_elem_of_singleton in Hin. }
    destruct raised as [e3|]; destruct Hres as [_ ->]; done.
Qed.

End Credentials.

Section Reauth.

Variable C : collaborators.

(** On the refresher itself. *)
Lemma invalid_grant_at_refresh uid st r st' evs e :
  get_refreshed_credentials C uid st = (r, st') ->
  trace st' = (trace st ++ evs)%list ->
  EvRefresh uid (Some e) ∈ evs ->
  str_contains "invalid_grant" (str_of_exn e) = true ->
  exists u raised,
    evs = [EvRefresh uid (Some e); EvTokenDelete uid raised] /\
    token_key uid = Some u /\ is_Some (user_tokens st !! u) /\
    delete_fault C (trace st ++ [EvRefresh uid (Some e)]) uid = raised /\
    r = Raise (reauth_outcome uid raised) /\
    match raised with
    | None =>
        user_tokens st' = delete u (user_tokens st) /\
        user_tokens st' !! u = None
    | Some _ => user_tokens st' = user_tokens st
    end.
Proof.
  intros Hrun Htr Hin Hc.
  apply get_refreshed_credentials_cases in Hrun
    as [(Ht & _) | [(Ht & _)
       | [(e1 & Ht & _ & Hs & _)
         | (e2 & u & raised & Ht & _ & Hs & Hk & Hsome & Hdel & Hres)]]];
    rewrite Ht in Htr.
  - rewrite <- (app_nil_r (trace st)) in Htr at 1.
    apply app_inv_head in Htr. subst evs. by apply elem_of_nil in Hin.
  - apply app_inv_head in Htr. subst evs.
    by apply list_elem_of_singleton in Hin.
  - apply app_inv_head in Htr. subst evs.
    apply list_elem_of_singleton in Hin. injection Hin as ->. congruence.
  - apply app_inv_head in Htr. subst evs.
    apply elem_of_cons in Hin as [Hin | Hin];
      [| by apply list_elem_of_singleton in Hin].
    injection Hin as ->. exists u, raised.
    split; [done |]. split; [done |]. split; [done |]. split; [done |].
    destruct raised as [e1|]; destruct Hres as [Htok ->];
      (split; [done |]); [done |].
    split; [done |]. rewrite Htok. apply lookup_delete_eq.
Qed.

(** On the item whose upload needed the refresh. *)
Lemma invalid_grant_at_item temp_dir doc st r st' evs u e :
  process_video C temp_dir doc st = (r, st') ->
  trace st' = (trace st ++ evs)%list ->
  EvRefresh u (Some e) ∈ evs ->
  str_contains "invalid_grant" (str_of_exn e) = true ->
  u = item_uid doc /\
  exists raised k,
    EvTokenDelete u raised ∈ evs /\ token_key u = Some k /\
    match raised with
    | None => user_tokens st' !! k = None
    | Some _ => user_tokens st' = user_tokens st
    end /\
    exists n1 r1,
      EvUpdate doc.1 (error_data (str_of_exn (reauth_outcome u raised))) n1 r1
        ∈ evs /\
      r = outcome_of_write r1 /\
      (r1 = None ->
       exists d, video_submissions st' !! doc.1 = Some d /\
                 d !! "status" = Some (VStr "error") /\
                 d !! "errorMessage"
                 = Some (VStr (str_of_exn (reauth_outcome u raised)))).
Proof.
  intros Hrun Htr Hin Hc.
  pose proof Hrun as Hspec.
  apply process_video_spec in Hspec
    as (evs0 & rh & tail & Htr0 & Hshape & Htail & Hvs & Htok & _ & Hfirst
        & Hhang & Hfin).
  rewrite Htr in Htr0. apply app_inv_head in Htr0. subst evs.
  inversion Hshape as [ | | n0 opts evs_up e' n1 r1 Hout Hup | n0 opts evs_up Hout Hall Hno
                      | n0 opts evs_up v n2 e' n1 r1 Hout Hret
                      | n0 opts evs_up v n2 Hout Hret ]; subst evs0 rh.
  - mem_split Hin; mem_absurd.
  - mem_split Hin; mem_absurd.
  - mem_split Hin; try mem_absurd.
    destruct Hup as [Hall Href]. destruct (Href _ _ Hin) as [-> Hres].
    rewrite Hc in Hres. destruct Hres as ([k Hk] & raised & -> & ->).
    split; [done |]. exists raised, k.
    split; [apply elem_of_app; left; do 3 right; left |].
    split; [done |].
    split.
    { rewrite Htok. destruct raised as [e1|].
      - apply replay_tokens_no_delete.
        apply Forall_app. split; [repeat constructor; by intros |].
        destruct Htail as [-> | [p ->]]; repeat constructor; by intros.
      - rewrite replay_tokens_app, (replay_tokens_no_delete _ tail).
        + simpl. rewrite Hk. apply lookup_delete_eq.
        + destruct Htail as [-> | [p ->]]; repeat constructor; by intros. }
    exists n1, r1.
    split; [apply elem_of_app; left; do 4 right; left |].
    assert (Hr : r = outcome_of_write r1).
    { specialize (Hfin (outcome_of_write_not_hang _)). simpl in Hfin. tauto. }
    split; [exact Hr |]. intros ->.
    destruct Hfirst as (_ & _ & d0 & Hd0).
    rewrite replay_tail in Hvs by done. simpl in Hvs. rewrite Hd0 in Hvs.
    rewrite lookup_insert_eq in Hvs.
    eexists. split; [rewrite Hvs; apply lookup_insert_eq |].
    by rewrite !merge_fields_lookup.
  - exfalso. mem_split Hin; try mem_absurd. by apply Hno in Hin.
  - exfalso. mem_split Hin; try mem_absurd.
    destruct Hret as (pre & mid & status & resp & -> & _ & Hpre & Hmid).
    rewrite Forall_forall in Hpre, Hmid.
    mem_split Hin; try mem_absurd.
    + by apply Hpre in Hin.
    + by destruct (Hmid _ Hin).
  - exfalso. mem_split Hin; try mem_absurd.
    destruct Hret as (pre & mid & status & resp & -> & _ & Hpre & Hmid).
    rewrite Forall_forall in Hpre, Hmid.
    mem_split Hin; try mem_absurd.
    + by apply Hpre in Hin.
    + by destruct (Hmid _ Hin).
Qed.

(** C7 (amended): when the refresh of a user's credential raises an error
    whose text contains invalid_grant, the deletion of the stored
    credential document of that user is requested, as the only further
    call.  When the deletion goes through, the document is gone and an
    exception asking for re-authentication is raised to the caller; when
    the store fails the deletion, the document stays and the exception of
    the deletion is raised instead.  Inside the per-item loop the exception
    raised is routed to the error path, which writes status error with the
    text of that exception for the item. *)
Theorem invalid_grant_deletes_credential :
  (forall uid st r st' evs e,
     get_refreshed_credentials C uid st = (r, st') ->
     trace st' = (trace st ++ evs)%list ->
     EvRefresh uid (Some e) ∈ evs ->
     str_contains "invalid_grant" (str_of_exn e) = true ->
     exists u raised,
       evs = [EvRefresh uid (Some e); EvTokenDelete uid raised] /\
       token_key uid = Some u /\ is_Some (user_tokens st !! u) /\
       delete_fault C (trace st ++ [EvRefresh uid (Some e)]) uid = raised /\
       r = Raise (reauth_outcome uid raised) /\
       match raised with
       | None =>
           user_tokens st' = delete u (user_tokens st) /\
           user_tokens st' !! u = None
       | Some _ => user_tokens st' = user_tokens st
       end) /\
  (forall temp_dir doc st r st' evs u e,
     process_video C temp_dir doc st = (r, st') ->
     trace st' = (trace st ++ evs)%list ->
     EvRefresh u (Some e) ∈ evs ->
     str_contains "invalid_grant" (str_of_exn e) = true ->
     u = item_uid doc /\
     exists raised k,
       EvTokenDelete u raised ∈ evs /\ token_key u = Some k /\
       match raised with
       | None => user_tokens st' !! k = None
       | Some _ => user_tokens st' = user_tokens st
       end /\
       exists n1 r1,
         EvUpdate doc.1 (error_data (str_of_exn (reauth_outcome u raised))) n1 r1
           ∈ evs /\
         r = outcome_of_write r1 /\
         (r1 = None ->
          exists d, video_submissions st' !! doc.1 = Some d /\
                    d !! "status" = Some (VStr "error") /\
                    d !! "errorMessage"
                    = Some (VStr (str_of_exn (reauth_outcome u raised))))) /\
  (forall uid, reauth_outcome uid None = PyExc "Exception" (reauth_message uid)).
Proof.
  split; [apply invalid_grant_at_refresh |].
  split; [apply invalid_grant_at_item | done].
Qed.

End Reauth.

(** ** The insert request *)

Section Publish.

Variable C : collaborators.

(** C10: every insert request sent while an item is processed has
    privacyStatus public and categoryId 24, whatever the item's stored
    fields are; its title is the title stored with the item and its
    description the description stored with the item, whatever that is,
    and the empty string when the item has none; and an item is only marked
    published after such a request was sent. *)
Theorem upload_body_is_fixed temp_dir doc st r st' evs :
  process_video C temp_dir doc st = (r, st') ->
  trace st' = (trace st ++ evs)%list ->
  (forall part body media,
     EvInsert part body media ∈ evs ->
     part = "snippet,status" /\
     status_privacyStatus body = "public" /\
     snippet_categoryId body = "24" /\
     snippet_title body = dict_get doc.2 "title" /\
     snippet_description body
       = dict_get_default doc.2 "description" (VStr "") /\
     (forall t, doc.2 !! "title" = Some t -> snippet_title body = t) /\
     (forall d, doc.2 !! "description" = Some d -> snippet_description body = d) /\
     (doc.2 !! "description" = None -> snippet_description body = VStr "")) /\
  (doc.2 !! "description" = None ->
   dict_get_default doc.2 "description" (VStr "") = VStr "") /\
  (forall d, doc.2 !! "description" = Some d ->
   dict_get_default doc.2 "description" (VStr "") = d) /\
  (forall v n,
     EvUpdate doc.1 (published_data v) n None ∈ evs ->
     EvInsert "snippet,status"
       (upload_body (dict_get doc.2 "title")
          (dict_get_default doc.2 "description" (VStr "")))
       (item_path temp_dir doc) ∈ evs).
Proof.
  intros Hrun Htr. split; [| split; [| split]].
  - intros part body media Hin.
    pose proof (process_video_emits C temp_dir doc st) as (evs' & Htr' & Hall).
    rewrite Hrun in Htr'. simpl in Htr'. rewrite Htr in Htr'.
    apply app_inv_head in Htr'. subst evs'.
    rewrite Forall_forall in Hall. apply Hall in Hin as [-> ->].
    do 5 (split; [done |]). simpl. unfold dict_get, dict_get_default.
    split; [by intros t -> |]. split; [by intros d -> | by intros ->].
  - intros Hnone. unfold dict_get_default. by rewrite Hnone.
  - intros d Hd. unfold dict_get_default. by rewrite Hd.
  - intros v n Hin.
    apply process_video_spec in Hrun
      as (evs0 & rh & tail & Htr0 & Hshape & Htail & _).
    rewrite Htr in Htr0. apply app_inv_head in Htr0. subst evs.
    inversion Hshape as [ | | n0 opts evs_up e' n1 r1 Hout Hup
                        | n0 opts evs_up Hout Hall Hno
                        | n0 opts evs_up v' n2 e' n1 r1 Hout Hret
                        | n0 opts evs_up v' n2 Hout Hret ]; subst evs0 rh;
      mem_split Hin; try mem_absurd.
    destruct Hret as (pre & mid & status & resp & -> & _).
    apply elem_of_app. left. do 2 right.
    apply elem_of_app. left. apply elem_of_app. right. left.
Qed.

End Publish.

(** ** Published documents carry their identifier *)

Lemma published_data_fields v :
  published_data v !! "status" = Some (Lit (VStr "published")) /\
  published_data v !! "publishedAt" = Some SERVER_TIMESTAMP /\
  published_data v !! "updatedAt" = Some SERVER_TIMESTAMP /\
  published_data v !! "newVideoId" = Some (Lit v) /\
  dom (published_data v)
    = ({["status"; "publishedAt"; "updatedAt"; "newVideoId"]} : gset string).
Proof.
  repeat split; reflexivity.
Qed.

Lemma write_shape_published ev :
  write_shape ev ->
  forall id data n raised,
    ev = EvUpdate id data n raised ->
    data !! "status" = Some (Lit (VStr "published")) ->
    exists v, data = published_data v.
Proof.
  intros Hshape id data n raised -> Hstatus. simpl in Hshape.
  destruct Hshape as [-> | [[v ->] | [msg ->]]]; [done | eauto | done].
Qed.

Lemma replay_event_published_has_id vs ev :
  write_shape ev -> published_has_id vs -> published_has_id (replay_event vs ev).
Proof.
  intros Hshape Hinv.
  destruct ev as [id data n [e |] | | | | | |]; try exact Hinv.
  simpl. destruct (vs !! id) as [doc |] eqn:Hdoc; [| exact Hinv].
  intros id' doc' Hlook Hstatus.
  destruct (decide (id = id')) as [<- | Hne].
  - rewrite lookup_insert_eq in Hlook. injection Hlook as <-.
    rewrite merge_fields_lookup in Hstatus. rewrite merge_fields_lookup.
    simpl in Hshape. destruct Hshape as [-> | [[v ->] | [msg ->]]].
    + done.
    + eauto.
    + done.
  - rewrite lookup_insert_ne in Hlook by done. eauto.
Qed.

Lemma replay_published_has_id vs evs :
  Forall write_shape evs -> published_has_id vs -> published_has_id (replay vs evs).
Proof.
  intros Hall. revert vs. induction Hall as [|ev evs Hev _ IH]; intros vs Hinv;
    [done |].
  rewrite replay_cons. apply IH. by apply replay_event_published_has_id.
Qed.

Section Published.

Variable C : collaborators.

Lemma published_write_at_item temp_dir doc st r st' evs v n :
  process_video C temp_dir doc st = (r, st') ->
  trace st' = (trace st ++ evs)%list ->
  EvUpdate doc.1 (published_data v) n None ∈ evs ->
  r = Ret tt /\
  (exists status resp,
     EvNextChunk (ChunkReturn status (Some resp)) ∈ evs /\
     v = dict_get resp "id") /\
  exists d,
    video_submissions st' !! doc.1 = Some d /\
    d !! "status" = Some (VStr "published") /\
    d !! "newVideoId" = Some v /\
    d !! "publishedAt" = Some (VTime n) /\
    d !! "updatedAt" = Some (VTime n).
Proof.
  intros Hrun Htr Hin.
  apply process_video_spec in Hrun
    as (evs0 & rh & tail & Htr0 & Hshape & Htail & Hvs & _ & _ & Hfirst
        & _ & Hfin).
  rewrite Htr in Htr0. apply app_inv_head in Htr0. subst evs.
  inversion Hshape as [ | | n0 opts evs_up e' n1 r1 Hout Hup
                      | n0 opts evs_up Hout Hall Hno
                      | n0 opts evs_up v' n2 e' n1 r1 Hout Hret
                      | n0 opts evs_up v' n2 Hout Hret ]; subst evs0 rh;
    mem_split Hin; try mem_absurd.
  apply EvUpdate_inj in Hin as (_ & Hv & -> & _).
  apply published_data_inj in Hv as ->.
  split; [assert (Ret tt <> (@Hang unit)) as Hnh by done;
          apply Hfin in Hnh; simpl in Hnh; tauto |].
  split.
  { destruct Hret as (pre & mid & status & resp & -> & -> & _).
    exists status, resp. split; [| done].
    apply elem_of_app. left. do 2 right.
    apply elem_of_app. left. apply elem_of_app. right. right.
    apply elem_of_app. right. left. }
  destruct Hfirst as (_ & _ & d0 & Hd0).
  rewrite replay_tail in Hvs by done.
  rewrite !replay_app, (replay_no_write _ evs_up) in Hvs
    by (eapply upload_event_no_write, upload_returned_events; eauto).
  simpl in Hvs. rewrite Hd0 in Hvs. rewrite lookup_insert_eq in Hvs.
  eexists. split; [rewrite Hvs; apply lookup_insert_eq |].
  by rewrite !merge_fields_lookup.
Qed.

(** C8: the write that marks an item published carries status,
    publishedAt, updatedAt and newVideoId (the identifier the upload
    returned) in one payload, applied to the document in one step; every
    write of a run that sets status published is of that form; and in every
    state the collection goes through during a run, a document in status
    published has its newVideoId, provided that held when the run started. *)
Theorem published_fields_written_together :
  (forall v,
     published_data v !! "status" = Some (Lit (VStr "published")) /\
     published_data v !! "publishedAt" = Some SERVER_TIMESTAMP /\
     published_data v !! "updatedAt" = Some SERVER_TIMESTAMP /\
     published_data v !! "newVideoId" = Some (Lit v) /\
     dom (published_data v)
       = ({["status"; "publishedAt"; "updatedAt"; "newVideoId"]} : gset string)) /\
  (forall temp_dir doc st r st' evs v n,
     process_video C temp_dir doc st = (r, st') ->
     trace st' = (trace st ++ evs)%list ->
     EvUpdate doc.1 (published_data v) n None ∈ evs ->
     r = Ret tt /\
     (exists status resp,
        EvNextChunk (ChunkReturn status (Some resp)) ∈ evs /\
        v = dict_get resp "id") /\
     exists d,
       video_submissions st' !! doc.1 = Some d /\
       d !! "status" = Some (VStr "published") /\
       d !! "newVideoId" = Some v /\
       d !! "publishedAt" = Some (VTime n) /\
       d !! "updatedAt" = Some (VTime n)) /\
  (forall now_utc st r st',
     process_queue C now_utc st = (r, st') ->
     exists evs,
       trace st' = (trace st ++ evs)%list /\
       video_submissions st' = replay (video_submissions st) evs /\
       (forall id data n raised,
          EvUpdate id data n raised ∈ evs ->
          data !! "status" = Some (Lit (VStr "published")) ->
          exists v, data = published_data v) /\
       (published_has_id (video_submissions st) ->
        forall k, published_has_id (replay (video_submissions st) (take k evs)))).
Proof.
  split; [apply published_data_fields |].
  split; [apply published_write_at_item |].
  intros now_utc st r st' Hrun.
  pose proof (process_queue_tracks C now_utc st) as (evs & Htr & Hall & Hvs & _).
  rewrite Hrun in Htr, Hvs. simpl in Htr, Hvs.
  exists evs. split; [done |]. split; [done |]. split.
  - intros id data n raised Hin Hstatus. rewrite Forall_forall in Hall.
    eapply write_shape_published; eauto.
  - intros Hinv k. apply replay_published_has_id; [| done].
    by apply Forall_take.
Qed.

End Published.

(** ** The cap on the users of a run *)

Section Cap.

Variable C : collaborators.

Lemma item_event_writes_within temp_dir (doc : snapshot) (ids : list string) ev :
  doc.1 ∈ ids -> item_event temp_dir doc ev -> writes_within ids ev.
Proof. intros Hin. destruct ev; simpl; try done. by intros [-> _]. Qed.

Lemma for_each_writes_within (items : list snapshot) temp_dir :
  respects (emits (writes_within items.*1))
    (for_each (process_video C temp_dir) items).
Proof.
  apply (respects_for_each (emits (writes_within items.*1))).
  intros doc Hdoc.
  eapply respects_mono; [| apply process_video_emits].
  intros ev. apply item_event_writes_within.
  apply list_elem_of_fmap. eauto.
Qed.

Lemma run_items_writes_within (items : list snapshot) :
  respects (emits (writes_within items.*1))
    (with_temporary_directory C
       (fun temp_dir => for_each (process_video C temp_dir) items)).
Proof.
  unfold with_temporary_directory.
  apply (respects_bind (emits (writes_within items.*1))).
  - intros st. by apply emits_silent.
  - intros temp_dir.
    apply (respects_try_finally (emits (writes_within items.*1))).
    + apply for_each_writes_within.
    + intros st. by apply emits_silent.
Qed.

Lemma run_items_log_grows (items : list snapshot) :
  respects log_grows
    (with_temporary_directory C
       (fun temp_dir => for_each (process_video C temp_dir) items)).
Proof. script_walk idtac. Qed.

(** The run, once the schedule of the current slot is known. *)
Lemma process_queue_scheduled now_utc st slot sd :
  current_quarter_id now_utc = Some slot ->
  schedules st !! slot = Some sd ->
  exists st1,
    trace st1 = trace st /\ video_submissions st1 = video_submissions st /\
    ((30 < length (default [] (sched_users sd)))%nat ->
     ("WARNING", "More than 30 users scheduled. Processing only the first 30.")
       ∈ logs st1) /\
    process_queue C now_utc st =
      match default [] (sched_users sd) with
      | [] => (Ret tt, st1)
      | _ :: _ =>
          match select_videos (video_submissions st)
                  (cap_users (default [] (sched_users sd))) [] with
          | [] => (Ret tt, st1)
          | items =>
              with_temporary_directory C
                (fun temp_dir => for_each (process_video C temp_dir) items) st1
          end
      end.
Proof.
  intros Hslot Hsched. unfold process_queue, bind, log, ret. rewrite Hslot.
  simpl. rewrite Hsched.
  destruct (default [] (sched_users sd)) as [|u users] eqn:Husers.
  - eexists. split; [| split; [| split; [| reflexivity]]]; try reflexivity.
    simpl. lia.
  - unfold cap_users. destruct (decide (30 < length (u :: users))%nat) as [Hlt | Hge].
    + simpl.
      destruct (select_videos _ _ _) as [|d items] eqn:Hsel.
      * eexists. split; [| split; [| split; [| reflexivity]]]; try reflexivity.
        intros _. simpl. set_solver.
      * eexists. split; [| split; [| split; [| reflexivity]]]; try reflexivity.
        intros _. simpl. set_solver.
    + simpl.
      destruct (select_videos _ _ _) as [|d items] eqn:Hsel.
      * eexists. split; [| split; [| split; [| reflexivity]]]; try reflexivity.
        intros Hlt. simpl in *. lia.
      * eexists. split; [| split; [| split; [| reflexivity]]]; try reflexivity.
        intros Hlt. simpl in *. lia.
Qed.

(** C5: at most 30 users are considered: the users considered are the
    first 30 of the list, in its order, the others are skipped with a
    warning in the log and no exception; an empty list of users selects
    nothing and the run ends at once; the selection has at most 30 items (so
    with 35 users a run processes items for at most 30 of them), each owned
    by one of the first 30 users; and a run only writes to selected items. *)
Theorem at_most_30_users_considered :
  (forall users : list value,
     cap_users users = take 30 users /\ (length (cap_users users) <= 30)%nat /\
     ((30 < length users)%nat -> length (cap_users users) = 30%nat) /\
     ((length users <= 30)%nat -> cap_users users = users)) /\
  (forall (videos : gmap string dict) (users : list value),
     select_videos videos (cap_users users) []
       = concat (map (user_video_query videos) (take 30 users)) /\
     (length (select_videos videos (cap_users users) []) <= 30)%nat /\
     (forall d, d ∈ select_videos videos (cap_users users) [] ->
                exists u, u ∈ take 30 users /\ d.2 !! "uid" = Some u) /\
     (length users = 35%nat ->
      (length (select_videos videos (cap_users users) []) <= 30)%nat)) /\
  (forall videos : gmap string dict,
     select_videos videos (cap_users []) [] = []) /\
  (forall now_utc st r st' slot sd,
     current_quarter_id now_utc = Some slot ->
     schedules st !! slot = Some sd ->
     process_queue C now_utc st = (r, st') ->
     exists evs,
       trace st' = (trace st ++ evs)%list /\
       Forall (writes_within
                 (select_videos (video_submissions st)
                    (cap_users (default [] (sched_users sd))) []).*1) evs /\
       (default [] (sched_users sd) = [] ->
        r = Ret tt /\ evs = [] /\
        video_submissions st' = video_submissions st) /\
       ((30 < length (default [] (sched_users sd)))%nat ->
        ("WARNING",
         "More than 30 users scheduled. Processing only the first 30.")
          ∈ logs st')).
Proof.
  split; [| split; [| split]].
  - intros users. rewrite cap_users_take. split; [done |].
    rewrite length_take. split; [lia |]. split; [lia |].
    intros Hle. by rewrite take_ge by lia.
  - intros videos users. rewrite cap_users_take.
    pose proof (select_videos_length videos (take 30 users)) as Hlen.
    rewrite length_take in Hlen.
    split; [by rewrite select_videos_concat |]. split; [lia |].
    split; [| intros _; lia].
    intros d Hd. apply elem_of_select_videos in Hd as (u & Hu & Hq).
    apply user_video_query_elem in Hq as (_ & Hown & _). eauto.
  - intros videos. reflexivity.
  - intros now_utc st r st' slot sd Hslot Hsched Hrun.
    destruct (process_queue_scheduled now_utc st slot sd Hslot Hsched)
      as (st1 & Htr1 & Hvs1 & Hwarn & Heq).
    rewrite Heq in Hrun. clear Heq.
    destruct (default [] (sched_users sd)) as [|u users] eqn:Husers.
    { injection Hrun as <- <-. exists []. rewrite app_nil_r.
      split; [done |]. split; [constructor |]. split; [done |].
      intros Hlt. simpl in Hlt. lia. }
    destruct (select_videos _ _ _) as [|d items] eqn:Hsel.
    { injection Hrun as <- <-. exists []. rewrite app_nil_r.
      split; [done |]. split; [constructor |]. split; [done | exact Hwarn]. }
    pose proof (run_items_writes_within (d :: items) st1) as (evs & Htr & Hall).
    pose proof (run_items_log_grows (d :: items) st1) as [l Hlogs].
    rewrite Hrun in Htr, Hlogs. simpl in Htr, Hlogs.
    exists evs. split; [by rewrite Htr, Htr1 |]. split; [exact Hall |].
    split; [done |].
    intros Hlt. rewrite Hlogs. apply elem_of_app. left. by apply Hwarn.
Qed.

End Cap.

(** ** Failure isolation across the items of a run *)

Section Isolation.

Variable C : collaborators.

Lemma process_video_isolated temp_dir doc st r st' evs :
  process_video C temp_dir doc st = (r, st') ->
  trace st' = (trace st ++ evs)%list ->
  cleanup_ready st evs ->
  Forall (fun ev => ~ error_write_raised ev) evs ->
  (r = Ret tt \/ r = Hang) /\ is_Some (video_path st') /\
  exists n raised, EvUpdate doc.1 processing_data n raised ∈ evs.
Proof.
  intros Hrun Htr Hready Hno.
  apply process_video_spec in Hrun
    as (evs0 & rh & tail & Htr0 & Hshape & Htail & _ & _ & Hvp & _ & Hhang & Hfin).
  rewrite Htr in Htr0. apply app_inv_head in Htr0. subst evs.
  apply Forall_app in Hno as [Hno _].
  assert (Hpath : is_Some (path_at_cleanup temp_dir doc evs0 st)).
  { unfold path_at_cleanup.
    destruct Hready as [Hbound | Hfirst].
    - destruct evs0 as [|[? ? ? [?|]| | | | | |] ?]; eauto.
    - inversion Hshape; subst evs0; simpl; eauto.
      by destruct (Hfirst _ _ _ _ _ eq_refl). }
  assert (Hr : r = rh).
  { destruct (outcome_hang_dec rh) as [-> | Hnh]; [by destruct Hhang |].
    apply Hfin in Hnh. destruct Hpath as [p Hp]. rewrite Hp in Hnh. tauto. }
  subst r. split; [| split; [by rewrite Hvp |]].
  - rewrite Forall_forall in Hno.
    inversion Hshape as [ e n0 n1 r1 | n0 opts e n1 r1 Hout
                        | n0 opts evs_up e n1 r1 Hout Hup
                        | n0 opts evs_up Hout Hall Hnr
                        | n0 opts evs_up v n2 e n1 r1 Hout Hret
                        | n0 opts evs_up v n2 Hout Hret ]; subst evs0 rh;
      auto; destruct r1 as [e1 |]; auto; exfalso;
      eapply (Hno (EvUpdate doc.1 (error_data (str_of_exn e)) n1 (Some e1)));
      simpl; eauto;
      repeat first [ apply list_elem_of_here
                   | apply list_elem_of_further
                   | apply elem_of_app; right ].
  - inversion Hshape; subst evs0 rh; eexists _, _;
      apply elem_of_app; left; apply list_elem_of_here.
Qed.

Lemma for_each_isolated temp_dir items st r st' evs :
  for_each (process_video C temp_dir) items st = (r, st') ->
  trace st' = (trace st ++ evs)%list ->
  cleanup_ready st evs ->
  Forall (fun ev => ~ error_write_raised ev) evs ->
  (r = Ret tt \/ r = Hang) /\
  (r = Ret tt ->
   forall doc : snapshot, doc ∈ items ->
     exists n raised, EvUpdate doc.1 processing_data n raised ∈ evs).
Proof.
  revert st evs. induction items as [|doc items IH]; intros st evs Hrun Htr Hready Hno.
  - injection Hrun as <- <-. split; [by left |].
    intros _ doc Hdoc. by apply elem_of_nil in Hdoc.
  - simpl in Hrun. unfold bind in Hrun.
    destruct (process_video C temp_dir doc st) as [r1 st1] eqn:Hitem.
    pose proof (process_video_emits C temp_dir doc st) as (evs1 & Htr1 & _).
    rewrite Hitem in Htr1. simpl in Htr1.
    assert (Hrest : exists evs2, trace st' = (trace st1 ++ evs2)%list).
    { destruct r1 as [[] | e |]; try (injection Hrun as <- <-; exists [];
                                      by rewrite app_nil_r).
      pose proof (respects_for_each (emits (fun _ => True))
                    (process_video C temp_dir) items
                    (fun x _ => respects_mono _ _ _ (fun _ _ => I)
                                  (process_video_emits C temp_dir x)) st1)
        as (evs2 & Htr2 & _).
      rewrite Hrun in Htr2. eauto. }
    destruct Hrest as (evs2 & Htr2).
    assert (evs = (evs1 ++ evs2)%list) as ->.
    { rewrite Htr1, <- app_assoc in Htr2. rewrite Htr in Htr2.
      by apply app_inv_head in Htr2. }
    apply Forall_app in Hno as [Hno1 Hno2].
    assert (Hready1 : cleanup_ready st evs1).
    { destruct Hready as [? | Hfirst]; [by left |].
      right. intros id data n e rest ->. by eapply Hfirst. }
    destruct (process_video_isolated _ _ _ _ _ _ Hitem Htr1 Hready1 Hno1)
      as ([-> | ->] & Hbound & n & raised & Hin).
    + destruct (IH st1 evs2 Hrun Htr2 (or_introl Hbound) Hno2) as [Hr Hall].
      split; [exact Hr |]. intros Hret doc' Hdoc'.
      apply elem_of_cons in Hdoc' as [-> | Hdoc'].
      * exists n, raised. apply elem_of_app. by left.
      * destruct (Hall Hret doc' Hdoc') as (n' & raised' & Hin').
        exists n', raised'. apply elem_of_app. by right.
    + injection Hrun as <- <-. split; [by right | done].
Qed.

(** X1: failure isolation as the loop provides it: in a run in which no write
    of the error status raises and the first write of the run does not raise
    either, no exception leaves the loop, and when the run returns every
    selected item has been attempted, whatever failed before it. *)
Theorem failures_are_isolated_when_error_writes_succeed
    now_utc st r st' slot sd evs :
  current_quarter_id now_utc = Some slot ->
  schedules st !! slot = Some sd ->
  process_queue C now_utc st = (r, st') ->
  trace st' = (trace st ++ evs)%list ->
  Forall (fun ev => ~ error_write_raised ev) evs ->
  (forall id data n e rest, evs <> EvUpdate id data n (Some e) :: rest) ->
  (r = Ret tt \/ r = Hang) /\
  (r = Ret tt ->
   forall doc : snapshot,
     doc ∈ select_videos (video_submissions st)
             (cap_users (default [] (sched_users sd))) [] ->
     exists n raised, EvUpdate doc.1 processing_data n raised ∈ evs).
Proof.
  intros Hslot Hsched Hrun Htr Hno Hfirst.
  destruct (process_queue_scheduled C now_utc st slot sd Hslot Hsched)
    as (st1 & Htr1 & Hvs1 & _ & Heq).
  rewrite Heq in Hrun. clear Heq.
  destruct (default [] (sched_users sd)) as [|u users] eqn:Husers.
  { injection Hrun as <- <-. split; [by left |].
    intros _ doc Hdoc. by apply elem_of_nil in Hdoc. }
  destruct (select_videos _ _ _) as [|d items] eqn:Hsel.
  { injection Hrun as <- <-. split; [by left |].
    intros _ doc Hdoc. by apply elem_of_nil in Hdoc. }
  unfold with_temporary_directory, bind in Hrun.
  apply try_finally_cases in Hrun as (rl & stl & Hloop & Hfin).
  assert (Htrl : trace st' = trace stl).
  { destruct Hfin as [(_ & _ & ->) | (_ & rf & Hf & _)]; [done |].
    by injection Hf as _ <-. }
  rewrite Htrl, <- Htr1 in Htr.
  destruct (for_each_isolated _ _ _ _ _ _ Hloop Htr (or_intror Hfirst) Hno)
    as [Hr Hall].
  destruct Hfin as [(-> & -> & _) | (Hnh & rf & Hf & ->)].
  - split; [by right | done].
  - injection Hf as <- _. split; [exact Hr | exact Hall].
Qed.

End Isolation.

(** ** The properties on concrete runs *)

Lemma trace_from_start (st st' : state) :
  trace st = [] -> trace st' = (trace st ++ trace st')%list.
Proof. intros ->. reflexivity. Qed.

Lemma run_eq {A} (m : M A) (st : state) : m st = ((m st).1, (m st).2).
Proof. by destruct (m st). Qed.

(** C1: two runs in which a failure while the first selected item is
    processed ends the whole run, so that the second selected item is never
    attempted.  In the first the store refuses the write that marks the
    first item processing; the error write succeeds, and the cleanup then
    reads [video_path] before any assignment.  In the second the download
    fails and the store refuses the write that marks the item error. *)
Theorem failure_of_first_item_ends_run :
  (select_videos (video_submissions st_two_users)
     (cap_users [VStr "alice"; VStr "bob"]) []).*1 = ["vidA2"; "vidB"] /\
  ((process_queue first_write_fails t_13_07_00 st_two_users).1
     = Raise (PyExc "UnboundLocalError"
                "cannot access local variable 'video_path' where it is not associated with a value") /\
   touched (trace (process_queue first_write_fails t_13_07_00 st_two_users).2)
     = ["vidA2"; "vidA2"] /\
   status_of (process_queue first_write_fails t_13_07_00 st_two_users).2 "vidA2"
     = Some (VStr "error") /\
   status_of (process_queue first_write_fails t_13_07_00 st_two_users).2 "vidB"
     = Some (VStr "queued")) /\
  ((process_queue fetch_and_error_write_fail t_13_07_00 st_two_users).1
     = Raise store_down /\
   touched (trace (process_queue fetch_and_error_write_fail t_13_07_00
                     st_two_users).2)
     = ["vidA2"; "vidA2"] /\
   status_of (process_queue fetch_and_error_write_fail t_13_07_00
                st_two_users).2 "vidA2"
     = Some (VStr "processing") /\
   status_of (process_queue fetch_and_error_write_fail t_13_07_00
                st_two_users).2 "vidB"
     = Some (VStr "queued")).
Proof. vm_compute. repeat split. Qed.

(** C2 fails as stated: the download of the first selected item raises
    after the item was marked processing, the write that would mark it
    error raises as well, and the item is left in status processing. *)
Lemma fetch_failure_left_processing :
  EvUpdate "vidA2" processing_data 1000 None
    ∈ trace (process_queue fetch_and_error_write_fail t_13_07_00 st_two_users).2 /\
  (exists opts,
     EvDownload (VStr "https://video.example/early") opts (Some fetch_error)
       ∈ trace (process_queue fetch_and_error_write_fail t_13_07_00
                  st_two_users).2) /\
  status_of (process_queue fetch_and_error_write_fail t_13_07_00 st_two_users).2
    "vidA2" = Some (VStr "processing") /\
  status_of (process_queue fetch_and_error_write_fail t_13_07_00 st_two_users).2
    "vidA2" <> Some (VStr "error").
Proof.
  split; [vm_compute; apply list_elem_of_here |].
  split.
  { eexists. vm_compute. apply list_elem_of_further, list_elem_of_here. }
  split; [by vm_compute | by vm_compute].
Qed.

(** C3 fails as stated: the write that marks [vidB] processing raises, a
    second write is nevertheless issued for [vidB], and it leaves the item
    in status error instead of queued. *)
Lemma failed_first_write_is_followed_by_error_write :
  (process_queue write_for_B_fails t_13_07_00 st_two_users).1 = Ret tt /\
  (exists pre n0 n1 post,
     trace (process_queue write_for_B_fails t_13_07_00 st_two_users).2
       = (pre ++ [EvUpdate "vidB" processing_data n0 (Some store_down);
                  EvUpdate "vidB" (error_data (str_of_exn store_down)) n1 None]
              ++ post)%list) /\
  status_of st_two_users "vidB" = Some (VStr "queued") /\
  status_of (process_queue write_for_B_fails t_13_07_00 st_two_users).2 "vidB"
    = Some (VStr "error").
Proof.
  split; [by vm_compute |]. split; [| split; by vm_compute].
  eexists (take 8 (trace (process_queue write_for_B_fails t_13_07_00
                            st_two_users).2)), _, _, _.
  vm_compute. reflexivity.
Qed.

(** *** The general statements at concrete runs *)

Lemma select_videos_one_per_user_witness :
  user_video_query (video_submissions st_two_users) (VStr "alice") = [doc_A2] /\
  (length (filter (fun d : snapshot => d.2 !! "uid" = Some (VStr "alice"))
             (select_videos (video_submissions st_two_users)
                (cap_users [VStr "alice"; VStr "bob"]) [])) <= 1)%nat.
Proof.
  split; [by vm_compute |].
  refine (proj2 (proj2 (proj2 (proj2 (proj2 (proj2
            (select_videos_one_per_user (video_submissions st_two_users)
               [VStr "alice"; VStr "bob"] (VStr "alice"))))))) _).
  apply (bool_decide_unpack _). by vm_compute.
Defined.

Lemma fetch_failure_marks_error_witness :
  EvUpdate "vidB" processing_data 1000 None
    ∈ trace (process_video fetch_fails "/tmp/run" doc_B st_in_loop).2 /\
  item_path "/tmp/run" doc_B
    ∉ files (process_video fetch_fails "/tmp/run" doc_B st_in_loop).2.
Proof.
  assert (Hfirst : EvUpdate doc_B.1 processing_data 1000 None
            ∈ trace (process_video fetch_fails "/tmp/run" doc_B st_in_loop).2)
    by (vm_compute; apply list_elem_of_here).
  split; [exact Hfirst |].
  refine (proj1 (fetch_failure_marks_error fetch_fails "/tmp/run" doc_B
                   st_in_loop _ _ _ 1000 (run_eq _ _) eq_refl Hfirst) _).
  by vm_compute.
Defined.

Lemma processing_write_failure_routes_to_error_witness :
  update_fault first_write_fails (trace st_two_users) doc_A2.1 processing_data
    = Some store_down /\
  exists n0 n1 r1 tail,
    trace (process_video first_write_fails "/tmp/run" doc_A2 st_two_users).2 =
      (trace st_two_users
       ++ [EvUpdate doc_A2.1 processing_data n0 (Some store_down);
           EvUpdate doc_A2.1 (error_data (str_of_exn store_down)) n1 r1]
       ++ tail)%list /\
    cleanup_tail tail /\
    match r1 with
    | None =>
        exists d,
          video_submissions
            (process_video first_write_fails "/tmp/run" doc_A2 st_two_users).2
            !! doc_A2.1 = Some d /\
          d !! "status" = Some (VStr "error") /\
          d !! "errorMessage" = Some (VStr (str_of_exn store_down))
    | Some _ =>
        video_submissions
          (process_video first_write_fails "/tmp/run" doc_A2 st_two_users).2
        = video_submissions st_two_users
    end.
Proof.
  split; [reflexivity |].
  exact (processing_write_failure_routes_to_error first_write_fails "/tmp/run"
           doc_A2 st_two_users _ _ store_down eq_refl (run_eq _ _)).
Defined.

Lemma at_most_30_users_considered_witness :
  (30 < length (replicate 35 (VStr "user")))%nat /\
  length (cap_users (replicate 35 (VStr "user"))) = 30%nat.
Proof.
  assert (Hlen : (30 < length (replicate 35 (VStr "user")))%nat)
    by (rewrite length_replicate; lia).
  split; [exact Hlen |].
  exact (proj1 (proj2 (proj2 (proj1 (at_most_30_users_considered all_fine)
                                (replicate 35 (VStr "user"))))) Hlen).
Defined.

Lemma invalid_grant_deletes_credential_witness :
  str_contains "invalid_grant" (str_of_exn invalid_grant_error) = true /\
  (get_refreshed_credentials refresh_refused (VStr "alice") st_two_users).1
    = Raise (PyExc "Exception" (reauth_message (VStr "alice"))) /\
  user_tokens
    (get_refreshed_credentials refresh_refused (VStr "alice") st_two_users).2
    !! "alice" = None.
Proof.
  assert (Hc : str_contains "invalid_grant" (str_of_exn invalid_grant_error)
               = true) by reflexivity.
  split; [exact Hc |].
  destruct (proj1 (invalid_grant_deletes_credential refresh_refused)
              (VStr "alice") st_two_users _ _ _ invalid_grant_error
              (run_eq _ _) eq_refl
              ltac:(vm_compute; apply list_elem_of_here) Hc)
    as (u & raised & _ & Hk & _ & Hdel & Hr & Hres).
  simpl in Hdel. subst raised. destruct Hres as [_ Hnone].
  split; [exact Hr |]. injection Hk as <-. exact Hnone.
Defined.

(** C7 fails as stated: the refresh of alice's credential is refused with
    invalid_grant, the store fails the deletion of her credential, and the
    credential is still stored afterwards; the exception raised to the
    caller is the one of the store, not a request to re-authenticate. *)
Lemma failed_delete_keeps_credential :
  str_contains "invalid_grant" (str_of_exn invalid_grant_error) = true /\
  trace (get_refreshed_credentials refresh_refused_delete_fails (VStr "alice")
           st_two_users).2
  = [EvRefresh (VStr "alice") (Some invalid_grant_error);
     EvTokenDelete (VStr "alice") (Some store_down)] /\
  (get_refreshed_credentials refresh_refused_delete_fails (VStr "alice")
     st_two_users).1 = Raise store_down /\
  (get_refreshed_credentials refresh_refused_delete_fails (VStr "alice")
     st_two_users).1
  <> Raise (PyExc "Exception" (reauth_message (VStr "alice"))) /\
  user_tokens
    (get_refreshed_credentials refresh_refused_delete_fails (VStr "alice")
       st_two_users).2 !! "alice"
  = Some {[ "refreshToken" := VStr "rt-alice" ]}.
Proof.
  split; [reflexivity |]. split; [by vm_compute |].
  split; [by vm_compute |]. split; [by vm_compute | by vm_compute].
Qed.

Lemma credential_deleted_only_on_invalid_grant_witness :
  (get_refreshed_credentials refresh_times_out (VStr "alice") st_two_users).1
    = Raise timeout_error /\
  user_tokens
    (get_refreshed_credentials refresh_times_out (VStr "alice") st_two_users).2
    = user_tokens st_two_users.
Proof.
  exact (proj1 (proj2 (proj2
           (credential_deleted_only_on_invalid_grant refresh_times_out
              (VStr "alice") st_two_users _ _ (run_eq _ _))))
           _ timeout_error eq_refl
           ltac:(vm_compute; apply list_elem_of_here) eq_refl).
Defined.

Lemma upload_body_is_fixed_witness :
  doc_described.2 !! "description" = Some (VStr "A note from alice") /\
  EvInsert "snippet,status"
    (upload_body (VStr "early") (VStr "A note from alice"))
    (item_path "/tmp/run" doc_described)
    ∈ trace (process_video all_fine "/tmp/run" doc_described st_described).2 /\
  forall part body media,
    EvInsert part body media
      ∈ trace (process_video all_fine "/tmp/run" doc_described st_described).2 ->
    snippet_description body = VStr "A note from alice" /\
    snippet_title body = VStr "early" /\
    status_privacyStatus body = "public" /\ snippet_categoryId body = "24".
Proof.
  assert (Hd : doc_described.2 !! "description" = Some (VStr "A note from alice"))
    by reflexivity.
  assert (Ht : doc_described.2 !! "title" = Some (VStr "early"))
    by (vm_compute; reflexivity).
  destruct (upload_body_is_fixed all_fine "/tmp/run" doc_described
              st_described _ _ _ (run_eq _ _)
              (trace_from_start st_described _ eq_refl))
    as (Hbody & _ & _ & Hsent).
  split; [exact Hd |]. split.
  - refine (Hsent (VStr "yt-1") 1006 _).
    apply (list_elem_of_lookup_2 _ 6%nat). vm_compute. reflexivity.
  - intros part body media Hin.
    destruct (Hbody part body media Hin)
      as (_ & Hp & Hcat & _ & _ & Htitle & Hdesc & _).
    auto.
Defined.

Lemma published_fields_written_together_witness :
  (process_video all_fine "/tmp/run" doc_B st_in_loop).1 = Ret tt /\
  exists d,
    video_submissions (process_video all_fine "/tmp/run" doc_B st_in_loop).2
      !! "vidB" = Some d /\
    d !! "status" = Some (VStr "published") /\
    d !! "newVideoId" = Some (VStr "yt-1").
Proof.
  destruct (proj1 (proj2 (published_fields_written_together all_fine))
              "/tmp/run" doc_B st_in_loop _ _ _ (VStr "yt-1") 1006
              (run_eq _ _) eq_refl
              ltac:(vm_compute; do 6 apply list_elem_of_further;
                    apply list_elem_of_here))
    as (Hr & _ & d & Hd & Hs & Hid & _).
  split; [exact Hr |]. exists d. auto.
Defined.

Lemma no_update_raised_no_error_write (evs : list event) :
  forallb (fun ev => negb (update_raised ev)) evs = true ->
  Forall (fun ev => ~ error_write_raised ev) evs.
Proof.
  intros Hall. apply Forall_forall. intros ev Hin Herr.
  rewrite forallb_forall in Hall. apply list_elem_of_In in Hin.
  apply Hall in Hin. by destruct ev as [? ? ? [?|]| | | | | |].
Qed.

Lemma first_update_not_raised (evs : list event) :
  forallb (fun ev => negb (update_raised ev)) evs = true ->
  forall id data n e rest, evs <> EvUpdate id data n (Some e) :: rest.
Proof. intros Hall id data n e rest ->. discriminate. Qed.

Lemma failures_are_isolated_when_error_writes_succeed_witness :
  forallb (fun ev => negb (update_raised ev))
    (trace (process_queue fetch_fails t_13_07_00 st_two_users).2) = true /\
  status_of (process_queue fetch_fails t_13_07_00 st_two_users).2 "vidA2"
    = Some (VStr "error") /\
  ((process_queue fetch_fails t_13_07_00 st_two_users).1 = Ret tt \/
   (process_queue fetch_fails t_13_07_00 st_two_users).1 = Hang) /\
  ((process_queue fetch_fails t_13_07_00 st_two_users).1 = Ret tt ->
   exists n raised,
     EvUpdate doc_B.1 processing_data n raised
       ∈ trace (process_queue fetch_fails t_13_07_00 st_two_users).2).
Proof.
  assert (Hquiet : forallb (fun ev => negb (update_raised ev))
            (trace (process_queue fetch_fails t_13_07_00 st_two_users).2) = true)
    by (vm_compute; reflexivity).
  assert (Hsched : schedules st_two_users !! "13_00"
                   = Some {| sched_users := Some [VStr "alice"; VStr "bob"] |})
    by (vm_compute; reflexivity).
  split; [exact Hquiet |]. split; [vm_compute; reflexivity |].
  destruct (failures_are_isolated_when_error_writes_succeed fetch_fails
              t_13_07_00 st_two_users _ _ "13_00" _ _
              eq_refl Hsched (run_eq _ _) (trace_from_start st_two_users _ eq_refl)
              (no_update_raised_no_error_write _ Hquiet)
              (first_update_not_raised _ Hquiet))
    as [Hr Hall].
  split; [exact Hr |]. intros Hret. apply (Hall Hret).
  replace (select_videos _ _ _) with [doc_A2; doc_B]
    by (vm_cast_no_check (eq_refl [doc_A2; doc_B])).
  apply list_elem_of_further, list_elem_of_here.
Defined.
(** ** More on the slot key *)

Lemma window_index (t : datetime) :
  valid_time t -> seconds_of_day t / 900 = 4 * hour t + minute t / 15.
Proof.
  intros (Hh & Hm & Hs & _). unfold seconds_of_day.
  pose proof (floored_minute_range _ Hm) as [_ Hb].
  symmetry.
  apply (Z.div_unique _ _ _ (60 * (minute t - minute t / 15 * 15) + second t));
    lia.
Qed.

Lemma current_quarter_id_fields (t : datetime) (id : string) :
  valid_time t -> current_quarter_id t = Some id ->
  read2 id 0 = Some (hour t) /\ read2 id 3 = Some (minute t / 15 * 15).
Proof.
  intros Ht Hid. unfold current_quarter_id in Hid.
  rewrite (round_to_quarter_total t Ht) in Hid. injection Hid as <-.
  destruct Ht as (Hh & Hm & _).
  pose proof (floored_minute_range _ Hm) as [Hfm _].
  unfold strftime_H_M. cbn [hour minute]. split.
  - apply pad2_read2. lia.
  - change (read2 (pad2 (minute t / 15 * 15) ++ "") 0
            = Some (minute t / 15 * 15)).
    apply pad2_read2. lia.
Qed.

(** X2: rounding an instant that is already rounded changes nothing. *)
Theorem round_to_quarter_idempotent (t r : datetime) :
  round_to_quarter t = Some r -> round_to_quarter r = Some r.
Proof.
  unfold round_to_quarter, replace_msu.
  case_decide as Hrange; [| done]. intros [= <-]. cbn [minute].
  rewrite Z.div_mul by lia.
  case_decide; [reflexivity | contradiction].
Qed.

Lemma round_to_quarter_idempotent_witness :
  round_to_quarter t_13_59_59
    = Some {| year := 2024; month := 1; day := 1;
              hour := 13; minute := 45; second := 0; microsecond := 0 |} /\
  round_to_quarter {| year := 2024; month := 1; day := 1;
                      hour := 13; minute := 45; second := 0; microsecond := 0 |}
    = Some {| year := 2024; month := 1; day := 1;
              hour := 13; minute := 45; second := 0; microsecond := 0 |}.
Proof.
  split; [reflexivity |].
  apply (round_to_quarter_idempotent t_13_59_59). reflexivity.
Defined.

(** X3: the rounded instant is the start of the 15-minute window of the day
    that contains the instant: same date, a whole number of quarters after
    midnight, not after the instant and less than 900 seconds before it. *)
Theorem round_to_quarter_is_window_start (t r : datetime) :
  valid_time t -> round_to_quarter t = Some r ->
  valid_time r /\
  year r = year t /\ month r = month t /\ day r = day t /\
  seconds_of_day r = 900 * (seconds_of_day t / 900) /\
  microsecond r = 0 /\
  seconds_of_day r <= seconds_of_day t < seconds_of_day r + 900.
Proof.
  intros Ht Hr. rewrite (round_to_quarter_total t Ht) in Hr.
  injection Hr as <-. pose proof (window_index t Ht) as Hw.
  destruct Ht as (Hh & Hm & Hs & Hus).
  pose proof (floored_minute_range _ Hm) as [Hfm Hb].
  split; [unfold valid_time; cbn; lia |].
  do 3 (split; [reflexivity |]).
  assert (Hstart : seconds_of_day
            {| year := year t; month := month t; day := day t; hour := hour t;
               minute := minute t / 15 * 15; second := 0; microsecond := 0 |}
          = 900 * (seconds_of_day t / 900)).
  { rewrite Hw. unfold seconds_of_day. cbn. lia. }
  split; [exact Hstart |]. split; [reflexivity |].
  rewrite Hstart. unfold seconds_of_day in *.
  pose proof (Z.div_mod (3600 * hour t + 60 * minute t + second t) 900).
  pose proof (Z.mod_pos_bound (3600 * hour t + 60 * minute t + second t) 900).
  lia.
Qed.

Lemma round_to_quarter_is_window_start_witness :
  exists r, round_to_quarter t_13_59_59 = Some r /\
            seconds_of_day r = 900 * (seconds_of_day t_13_59_59 / 900).
Proof.
  eexists. split; [reflexivity |].
  apply (round_to_quarter_is_window_start t_13_59_59).
  - unfold valid_time; cbn; lia.
  - reflexivity.
Defined.

(** X4: the slot key names the window of the day and nothing else: two
    valid instants get the same key exactly when they lie in the same
    quarter of an hour of their day, whatever their dates are. *)
Theorem slot_key_identifies_window (a b : datetime) :
  valid_time a -> valid_time b ->
  (current_quarter_id a = current_quarter_id b
   <-> seconds_of_day a / 900 = seconds_of_day b / 900).
Proof.
  intros Ha Hb.
  rewrite (window_index a Ha), (window_index b Hb).
  assert (Hqa : 0 <= minute a / 15 < 4).
  { destruct Ha as (_ & Hm & _).
    split; [apply Z.div_pos | apply Z.div_lt_upper_bound]; lia. }
  assert (Hqb : 0 <= minute b / 15 < 4).
  { destruct Hb as (_ & Hm & _).
    split; [apply Z.div_pos | apply Z.div_lt_upper_bound]; lia. }
  split.
  - intros Heq.
    destruct (current_quarter_id a) as [id|] eqn:Hida.
    + destruct (current_quarter_id_fields a id Ha Hida) as [Hh Hm].
      symmetry in Heq.
      destruct (current_quarter_id_fields b id Hb Heq) as [Hh' Hm'].
      rewrite Hh in Hh'. rewrite Hm in Hm'. simplify_eq. lia.
    + unfold current_quarter_id in Hida.
      by rewrite (round_to_quarter_total a Ha) in Hida.
  - intros Heq.
    assert (hour a = hour b /\ minute a / 15 = minute b / 15) as [Hh Hm] by lia.
    unfold current_quarter_id.
    rewrite (round_to_quarter_total a Ha), (round_to_quarter_total b Hb).
    cbn. unfold strftime_H_M. cbn. by rewrite Hh, Hm.
Qed.

Lemma slot_key_identifies_window_witness :
  current_quarter_id t_13_59_59
    = current_quarter_id {| year := 2031; month := 7; day := 9; hour := 13;
                            minute := 45; second := 0; microsecond := 12 |}.
Proof.
  apply (slot_key_identifies_window t_13_59_59).
  - unfold valid_time; cbn; lia.
  - unfold valid_time; cbn; lia.
  - reflexivity.
Defined.

(** ** More on the selection of work items *)

(** X5: the selection loop runs one query per entry of the schedule and
    keeps every result: a user listed several times gets their item
    selected as many times. *)
Theorem selection_keeps_repeated_users (videos : gmap string dict)
    (users : list value) (u : value) (d : snapshot) :
  user_video_query videos u = [d] ->
  length (filter (fun x : snapshot => x = d) (select_videos videos users []))
  = length (filter (fun x : value => x = u) users).
Proof.
  intros Hq. rewrite select_videos_concat. simpl.
  assert (Hd : d.2 !! "uid" = Some u).
  { assert (Hin : d ∈ user_video_query videos u) by (rewrite Hq; left).
    by apply user_video_query_elem in Hin as (_ & Hu & _). }
  induction users as [|u' users IH]; [done |].
  simpl. rewrite filter_app, length_app, IH.
  destruct (decide (u' = u)) as [-> | Hne].
  - rewrite Hq, filter_cons_True by done.
    rewrite (filter_cons_True (fun x : value => x = u)) by done.
    reflexivity.
  - rewrite (filter_cons_False (fun x : value => x = u)) by done.
    rewrite (filter_none _ (user_video_query videos u')); [done |].
    intros x Hx ->. apply user_video_query_elem in Hx as (_ & Hu & _).
    congruence.
Qed.

Lemma selection_keeps_repeated_users_witness :
  length (filter (fun x : snapshot => x = doc_A2)
            (select_videos (video_submissions st_two_users)
               [VStr "alice"; VStr "bob"; VStr "alice"] []))
  = 2%nat.
Proof.
  rewrite (selection_keeps_repeated_users _ _ (VStr "alice") doc_A2).
  - reflexivity.
  - vm_cast_no_check (eq_refl [doc_A2]).
Defined.

(** ** The upload loop *)

Lemma after_chunks_nil st : after_chunks [] st = st.
Proof.
  unfold after_chunks. destruct st; simpl. by rewrite !app_nil_r.
Qed.

Lemma after_chunks_cons r rs st :
  after_chunks (r :: rs) st = after_chunks rs (after_chunks [r] st).
Proof.
  unfold after_chunks. simpl. by rewrite !app_nil_r, <- !app_assoc.
Qed.

(** One more round of the loop. *)
Lemma next_chunk_loop_again r request st :
  asks_again r = true ->
  next_chunk_loop (r :: request) st = next_chunk_loop request (after_chunks [r] st).
Proof.
  intros Hr. simpl. unfold bind, log, ret, after_chunks, record_event, add_log.
  destruct r as [[pct|] [resp|] | [cls msg | status msg]]; try done; simpl.
  all: try (simpl in Hr; rewrite Hr; simpl).
  all: by rewrite ?app_nil_r.
Qed.

Lemma next_chunk_loop_skip pre request st :
  Forall (fun r => asks_again r = true) pre ->
  next_chunk_loop (pre ++ request) st
  = next_chunk_loop request (after_chunks pre st).
Proof.
  intros Hpre. revert st. induction Hpre as [|r pre Hr _ IH]; intros st.
  - by rewrite after_chunks_nil.
  - simpl. rewrite (after_chunks_cons r pre), <- IH.
    by apply next_chunk_loop_again.
Qed.

(** X7: the upload loop has no limit on the number of rounds: however many
    retriable errors and unfinished chunks come first, the loop asks again
    after each of them (one [next_chunk] call each, nothing else) and
    returns the first final response. *)
Theorem upload_loop_retries_without_limit
    (pre : list chunk_result) status resp (rest : list chunk_result) st :
  Forall (fun r => asks_again r = true) pre ->
  next_chunk_loop (pre ++ ChunkReturn status (Some resp) :: rest) st
  = (Ret resp, after_chunks (pre ++ [ChunkReturn status (Some resp)]) st).
Proof.
  intros Hpre. rewrite (next_chunk_loop_skip pre _ st Hpre).
  simpl. unfold bind, log, ret, after_chunks, record_event, add_log.
  rewrite !map_app, !concat_app. simpl.
  destruct status as [pct|]; simpl; rewrite ?app_nil_r, <- ?app_assoc; reflexivity.
Qed.

Lemma upload_loop_retries_without_limit_witness :
  (next_chunk_loop
     [ChunkRaise (HttpError 503 "busy"); ChunkReturn (Some 40) None;
      ChunkRaise (HttpError 500 "again");
      ChunkReturn None (Some {[ "id" := VStr "yt1" ]});
      ChunkRaise (HttpError 400 "never asked")] st_two_users).1
  = Ret {[ "id" := VStr "yt1" ]}.
Proof.
  exact (f_equal fst
           (upload_loop_retries_without_limit
              [ChunkRaise (HttpError 503 "busy"); ChunkReturn (Some 40) None;
               ChunkRaise (HttpError 500 "again")] None {[ "id" := VStr "yt1" ]}
              [ChunkRaise (HttpError 400 "never asked")] st_two_users
              ltac:(repeat constructor))).
Defined.

(** X8: the first error that is not a retriable [HttpError] ends the loop:
    it propagates unchanged and [next_chunk] is not called again. *)
Theorem upload_loop_stops_at_other_error
    (pre : list chunk_result) e (rest : list chunk_result) st :
  Forall (fun r => asks_again r = true) pre ->
  asks_again (ChunkRaise e) = false ->
  next_chunk_loop (pre ++ ChunkRaise e :: rest) st
  = (Raise e, after_chunks (pre ++ [ChunkRaise e]) st).
Proof.
  intros Hpre He. rewrite (next_chunk_loop_skip pre _ st Hpre).
  simpl. unfold bind, log, ret, raise, after_chunks, record_event, add_log.
  rewrite !map_app, !concat_app. simpl.
  destruct e as [cls msg | code msg]; simpl in *.
  - rewrite ?app_nil_r, <- ?app_assoc. reflexivity.
  - rewrite He. simpl. rewrite ?app_nil_r, <- ?app_assoc. reflexivity.
Qed.

Lemma upload_loop_stops_at_other_error_witness :
  (next_chunk_loop
     [ChunkRaise (HttpError 503 "busy"); ChunkRaise (HttpError 403 "quota");
      ChunkReturn None (Some {[ "id" := VStr "yt1" ]})] st_two_users).1
  = Raise (HttpError 403 "quota").
Proof.
  exact (f_equal fst
           (upload_loop_stops_at_other_error
              [ChunkRaise (HttpError 503 "busy")] (HttpError 403 "quota")
              [ChunkReturn None (Some {[ "id" := VStr "yt1" ]})] st_two_users
              ltac:(repeat constructor) eq_refl)).
Defined.

(** ** Credentials *)

Section CredentialCases.

Variable C : collaborators.

(** X9: [get_refreshed_credentials] asks for a refresh only when one is
    due (the stored document and both client settings are there, the
    credentials built are expired and carry a refresh token), and at most
    once: a refresh is the first call it records, and the only other call
    it can record is the deletion of the credential after it.  When it
    returns, a due refresh did not raise, and what it returns is built from
    the stored refresh token, the fixed token URI and the two client
    settings of the environment. *)
Theorem get_refreshed_credentials_outcome uid st :
  exists evs,
    trace (get_refreshed_credentials C uid st).2 = (trace st ++ evs)%list /\
    (evs <> [] ->
     refresh_due C st uid = true /\
     exists tail, evs = EvRefresh uid (creds_refresh C (trace st) uid) :: tail /\
                  Forall (fun ev => ~ is_refresh ev) tail) /\
    (forall creds, (get_refreshed_credentials C uid st).1 = Ret creds ->
                   built_credentials st uid = Some creds /\
                   (refresh_due C st uid = true ->
                    creds_refresh C (trace st) uid = None)).
Proof.
  unfold get_refreshed_credentials, refresh_due, built_credentials, bind,
    try_except, token_doc_get, os_environ, expired, refresh, log,
    token_ref_delete, raise, ret.
  simpl.
  destruct (stored_token (user_tokens st) uid) as [token_data|]; simpl.
  2: { exists []. rewrite app_nil_r. by repeat split. }
  destruct (environ st !! "GOOGLE_CLIENT_ID") as [id|]; simpl.
  2: { exists []. rewrite app_nil_r. by repeat split. }
  destruct (environ st !! "GOOGLE_CLIENT_SECRET") as [secret|]; simpl.
  2: { exists []. rewrite app_nil_r. by repeat split. }
  destruct (creds_expired C (trace st) uid
            && truthy (dict_get token_data "refreshToken")) eqn:Hdue; simpl.
  2: { exists []. rewrite app_nil_r. split; [done |]. split; [done |].
       by intros creds [= <-]. }
  destruct (creds_refresh C (trace st) uid) as [e|] eqn:Href; simpl.
  - destruct (str_contains "invalid_grant" (str_of_exn e)); simpl.
    + destruct (delete_fault C _ uid) as [e1|]; simpl.
      * exists [EvRefresh uid (Some e); EvTokenDelete uid (Some e1)].
        split; [by rewrite <- app_assoc |]. split; [| done].
        intros _. split; [done |]. eexists. split; [done |].
        constructor; [by intros [] | constructor].
      * exists [EvRefresh uid (Some e); EvTokenDelete uid None].
        split; [destruct (token_key uid); simpl; by rewrite <- app_assoc |].
        split; [| done].
        intros _. split; [done |]. eexists. split; [done |].
        constructor; [by intros [] | constructor].
    + exists [EvRefresh uid (Some e)]. split; [done |]. split; [| done].
      intros _. split; [done |]. eexists. split; [done |]. constructor.
  - exists [EvRefresh uid None]. split; [done |]. split.
    + intros _. split; [done |]. eexists. split; [done |]. constructor.
    + by intros creds [= <-].
Qed.

(** X10: a missing client setting makes [get_refreshed_credentials] raise
    the [KeyError] of the environment lookup, whose text is the quoted name
    of the variable; nothing is requested, logged or deleted. *)
Theorem missing_client_setting_raises_key_error uid st token_data :
  stored_token (user_tokens st) uid = Some token_data ->
  (environ st !! "GOOGLE_CLIENT_ID" = None ->
   get_refreshed_credentials C uid st
   = (Raise (PyExc "KeyError" "'GOOGLE_CLIENT_ID'"), st)) /\
  (is_Some (environ st !! "GOOGLE_CLIENT_ID") ->
   environ st !! "GOOGLE_CLIENT_SECRET" = None ->
   get_refreshed_credentials C uid st
   = (Raise (PyExc "KeyError" "'GOOGLE_CLIENT_SECRET'"), st)).
Proof.
  intros Htok.
  unfold get_refreshed_credentials, bind, token_doc_get, os_environ.
  rewrite Htok. split.
  - by intros ->.
  - intros [id ->] ->. reflexivity.
Qed.

End CredentialCases.

Lemma missing_client_setting_raises_key_error_witness :
  get_refreshed_credentials all_fine (VStr "alice") st_without_settings
  = (Raise (PyExc "KeyError" "'GOOGLE_CLIENT_ID'"), st_without_settings).
Proof.
  apply (missing_client_setting_raises_key_error all_fine (VStr "alice")
           st_without_settings {[ "refreshToken" := VStr "rt-alice" ]}).
  - vm_cast_no_check (eq_refl (Some ({[ "refreshToken" := VStr "rt-alice" ]} : dict))).
  - reflexivity.
Defined.

(** ** The upload request *)

Section UploadRequest.

Variable C : collaborators.




End UploadRequest.

(** ** Whole runs *)

Lemma replay_tokens_subseteq (tokens : gmap string dict) (evs : list event) :
  replay_tokens tokens evs ⊆ tokens.
Proof.
  revert tokens. induction evs as [|ev evs IH]; intros tokens; [done |].
  change (replay_tokens tokens (ev :: evs))
    with (replay_tokens (replay_token_event tokens ev) evs).
  etransitivity; [apply IH |].
  destruct ev as [| uid [e|] | | | | |]; simpl; try done.
  destruct (token_key uid); [apply delete_subseteq | done].
Qed.

Lemma write_shape_fields ev id data now raised k :
  ev = EvUpdate id data now raised -> write_shape ev ->
  (k ∉ lifecycle_fields -> data !! k = None) /\
  exists s, s ∈ written_statuses /\ data !! "status" = Some (Lit s).
Proof.
  intros -> [-> | [[v ->] | [msg ->]]].
  - split.
    + intros Hk. unfold processing_data. simpl.
      rewrite !lookup_insert_ne; [done | |];
        intros <-; apply Hk; unfold lifecycle_fields; set_solver.
    + exists (VStr "processing"). split; [unfold written_statuses; set_solver | done].
  - split.
    + intros Hk. unfold published_data. simpl.
      rewrite !lookup_insert_ne; [done | | | |];
        intros <-; apply Hk; unfold lifecycle_fields; set_solver.
    + exists (VStr "published"). split; [unfold written_statuses; set_solver | done].
  - split.
    + intros Hk. unfold error_data. simpl.
      rewrite !lookup_insert_ne; [done | | |];
        intros <-; apply Hk; unfold lifecycle_fields; set_solver.
    + exists (VStr "error"). split; [unfold written_statuses; set_solver | done].
Qed.

(** What one recorded call of the right shape does to a document. *)
Lemma replay_event_lifecycle vs ev id d' :
  write_shape ev -> replay_event vs ev !! id = Some d' ->
  exists d, vs !! id = Some d /\
    (forall k, k ∉ lifecycle_fields -> d' !! k = d !! k) /\
    (d' = d \/ exists s, s ∈ written_statuses /\ d' !! "status" = Some s).
Proof.
  intros Hshape Hd'.
  destruct ev as [id0 data now [e|] | | | | | |]; simpl in Hd';
    try (exists d'; split; [done |]; split; [done | by left]).
  destruct (vs !! id0) as [d0|] eqn:Hd0;
    [| exists d'; split; [done |]; split; [done | by left]].
  destruct (decide (id0 = id)) as [-> | Hne].
  - rewrite lookup_insert_eq in Hd'. injection Hd' as <-.
    exists d0. split; [done |]. split.
    + intros k Hk. rewrite merge_fields_lookup.
      destruct (write_shape_fields _ _ _ _ _ k eq_refl Hshape) as [Hnone _].
      by rewrite (Hnone Hk).
    + right.
      destruct (write_shape_fields _ _ _ _ _ "status" eq_refl Hshape)
        as [_ (s & Hs & Hdata)].
      exists s. split; [done |]. by rewrite merge_fields_lookup, Hdata.
  - rewrite lookup_insert_ne in Hd' by done.
    exists d'. split; [done |]. split; [done | by left].
Qed.

Lemma replay_lifecycle vs evs id d' :
  Forall write_shape evs -> replay vs evs !! id = Some d' ->
  exists d, vs !! id = Some d /\
    (forall k, k ∉ lifecycle_fields -> d' !! k = d !! k) /\
    (d' = d \/ exists s, s ∈ written_statuses /\ d' !! "status" = Some s).
Proof.
  intros Hall. revert vs. induction Hall as [|ev evs Hev _ IH]; intros vs Hd'.
  - exists d'. split; [done |]. split; [done | by left].
  - rewrite replay_cons in Hd'.
    destruct (IH _ Hd') as (d1 & Hd1 & Hk1 & Hs1).
    destruct (replay_event_lifecycle _ _ _ _ Hev Hd1) as (d & Hd & Hk & Hs).
    exists d. split; [done |]. split.
    + intros k Hnot. by rewrite Hk1, Hk.
    + destruct Hs1 as [-> | ?]; [exact Hs | by right].
Qed.

Section WholeRun.

Variable C : collaborators.

Lemma process_queue_keeps_schedules now_utc :
  respects (keeps schedules) (process_queue C now_utc).
Proof. unfold process_queue. script_walk idtac. Qed.

Lemma process_queue_keeps_environ now_utc :
  respects (keeps environ) (process_queue C now_utc).
Proof. unfold process_queue. script_walk idtac. Qed.

(** X12: what a run never does: it leaves the schedules and the
    environment as they are, creates and deletes no submission, and stores
    no credential (credentials can only disappear). *)
Theorem run_preserves_configuration now_utc st :
  schedules (process_queue C now_utc st).2 = schedules st /\
  environ (process_queue C now_utc st).2 = environ st /\
  dom (video_submissions (process_queue C now_utc st).2)
    = dom (video_submissions st) /\
  user_tokens (process_queue C now_utc st).2 ⊆ user_tokens st.
Proof.
  split; [apply process_queue_keeps_schedules |].
  split; [apply process_queue_keeps_environ |].
  split.
  - by destruct (process_queue_writes_existing C now_utc st) as (evs & _ & _ & ?).
  - destruct (process_queue_tracks C now_utc st) as (evs & _ & _ & _ & ->).
    apply replay_tokens_subseteq.
Qed.

(** X13: a run writes nothing but the lifecycle fields: every submission is
    still there afterwards, with all its other fields (owner, title, source
    address, description, submission time) as they were, and with its
    status either untouched or one of processing, published and error;
    no submission is ever put back to queued. *)
Theorem run_writes_lifecycle_fields_only now_utc st id d' :
  video_submissions (process_queue C now_utc st).2 !! id = Some d' ->
  exists d,
    video_submissions st !! id = Some d /\
    (forall k, k ∉ lifecycle_fields -> d' !! k = d !! k) /\
    (d' = d \/ exists s, s ∈ written_statuses /\ d' !! "status" = Some s).
Proof.
  destruct (process_queue_tracks C now_utc st) as (evs & _ & Hall & -> & _).
  by apply replay_lifecycle.
Qed.

End WholeRun.

Lemma run_writes_lifecycle_fields_only_witness :
  exists d' d,
    video_submissions (process_queue fetch_fails t_13_07_00 st_two_users).2
      !! "vidA2" = Some d' /\
    video_submissions st_two_users !! "vidA2" = Some d /\
    d' !! "title" = d !! "title".
Proof.
  assert (H : exists d', video_submissions
                (process_queue fetch_fails t_13_07_00 st_two_users).2
              !! "vidA2" = Some d')
    by (vm_compute; eexists; reflexivity).
  destruct H as [d' H].
  destruct (run_writes_lifecycle_fields_only fetch_fails t_13_07_00
              st_two_users "vidA2" d' H) as (d & Hd & Hk & _).
  exists d', d. split; [exact H |]. split; [exact Hd |].
  apply Hk. unfold lifecycle_fields. intros Hin.
  repeat (apply elem_of_cons in Hin as [? | Hin]; [discriminate |]).
  by apply elem_of_nil in Hin.
Defined.

Section RunShape.

Variable C : collaborators.

(** The two ways a run goes once the slot is known: it stops after the
    selection, or it enters the loop with the selection. *)
Lemma process_queue_run now_utc st slot :
  current_quarter_id now_utc = Some slot ->
  exists st1,
    trace st1 = trace st /\ video_submissions st1 = video_submissions st /\
    user_tokens st1 = user_tokens st /\ files st1 = files st /\
    video_path st1 = None /\
    process_queue C now_utc st =
      match selected st slot with
      | [] => (Ret tt, add_log "INFO" (idle_message st slot) st1)
      | items =>
          with_temporary_directory C
            (fun temp_dir => for_each (process_video C temp_dir) items) st1
      end.
Proof.
  intros Hslot. unfold process_queue, selected, idle_message, bind, log, ret.
  rewrite Hslot. simpl.
  destruct (schedules st !! slot) as [sd|]; simpl.
  2: { eexists. repeat (split; [| try reflexivity]); reflexivity. }
  destruct (default [] (sched_users sd)) as [|u users] eqn:Husers.
  { eexists. repeat (split; [| try reflexivity]); reflexivity. }
  unfold cap_users.
  destruct (decide (30 < length (u :: users))%nat); simpl;
    destruct (select_videos _ _ _) as [|d items];
    eexists; repeat (split; [| try reflexivity]); reflexivity.
Qed.

(** X14: a run that selects nothing (no schedule for the slot, no user
    scheduled, or no queued item for any of them) writes nothing: it issues
    no write to the store, no download, no refresh or deletion of a
    credential, no upload request and no file removal, and it leaves the
    submissions, the credentials and the files as they were. *)
Theorem idle_run_changes_nothing now_utc st slot :
  current_quarter_id now_utc = Some slot ->
  selected st slot = [] ->
  trace (process_queue C now_utc st).2 = trace st /\
  video_submissions (process_queue C now_utc st).2 = video_submissions st /\
  user_tokens (process_queue C now_utc st).2 = user_tokens st /\
  files (process_queue C now_utc st).2 = files st.
Proof.
  intros Hslot Hsel.
  destruct (process_queue_run now_utc st slot Hslot)
    as (st1 & Htr & Hvs & Htok & Hfiles & _ & ->).
  rewrite Hsel. simpl. by repeat split.
Qed.

End RunShape.

Lemma idle_run_changes_nothing_witness :
  trace (process_queue all_fine t_13_59_59 st_two_users).2 = [] /\
  video_submissions (process_queue all_fine t_13_59_59 st_two_users).2
  = video_submissions st_two_users.
Proof.
  destruct (idle_run_changes_nothing all_fine t_13_59_59 st_two_users "13_45"
              eq_refl eq_refl) as (Htr & Hvs & _).
  split; [exact Htr | exact Hvs].
Defined.

(** ** Temporary files *)



Section TemporaryFiles.

Variable C : collaborators.




End TemporaryFiles.


(** ** The order of the attempts *)

Lemma processing_ids_app (e1 e2 : list event) :
  processing_ids (e1 ++ e2) = (processing_ids e1 ++ processing_ids e2)%list.
Proof. apply omap_app. Qed.

Lemma processing_ids_processing id n raised evs :
  processing_ids (EvUpdate id processing_data n raised :: evs)
  = id :: processing_ids evs.
Proof. unfold processing_ids. simpl. by rewrite decide_True. Qed.

Lemma processing_ids_other_write id data n raised evs :
  data <> processing_data ->
  processing_ids (EvUpdate id data n raised :: evs) = processing_ids evs.
Proof. intros Hne. unfold processing_ids. simpl. by rewrite decide_False. Qed.

Lemma processing_ids_no_update evs :
  Forall (fun ev => forall id data n raised, ev <> EvUpdate id data n raised) evs ->
  processing_ids evs = [].
Proof.
  induction 1 as [|ev evs Hev _ IH]; [done |].
  destruct ev as [id data n raised| | | | | |];
    [by destruct (Hev id data n raised) | ..]; exact IH.
Qed.

Lemma processing_ids_upload title description evs :
  Forall (upload_event title description) evs -> processing_ids evs = [].
Proof.
  intros Hall. apply processing_ids_no_update.
  eapply Forall_impl; [exact Hall |]. by intros [].
Qed.

Lemma processing_ids_cleanup tail : cleanup_tail tail -> processing_ids tail = [].
Proof. by intros [-> | [p ->]]. Qed.

Section AttemptOrder.

Variable C : collaborators.

(** The history of one item starts with the write that marks it
    [processing], and contains no other such write. *)
Lemma process_video_first_call temp_dir doc st r st' evs :
  process_video C temp_dir doc st = (r, st') ->
  trace st' = (trace st ++ evs)%list ->
  processing_ids evs = [doc.1] /\
  exists n raised rest, evs = EvUpdate doc.1 processing_data n raised :: rest.
Proof.
  intros Hrun Htr.
  apply process_video_spec in Hrun
    as (evs0 & rh & tail & Htr0 & Hshape & Htail & _).
  rewrite Htr in Htr0. apply app_inv_head in Htr0. subst evs.
  rewrite processing_ids_app, (processing_ids_cleanup tail Htail), app_nil_r.
  inversion Hshape as [ e n0 n1 r1 | n0 opts e n1 r1 Hout
                      | n0 opts evs_up e n1 r1 Hout [Hup _]
                      | n0 opts evs_up Hout Hup Hnr
                      | n0 opts evs_up v n2 e n1 r1 Hout Hret
                      | n0 opts evs_up v n2 Hout Hret ]; subst evs0 rh.
  all: try (apply upload_returned_events in Hret as Hup).
  all: split; [| simpl; eauto].
  all: cbn [app]; rewrite processing_ids_processing; f_equal.
  all: try change (processing_ids (EvDownload ?u ?o ?x :: ?l))
         with (processing_ids l).
  all: rewrite ?processing_ids_app, ?(processing_ids_upload _ _ _ Hup).
  all: cbn [app].
  all: repeat (rewrite processing_ids_other_write
                 by first [ apply not_eq_sym, processing_ne_error
                          | apply not_eq_sym, processing_ne_published ]).
  all: reflexivity.
Qed.

Lemma for_each_attempt_order temp_dir items st r st' evs :
  for_each (process_video C temp_dir) items st = (r, st') ->
  trace st' = (trace st ++ evs)%list ->
  processing_ids evs `prefix_of` items.*1 /\
  (r = Ret tt -> processing_ids evs = items.*1) /\
  (forall d rest, items = d :: rest ->
     exists n raised tl, evs = EvUpdate d.1 processing_data n raised :: tl).
Proof.
  revert st evs. induction items as [|doc items IH]; intros st evs Hrun Htr.
  - injection Hrun as <- <-.
    assert (evs = []) as ->.
    { apply (app_inv_head (trace st)). by rewrite app_nil_r. }
    split; [done |]. split; [done |]. by intros d rest [=].
  - simpl in Hrun. unfold bind in Hrun.
    destruct (process_video C temp_dir doc st) as [r1 st1] eqn:Hitem.
    pose proof (process_video_emits C temp_dir doc st) as (evs1 & Htr1 & _).
    rewrite Hitem in Htr1. simpl in Htr1.
    destruct (process_video_first_call _ _ _ _ _ _ Hitem Htr1)
      as (Hids & n & raised & tl & Hhead).
    assert (Hcases : (r1 = Ret tt /\ for_each (process_video C temp_dir) items st1
                                     = (r, st'))
                     \/ (r1 <> Ret tt /\ r = r1 /\ st' = st1)).
    { destruct r1 as [[] | e |]; [by left | |];
        injection Hrun as <- <-; by right. }
    destruct Hcases as [[-> Hrest] | (Hne & -> & ->)].
    + pose proof (respects_for_each (emits (fun _ => True))
                    (process_video C temp_dir) items
                    (fun x _ => respects_mono _ _ _ (fun _ _ => I)
                                  (process_video_emits C temp_dir x)) st1)
        as (evs2 & Htr2 & _).
      rewrite Hrest in Htr2. simpl in Htr2.
      assert (evs = (evs1 ++ evs2)%list) as ->.
      { apply (app_inv_head (trace st)). by rewrite <- Htr, Htr2, Htr1, app_assoc. }
      destruct (IH st1 evs2 Hrest Htr2) as (Hpre & Hall & _).
      rewrite processing_ids_app, Hids. simpl.
      split; [by apply prefix_cons |].
      split; [intros Hr; by rewrite (Hall Hr) |].
      intros d rest [= <- <-]. rewrite Hhead. simpl. eauto.
    + assert (evs = evs1) as ->.
      { apply (app_inv_head (trace st)). by rewrite <- Htr, Htr1. }
      rewrite Hids. simpl.
      split; [apply prefix_cons, prefix_nil |].
      split; [done |]. intros d rest [= <- <-]. eauto.
Qed.

(** X16: a run attempts the entries of the selection one after the other,
    in the order of the selection and one attempt per entry (an item that
    was selected twice, for a user scheduled twice, is attempted twice):
    the documents marked processing, in the order of these writes, are a
    prefix of the selection, and all of it when the run returns; and no
    write, download, refresh, upload or removal is made before the write
    that marks the first selected entry processing. *)
Theorem items_attempted_in_selection_order now_utc st slot evs :
  current_quarter_id now_utc = Some slot ->
  trace (process_queue C now_utc st).2 = (trace st ++ evs)%list ->
  processing_ids evs `prefix_of` (selected st slot).*1 /\
  ((process_queue C now_utc st).1 = Ret tt ->
   processing_ids evs = (selected st slot).*1) /\
  (forall d rest, selected st slot = d :: rest ->
     exists n raised tl, evs = EvUpdate d.1 processing_data n raised :: tl).
Proof.
  intros Hslot.
  destruct (process_queue_run C now_utc st slot Hslot)
    as (st1 & Htr & _ & _ & _ & _ & ->).
  destruct (selected st slot) as [|d items] eqn:Hsel; cbv beta iota.
  { simpl. intros Hevs.
    assert (evs = []) as ->.
    { apply (app_inv_head (trace st)). by rewrite app_nil_r, <- Hevs. }
    split; [done |]. split; [done |]. by intros d rest [=]. }
  unfold with_temporary_directory, bind, try_finally.
  destruct (for_each (process_video C (mkdtemp C (trace st1))) (d :: items) st1)
    as [rl stl] eqn:Hloop.
  intros Hevs.
  assert (Htrl : trace stl = (trace st1 ++ evs)%list).
  { rewrite Htr. by destruct rl as [[] | e |]. }
  destruct (for_each_attempt_order _ _ _ _ _ _ Hloop Htrl) as (Hpre & Hall & Hhd).
  split; [exact Hpre |]. split; [| exact Hhd].
  intros Hr. apply Hall. by destruct rl as [[] | e |].
Qed.

End AttemptOrder.

Lemma items_attempted_in_selection_order_witness :
  processing_ids (trace (process_queue fetch_fails t_13_07_00 st_two_users).2)
  = ["vidA2"; "vidB"].
Proof.
  assert (Hsel : (selected st_two_users "13_00").*1 = ["vidA2"; "vidB"])
    by (vm_cast_no_check (eq_refl ["vidA2"; "vidB"])).
  rewrite <- Hsel.
  apply (items_attempted_in_selection_order fetch_fails t_13_07_00 st_two_users
           "13_00" _ eq_refl (trace_from_start st_two_users _ eq_refl)).
  vm_cast_no_check (eq_refl (Ret tt)).
Defined.

(** ** Where a processed item ends *)

Lemma replay_event_dom vs ev : dom (replay_event vs ev) = dom vs.
Proof.
  destruct ev as [id data n [e|] | | | | | |]; simpl; try done.
  destruct (vs !! id) as [d|] eqn:Hd; [| done].
  by eapply dom_insert_existing.
Qed.

Lemma replay_dom vs evs : dom (replay vs evs) = dom vs.
Proof.
  revert vs. induction evs as [|ev evs IH]; intros vs; [done |].
  by rewrite replay_cons, IH, replay_event_dom.
Qed.

Lemma replay_snoc_write vs pre id data n :
  is_Some (vs !! id) ->
  exists d, replay vs (pre ++ [EvUpdate id data n None]) !! id
            = Some (merge_fields n data d).
Proof.
  intros Hex. rewrite replay_app.
  assert (Hd : is_Some (replay vs pre !! id)).
  { apply elem_of_dom. rewrite replay_dom. by apply elem_of_dom. }
  destruct Hd as [d Hd]. exists d. simpl. rewrite Hd.
  apply lookup_insert_eq.
Qed.

(** A history of the [try] and [except] blocks that ends normally ends with
    a write that did not raise, of the published or of the error payload. *)
Lemma returned_shape_last_write temp_dir doc evs :
  attempt_shape temp_dir doc evs (Ret tt) ->
  exists pre data n,
    evs = (pre ++ [EvUpdate doc.1 data n None])%list /\
    ((exists v, data = published_data v) \/ (exists msg, data = error_data msg)).
Proof.
  intros Hshape.
  inversion Hshape as [ e n0 n1 r1 Hevs Hout
                      | n0 opts e n1 r1 Hopt Hevs Hout
                      | n0 opts evs_up e n1 r1 Hopt Hup Hevs Hout
                      | | n0 opts evs_up v n2 e n1 r1 Hopt Hret Hevs Hout
                      | n0 opts evs_up v n2 Hopt Hret Hevs Hout ].
  1-4: destruct r1 as [e1|]; [discriminate Hout |].
  all: subst evs.
  - exists [EvUpdate doc.1 processing_data n0 (Some e)],
      (error_data (str_of_exn e)), n1. eauto.
  - exists [EvUpdate doc.1 processing_data n0 None;
            EvDownload (item_url doc) opts (Some e)],
      (error_data (str_of_exn e)), n1. eauto.
  - exists ([EvUpdate doc.1 processing_data n0 None;
             EvDownload (item_url doc) opts None] ++ evs_up)%list,
      (error_data (str_of_exn e)), n1.
    split; [by rewrite <- app_assoc | eauto].
  - exists ([EvUpdate doc.1 processing_data n0 None;
             EvDownload (item_url doc) opts None] ++ evs_up
            ++ [EvUpdate doc.1 (published_data v) n2 (Some e)])%list,
      (error_data (str_of_exn e)), n1.
    split; [by rewrite <- !app_assoc | eauto].
  - exists ([EvUpdate doc.1 processing_data n0 None;
             EvDownload (item_url doc) opts None] ++ evs_up)%list,
      (published_data v), n2.
    split; [by rewrite <- app_assoc | eauto].
Qed.

Section Settled.

Variable C : collaborators.

(** X17: an item whose processing returns normally is settled: its
    document is in status published, with the video id in [newVideoId], or
    in status error, with a text in [errorMessage]; it is never left
    queued or processing.  (An item is left processing only when its
    processing raises or does not end.) *)
Theorem returning_item_is_settled temp_dir doc st st' :
  process_video C temp_dir doc st = (Ret tt, st') ->
  exists d,
    video_submissions st' !! doc.1 = Some d /\
    ((d !! "status" = Some (VStr "published") /\ is_Some (d !! "newVideoId") /\
      d !! "publishedAt" = d !! "updatedAt")
     \/ (d !! "status" = Some (VStr "error") /\
         exists msg, d !! "errorMessage" = Some (VStr msg))).
Proof.
  intros Hrun. pose proof Hrun as Hspec.
  apply process_video_spec in Hspec
    as (evs & rh & tail & Htr & Hshape & Htail & Hvs & _ & _ & _ & Hhang & Hfin).
  assert (rh = Ret tt) as ->.
  { destruct (outcome_hang_dec rh) as [Hh | Hnh]; [by destruct (Hhang Hh) |].
    apply Hfin in Hnh. destruct (path_at_cleanup _ _ _ _).
    - by destruct Hnh as [<- _].
    - by destruct Hnh as (_ & msg & ?). }
  destruct (returned_shape_last_write _ _ _ Hshape)
    as (pre & data & n & -> & Hdata).
  assert (Hex : is_Some (video_submissions st !! doc.1)).
  { eapply successful_write_exists; [exact Hrun | exact Htr |].
    apply elem_of_app. left. apply elem_of_app. right. left. }
  rewrite replay_tail in Hvs by done.
  destruct (replay_snoc_write _ pre _ data n Hex) as (d0 & Hd0).
  rewrite <- Hvs in Hd0. eexists. split; [exact Hd0 |].
  destruct Hdata as [[v ->] | [msg ->]].
  - left. rewrite !merge_fields_lookup. simpl. eauto.
  - right. rewrite !merge_fields_lookup. simpl. eauto.
Qed.

End Settled.

Lemma returning_item_is_settled_witness :
  exists d,
    video_submissions (process_video fetch_fails "/tmp/run" doc_A2 st_in_loop).2
      !! "vidA2" = Some d /\
    ((d !! "status" = Some (VStr "published") /\ is_Some (d !! "newVideoId") /\
      d !! "publishedAt" = d !! "updatedAt")
     \/ (d !! "status" = Some (VStr "error") /\
         exists msg, d !! "errorMessage" = Some (VStr msg))).
Proof.
  apply (returning_item_is_settled fetch_fails "/tmp/run" doc_A2 st_in_loop).
  assert (Hr : (process_video fetch_fails "/tmp/run" doc_A2 st_in_loop).1 = Ret tt)
    by (vm_cast_no_check (eq_refl (@Ret unit tt))).
  rewrite <- Hr. apply run_eq.
Defined.

(** ** Items of users without a stored credential *)

Section NoCredential.

Variable C : collaborators.

Lemma upload_without_token uid path title description st :
  stored_token (user_tokens st) uid = None ->
  upload_to_youtube C uid path title description st
  = (Raise (PyExc "Exception" (missing_token_message uid)), st).
Proof.
  intros Htok.
  unfold upload_to_youtube, get_refreshed_credentials, bind, token_doc_get.
  by rewrite Htok.
Qed.

Lemma attempt_without_token temp_dir doc st rh sth :
  stored_token (user_tokens st) (item_uid doc) = None ->
  try_except (process_video_try C temp_dir doc) (process_video_except C doc) st
    = (rh, sth) ->
  exists evs,
    trace sth = (trace st ++ evs)%list /\
    ((exists e n0 n1 r1,
        evs = [EvUpdate doc.1 processing_data n0 (Some e);
               EvUpdate doc.1 (error_data (str_of_exn e)) n1 r1]) \/
     (exists e n0 opts n1 r1,
        evs = [EvUpdate doc.1 processing_data n0 None;
               EvDownload (item_url doc) opts (Some e);
               EvUpdate doc.1 (error_data (str_of_exn e)) n1 r1]) \/
     (exists n0 opts n1 r1,
        evs = [EvUpdate doc.1 processing_data n0 None;
               EvDownload (item_url doc) opts None;
               EvUpdate doc.1
                 (error_data (missing_token_message (item_uid doc))) n1 r1])).
Proof.
  intros Htok. unfold try_except. intros Hrun.
  destruct (process_video_try C temp_dir doc st) as [rb stb] eqn:Htry.
  unfold process_video_try, bind in Htry.
  destruct (doc_update C doc.1 processing_data st) as [r0 st_w] eqn:Hw.
  apply doc_update_cases in Hw
    as [(e0 & -> & -> & _) | (d0 & -> & _ & _ & ->)].
  - injection Htry as <- <-.
    apply except_cases in Hrun as (n1 & r1 & Htr & _).
    eexists. split; [rewrite Htr; simpl; by rewrite <- app_assoc |].
    left. eauto 10.
  - unfold assign_video_path in Htry. simpl in Htry.
    destruct (download_video C _ _ _ _) as [rd st_d] eqn:Hd.
    apply download_video_cases in Hd
      as (opts & raised & _ & Htrd & -> & _ & Htokd & _).
    simpl in Htrd, Htokd.
    destruct raised as [e|].
    + injection Htry as <- <-.
      apply except_cases in Hrun as (n1 & r1 & Htr & _).
      eexists. split; [rewrite Htr, Htrd; by rewrite <- !app_assoc |].
      right. left. unfold item_url. eauto 10.
    + rewrite upload_without_token in Htry by (by rewrite Htokd).
      injection Htry as <- <-.
      apply except_cases in Hrun as (n1 & r1 & Htr & _).
      eexists. split; [rewrite Htr, Htrd; by rewrite <- !app_assoc |].
      right. right. unfold item_url. eauto 10.
Qed.

(** X18: the credentials are looked at only after the download: for an
    item whose user has no stored credential the video is still fetched;
    when the fetch succeeds the item fails with the text
    [Refresh token missing for user <uid>.] as its error message, and in no
    case is a refresh or an upload request made. *)
Theorem item_without_credential_fails_after_download
    temp_dir doc st r st' evs :
  process_video C temp_dir doc st = (r, st') ->
  trace st' = (trace st ++ evs)%list ->
  stored_token (user_tokens st) (item_uid doc) = None ->
  Forall (fun ev => ~ is_insert ev /\ ~ is_refresh ev /\ ~ is_next_chunk ev) evs /\
  forall opts,
    EvDownload (item_url doc) opts None ∈ evs ->
    exists n0 n1 r1 tail,
      evs = ([EvUpdate doc.1 processing_data n0 None;
              EvDownload (item_url doc) opts None;
              EvUpdate doc.1
                (error_data (missing_token_message (item_uid doc))) n1 r1]
             ++ tail)%list /\
      cleanup_tail tail.
Proof.
  intros Hrun Htr Htok.
  unfold process_video, bind, log in Hrun. simpl in Hrun.
  apply try_finally_cases in Hrun as (rh & sth & Hatt & Hfin).
  apply attempt_without_token in Hatt as (evs0 & Htr0 & Hshape); [| exact Htok].
  simpl in Htr0.
  assert (Htail : exists tail, trace st' = (trace sth ++ tail)%list
                               /\ cleanup_tail tail).
  { destruct Hfin as [(_ & _ & ->) | (_ & rf & Hf & _)].
    - exists []. split; [by rewrite app_nil_r | by left].
    - apply finally_cases in Hf
        as [(_ & -> & _) | (p & _ & _ & _ & _ & _ & _ & _ & [-> | ->])].
      + exists []. split; [by rewrite app_nil_r | by left].
      + exists []. split; [by rewrite app_nil_r | by left].
      + exists [EvRemove p]. split; [done | right; eauto]. }
  destruct Htail as (tail & Htr' & Htail).
  assert (evs = (evs0 ++ tail)%list) as ->.
  { apply (app_inv_head (trace st)). by rewrite <- Htr, Htr', Htr0, app_assoc. }
  assert (Hquiet : Forall (fun ev => ~ is_insert ev /\ ~ is_refresh ev
                                     /\ ~ is_next_chunk ev) tail).
  { destruct Htail as [-> | [p ->]]; repeat constructor; by intros []. }
  destruct Hshape as [(e & n0 & n1 & r1 & ->)
                     | [(e & n0 & opts0 & n1 & r1 & ->)
                       | (n0 & opts0 & n1 & r1 & ->)]].
  - split; [repeat constructor; (by intros [] || exact Hquiet) |].
    intros opts Hin. exfalso.
    repeat (apply elem_of_cons in Hin as [Hin | Hin]; [discriminate |]).
    destruct Htail as [-> | [p ->]]; simpl in Hin;
      repeat (apply elem_of_cons in Hin as [Hin | Hin]; [discriminate |]);
      by apply elem_of_nil in Hin.
  - split; [repeat constructor; (by intros [] || exact Hquiet) |].
    intros opts Hin. exfalso.
    repeat (apply elem_of_cons in Hin as [Hin | Hin]; [discriminate |]).
    destruct Htail as [-> | [p ->]]; simpl in Hin;
      repeat (apply elem_of_cons in Hin as [Hin | Hin]; [discriminate |]);
      by apply elem_of_nil in Hin.
  - split; [repeat constructor; (by intros [] || exact Hquiet) |].
    intros opts Hin.
    assert (opts = opts0) as ->.
    { apply elem_of_cons in Hin as [Hin | Hin]; [discriminate |].
      apply elem_of_cons in Hin as [Hin | Hin]; [by injection Hin |].
      apply elem_of_cons in Hin as [Hin | Hin]; [discriminate |].
      destruct Htail as [-> | [p ->]]; simpl in Hin;
        repeat (apply elem_of_cons in Hin as [Hin | Hin]; [discriminate |]);
        by apply elem_of_nil in Hin. }
    eauto 10.
Qed.

End NoCredential.

Lemma item_without_credential_fails_after_download_witness :
  exists n0 n1 r1 tail,
    trace (process_video all_fine "/tmp/run" doc_A2 st_no_tokens).2
    = ([EvUpdate "vidA2" processing_data n0 None;
        EvDownload (item_url doc_A2)
          (download_opts "/tmp/run/vidA2.mp4" None) None;
        EvUpdate "vidA2"
          (error_data "Refresh token missing for user alice.") n1 r1]
       ++ tail)%list.
Proof.
  assert (Hdl : trace (process_video all_fine "/tmp/run" doc_A2 st_no_tokens).2
                !! 1%nat
                = Some (EvDownload (item_url doc_A2)
                          (download_opts "/tmp/run/vidA2.mp4" None) None))
    by (vm_cast_no_check
          (eq_refl (Some (EvDownload (item_url doc_A2)
                            (download_opts "/tmp/run/vidA2.mp4" None) None)))).
  destruct (item_without_credential_fails_after_download all_fine "/tmp/run"
              doc_A2 st_no_tokens _ _ _ (run_eq _ _)
              (trace_from_start st_no_tokens _ eq_refl) eq_refl) as [_ Hfail].
  destruct (Hfail _ (list_elem_of_lookup_2 _ _ _ Hdl))
    as (n0 & n1 & r1 & tail & Htr & _).
  exists n0, n1, r1, tail. exact Htr.
Defined.

(** ** Start-up *)

Section Startup.

Variable C : collaborators.
Variable admin_setup : string -> option exn.

(** X19: [initialize_firebase] never lets an exception out: it returns
    when the Admin SDK is set up, and otherwise logs the failure and exits
    with status 1.  In the entry point a failed set-up therefore ends the
    process with status 1 before the queue is looked at (no call is made,
    nothing is written), and after a successful set-up the process ends as
    [process_queue] does: it completes, with the closing log line, exactly
    when [process_queue] returns, and an exception of [process_queue]
    reaches the top level. *)
Theorem main_outcome now_utc st :
  match setup_failure admin_setup st with
  | Some e =>
      initialize_firebase admin_setup st
      = (Ret (Some 1),
         add_log "ERROR" ("Failed to initialize Firebase: " ++ str_of_exn e) st) /\
      main C admin_setup now_utc st
      = (Exited 1,
         add_log "ERROR" ("Failed to initialize Firebase: " ++ str_of_exn e) st)
  | None =>
      initialize_firebase admin_setup st
      = (Ret None, add_log "INFO" "Firebase Admin initialized successfully." st) /\
      match process_queue C now_utc
              (add_log "INFO" "Firebase Admin initialized successfully." st) with
      | (Ret _, st2) =>
          main C admin_setup now_utc st
          = (Completed,
             add_log "INFO" "Finished video queue processing script." st2)
      | (Raise e, st2) => main C admin_setup now_utc st = (Crashed e, st2)
      | (Hang, st2) => main C admin_setup now_utc st = (Stuck, st2)
      end
  end.
Proof.
  unfold setup_failure, main, initialize_firebase, try_except, bind,
    os_environ, log, raise, ret.
  destruct (environ st !! "FIREBASE_SERVICE_ACCOUNT_KEY") as [key|]; simpl.
  - destruct (admin_setup key) as [e|]; simpl; [done |].
    split; [done |].
    by destruct (process_queue C now_utc _) as [[[] | e |] st2].
  - done.
Qed.

End Startup.
